(** * realm-core: slab allocator file envelope and query-language driver

    A shallow embedding of these pieces of the repository:

    - [SlabAlloc]: the file header and streaming footer declared in
      [src/realm/alloc_slab.hpp], header validation and the promotion of a
      streaming-form file ([prepare_for_update]);
    - [Driver]: the query compiler of [src/realm/parser/driver.cpp], which
      lowers the predicate AST to column-specialised predicates or to
      generic [Compare] expressions, with its string operators
      ([StringOps]) and its sort, distinct and limit descriptors
      ([Ordering]);
    - [Utilities]: the casts, roundings and the rolling checksum of
      [src/tightdb/utilities.cpp];
    - [PthreadTest]: the pseudo-random generator of [test/pthread_test.hpp].

    Byte buffers are [list byte], 64-bit words are [Z] with their range
    written out, tables and groups are finite maps keyed by name. *)

From Stdlib Require Import ZArith String Ascii Lia Bool.
From Stdlib Require Import Strings.Byte.
From stdpp Require Import base option list gmap strings.

Local Open Scope Z_scope.

(** ** Outcomes of fallible code *)

(** A C++ call either returns, or unwinds with an exception of type [E]. *)
Inductive outcome (E A : Type) : Type :=
| Returns (a : A)
| Throws (e : E).
Arguments Returns {E A} a.
Arguments Throws {E A} e.

Definition obind {E A B} (m : outcome E A) (k : A -> outcome E B) : outcome E B :=
  match m with
  | Returns a => k a
  | Throws e => Throws e
  end.

(** ** Little-endian words in byte buffers *)

Module Bytes.

#[global] Instance byte_eq_decision : EqDecision byte := Byte.byte_eq_dec.

Definition byte_to_Z (b : byte) : Z := Z.of_N (Byte.to_N b).

Definition byte_of_Z (z : Z) : byte :=
  match Byte.of_N (Z.to_N (z mod 256)) with
  | Some b => b
  | None => x00
  end.

(** The unsigned value of a little-endian byte sequence. *)
Fixpoint le_decode (bs : list byte) : Z :=
  match bs with
  | [] => 0
  | b :: rest => byte_to_Z b + 256 * le_decode rest
  end.

(** The [n] low-order bytes of [z], least significant first. *)
Fixpoint le_encode (n : nat) (z : Z) : list byte :=
  match n with
  | O => []
  | S n' => byte_of_Z z :: le_encode n' (z / 256)
  end.

(** [*reinterpret_cast<const uint64_t*>(data + off)] on a little-endian host. *)
Definition read_u64 (off : nat) (data : list byte) : Z :=
  le_decode (take 8 (drop off data)).

(** [*reinterpret_cast<uint64_t*>(data + off) = v]. *)
Definition write_u64 (off : nat) (v : Z) (data : list byte) : list byte :=
  take off data ++ le_encode 8 v ++ drop (off + 8) data.

(** [std::fill(data + off, data + off + n, 0)]. *)
Definition zero_fill (off n : nat) (data : list byte) : list byte :=
  take off data ++ replicate n x00 ++ drop (off + n) data.

End Bytes.

(** ** The slab allocator's file envelope ([src/realm/alloc_slab.hpp]) *)

Module SlabAlloc.
Import Bytes.

Definition ref_type := Z.

(** [#if REALM_NULL_STRINGS == 1]: version 3 with null support of string
    columns, version 2 without. *)
Definition default_file_format_version (REALM_NULL_STRINGS : bool) : Z :=
  if REALM_NULL_STRINGS then 3 else 2.

Inductive AttachMode : Set :=
| attach_None        (* Nothing is attached *)
| attach_OwnedBuffer (* We own the buffer *)
| attach_UsersBuffer (* We do not own the buffer *)
| attach_SharedFile  (* On behalf of SharedGroup *)
| attach_UnsharedFile (* Not on behalf of SharedGroup *).

(** Values of each used bit in [m_flags]. *)
Definition flags_SelectBit : Z := 1.
Definition flags_ServerSyncMode : Z := 2.

(** [struct Header], 24 bytes. *)
Record Header : Set := {
  m_top_ref : Z * Z;                  (* uint64_t m_top_ref[2] *)
  m_mnemonic : list byte;             (* uint8_t m_mnemonic[4], "T-DB" *)
  m_file_format_version : list byte;  (* uint8_t m_file_format_version[2] *)
  m_reserved : byte;
  m_flags : byte
}.

(** [struct StreamingFooter], 16 bytes. *)
Record StreamingFooter : Set := {
  footer_m_top_ref : Z;
  m_magic_cookie : Z
}.

Definition sizeof_Header : nat := 24.
Definition sizeof_StreamingFooter : nat := 16.

Definition footer_magic_cookie : Z := 0x3034125237E526C8.

(** The bytes of the mnemonic ["T-DB"]. *)
Definition mnemonic_T_DB : list byte := [x54; x2d; x44; x42].

(** [reinterpret_cast<const Header*>(data)]: the header laid out as the
    struct declares it, words little-endian. *)
Definition read_Header (data : list byte) : Header :=
  {| m_top_ref := (read_u64 0 data, read_u64 8 data);
     m_mnemonic := take 4 (drop 16 data);
     m_file_format_version := take 2 (drop 20 data);
     m_reserved := default x00 (data !! 22%nat);
     m_flags := default x00 (data !! 23%nat) |}.

(** [reinterpret_cast<const StreamingFooter*>(data + size) - 1]: the last
    16 bytes of the buffer. *)
Definition read_StreamingFooter (data : list byte) : StreamingFooter :=
  let off := (length data - sizeof_StreamingFooter)%nat in
  {| footer_m_top_ref := read_u64 off data;
     m_magic_cookie := read_u64 (off + 8) data |}.

(** Bit 0 of [m_flags] selects between the two top refs. *)
Definition select_bit (h : Header) : bool :=
  negb (Z.land (byte_to_Z (m_flags h)) flags_SelectBit =? 0).

Definition server_sync_bit (h : Header) : bool :=
  negb (Z.land (byte_to_Z (m_flags h)) flags_ServerSyncMode =? 0).

Definition selected_top_ref (h : Header) : Z :=
  if select_bit h then snd (m_top_ref h) else fst (m_top_ref h).

Inductive failure : Set :=
| InvalidDatabase      (* struct InvalidDatabase: util::File::AccessError *)
| assertion_failed     (* REALM_ASSERT terminates the process *).

(** Modelled from the spec: steps 1 to 4 of the header validation algorithm
    of [SlabAlloc::validate_buffer], which is declared in
    [alloc_slab.hpp] and defined in the absent [alloc_slab.cpp].  The
    buffer must hold a header, the mnemonic must read ["T-DB"], the format
    version (two bytes, little-endian) must be the supported one, and the
    server-sync bit must match the caller's request. *)
Definition check_header (REALM_NULL_STRINGS server_sync_mode : bool)
    (data : list byte) : outcome failure Header :=
  if (length data <? sizeof_Header)%nat then Throws InvalidDatabase
  else
    let h := read_Header data in
    if negb (bool_decide (m_mnemonic h = mnemonic_T_DB)) then Throws InvalidDatabase
    else if negb (le_decode (m_file_format_version h)
                  =? default_file_format_version REALM_NULL_STRINGS)
    then Throws InvalidDatabase
    else if negb (Bool.eqb (server_sync_bit h) server_sync_mode)
    then Throws InvalidDatabase
    else Returns h.

(** Modelled from the spec: step 5 of the header validation algorithm of
    the absent [SlabAlloc::validate_buffer].  The top-ref is selected by
    flags bit 0; a selected top-ref of 0 means streaming form: the buffer
    must be at least 24+16 bytes, its last 16 bytes are the footer, the
    magic cookie must match, and the top-ref is taken from the footer.  The
    result pairs the [top_ref] out-parameter with the value stored into
    [m_file_on_streaming_form]. *)
Definition validate_buffer (REALM_NULL_STRINGS server_sync_mode : bool)
    (data : list byte) : outcome failure (ref_type * bool) :=
  obind (check_header REALM_NULL_STRINGS server_sync_mode data) (fun h =>
    let ref := selected_top_ref h in
    if ref =? 0 then
      if (length data <? sizeof_Header + sizeof_StreamingFooter)%nat
      then Throws InvalidDatabase
      else
        let footer := read_StreamingFooter data in
        if negb (m_magic_cookie footer =? footer_magic_cookie)
        then Throws InvalidDatabase
        else Returns (footer_m_top_ref footer, true)
    else Returns (ref, false)).

(** The members of [class SlabAlloc] that attachment and promotion touch. *)
Record SlabAlloc : Set := {
  m_data : list byte;
  m_attach_mode : AttachMode;
  m_file_on_streaming_form : bool;
  m_baseline : nat
}.

(** Modelled from the spec: [SlabAlloc::attach_buffer], defined in the
    absent [alloc_slab.cpp]: validate the buffer, then attach it as a
    buffer the caller still owns, with the baseline at its size. *)
Definition attach_buffer (REALM_NULL_STRINGS server_sync_mode : bool)
    (data : list byte) : outcome failure (ref_type * SlabAlloc) :=
  obind (validate_buffer REALM_NULL_STRINGS server_sync_mode data) (fun '(top_ref, streaming) =>
    Returns (top_ref,
             {| m_data := data;
                m_attach_mode := attach_UsersBuffer;
                m_file_on_streaming_form := streaming;
                m_baseline := length data |})).

(** Modelled from the spec: [SlabAlloc::do_prepare_for_update], declared in
    [alloc_slab.hpp] and defined in the absent [alloc_slab.cpp]: rewrite the
    in-memory header so its first top-ref slot holds the footer's top-ref,
    zero the footer region, and clear the streaming-form flag.  The footer
    is the last 16 bytes below the baseline of the writable mapping. *)
Definition do_prepare_for_update (a : SlabAlloc) (mutable_data : list byte)
    : SlabAlloc * list byte :=
  let footer_off := (m_baseline a - sizeof_StreamingFooter)%nat in
  let top_ref := read_u64 footer_off mutable_data in
  let with_header := write_u64 0 top_ref mutable_data in
  let with_footer := zero_fill footer_off sizeof_StreamingFooter with_header in
  ({| m_data := m_data a;
      m_attach_mode := m_attach_mode a;
      m_file_on_streaming_form := false;
      m_baseline := m_baseline a |}, with_footer).

Definition attached_to_file (a : SlabAlloc) : bool :=
  match m_attach_mode a with
  | attach_SharedFile | attach_UnsharedFile => true
  | _ => false
  end.

(** [SlabAlloc::prepare_for_update] (alloc_slab.hpp, inline). *)
Definition prepare_for_update (a : SlabAlloc) (mutable_data : list byte)
    : outcome failure (SlabAlloc * list byte) :=
  if negb (attached_to_file a) then Throws assertion_failed
  else if negb (m_file_on_streaming_form a) then Returns (a, mutable_data)
  else Returns (do_prepare_for_update a mutable_data).

(** The buffer of the header-validation scenario: mnemonic ["T-DB"],
    version 3, flags 0, both top-refs 0. *)
Definition streaming_header_bytes : list byte :=
  replicate 16 x00 ++ mnemonic_T_DB ++ [x03; x00; x00; x00].

Definition streaming_footer_bytes (top_ref : Z) : list byte :=
  le_encode 8 top_ref ++ le_encode 8 footer_magic_cookie.

(** A 40-byte file on streaming form whose footer names top-ref 1024, and
    an allocator attached to it outside a shared group. *)
Definition streaming_file : list byte :=
  streaming_header_bytes ++ streaming_footer_bytes 1024.

Definition streaming_alloc : SlabAlloc :=
  {| m_data := streaming_file;
     m_attach_mode := attach_UnsharedFile;
     m_file_on_streaming_form := true;
     m_baseline := 40 |}.

End SlabAlloc.

(** ** The query-language driver ([src/realm/parser/driver.cpp]) *)

Module Driver.

(** *** Strings with [std::string] positions *)

(** [size_t] is a 64-bit unsigned integer; sums and differences wrap. *)
Definition size_t_add (a b : Z) : Z := (a + b) mod 2 ^ 64.
Definition size_t_sub (a b : Z) : Z := (a - b) mod 2 ^ 64.

(** [std::string::npos], the largest [size_t]. *)
Definition npos : Z := 2 ^ 64 - 1.

Definition size (s : string) : Z := Z.of_nat (String.length s).

Fixpoint find_from (c : ascii) (s : string) (i : Z) : option Z :=
  match s with
  | EmptyString => None
  | String a rest => if Ascii.eqb a c then Some i else find_from c rest (i + 1)
  end.

(** [s.find(c)]: the position of the first [c], or [npos]. *)
Definition find (s : string) (c : ascii) : Z :=
  match find_from c s 0 with
  | Some i => i
  | None => npos
  end.

(** [s.find(pat) == 0]. *)
Definition starts_with (s pat : string) : bool := String.prefix pat s.

(** Exceptions of the driver.  [terminated] stands for a failed
    [REALM_ASSERT], [REALM_UNREACHABLE] or a null dereference, which no
    handler catches. *)
Inductive exn : Set :=
| runtime_error (msg : string)
| logic_error (msg : string)
| out_of_range
| terminated.

Definition is_std_exception (e : exn) : bool :=
  match e with
  | terminated => false
  | _ => true
  end.

(** [s.substr(pos, len)]: throws [std::out_of_range] when [pos > size()],
    and stops at the end of the string. *)
Definition substr (s : string) (pos len : Z) : outcome exn string :=
  if size s <? pos then Throws out_of_range
  else Returns (String.substring (Z.to_nat pos)
                  (Z.to_nat (Z.min len (size s - pos))) s).

(** *** Data types, column keys, tables *)

(** [enum DataType].  [DataType_raw code] is a value that is none of the
    enumerators, such as the [DataType(-1)] that an expression without a
    data type reports. *)
Inductive DataType : Set :=
| type_Int | type_Bool | type_String | type_Binary | type_Mixed
| type_Timestamp | type_Float | type_Double | type_Decimal | type_Link
| type_LinkList | type_ObjectId | type_TypedLink | type_UUID
| DataType_raw (code : Z).

Definition DataType_minus1 : DataType := DataType_raw (-1).

#[global] Instance DataType_eq_dec : EqDecision DataType.
Proof. solve_decision. Defined.

(** [t >= 0] on a data type. *)
Definition nonneg (t : DataType) : bool :=
  match t with
  | DataType_raw code => (0 <=? code)%Z
  | _ => true
  end.

(** [enum ColumnType]; [col_type_63] is what the null column key reports. *)
Inductive ColumnType : Set :=
| col_type_Int | col_type_Bool | col_type_String | col_type_Binary
| col_type_Mixed | col_type_Timestamp | col_type_Float | col_type_Double
| col_type_Decimal | col_type_Link | col_type_LinkList | col_type_BackLink
| col_type_ObjectId | col_type_TypedLink | col_type_UUID
| col_type_63.

#[global] Instance ColumnType_eq_dec : EqDecision ColumnType.
Proof. solve_decision. Defined.

(** [DataType(col_type)]: the two enums share their numbering. *)
Definition DataType_of (t : ColumnType) : DataType :=
  match t with
  | col_type_Int => type_Int
  | col_type_Bool => type_Bool
  | col_type_String => type_String
  | col_type_Binary => type_Binary
  | col_type_Mixed => type_Mixed
  | col_type_Timestamp => type_Timestamp
  | col_type_Float => type_Float
  | col_type_Double => type_Double
  | col_type_Decimal => type_Decimal
  | col_type_Link => type_Link
  | col_type_LinkList => type_LinkList
  | col_type_BackLink => DataType_raw 14
  | col_type_ObjectId => type_ObjectId
  | col_type_TypedLink => type_TypedLink
  | col_type_UUID => type_UUID
  | col_type_63 => DataType_raw 63
  end.

(** [ColKey]: the null key [ColKey()], or a key that carries its index,
    its column type and its list attribute. *)
Inductive ColKey : Set :=
| ColKey_null
| ColKey_make (idx : nat) (type : ColumnType) (is_list : bool).

#[global] Instance ColKey_eq_dec : EqDecision ColKey.
Proof. solve_decision. Defined.

(** [!col_key]. *)
Definition ColKey_not (k : ColKey) : bool :=
  match k with
  | ColKey_null => true
  | ColKey_make _ _ _ => false
  end.

Definition ColKey_get_type (k : ColKey) : ColumnType :=
  match k with
  | ColKey_null => col_type_63
  | ColKey_make _ t _ => t
  end.

Definition ColKey_is_list (k : ColKey) : bool :=
  match k with
  | ColKey_null => true
  | ColKey_make _ _ l => l
  end.

(** A table: its name and its columns by name. *)
Record Table : Type := {
  get_name : string;
  columns : gmap string ColKey
}.

(** [Table::get_column_key(name)]: the null key when there is no such column. *)
Definition get_column_key (t : Table) (name : string) : ColKey :=
  default ColKey_null (columns t !! name).

(** A group: its tables by name; [Group::get_table(name)] is the lookup. *)
Abbreviation Group := (gmap string Table).

Definition get_table (g : Group) (name : string) : option Table := g !! name.

Inductive ExpressionComparisonType : Set := Any | All | None_.

(** [class LinkChain]. *)
Record LinkChain : Type := {
  m_link_cols : list ColKey;
  m_current_table : Table;
  m_base_table : Table;
  m_comparison_type : ExpressionComparisonType
}.

(** [LinkChain(table, comp_type)]. *)
Definition LinkChain_new (t : Table) (comp_type : ExpressionComparisonType) : LinkChain :=
  {| m_link_cols := []; m_current_table := t; m_base_table := t;
     m_comparison_type := comp_type |}.


(** *** Values *)

(** [StringData] and [BinaryData]: [None] is the null value that the
    default constructor builds. *)
Definition StringData : Set := option string.
Definition BinaryData : Set := option (list byte).

(** [Timestamp(seconds, nanoseconds)]. *)
Record Timestamp : Set := Timestamp_make {
  get_seconds : Z;
  get_nanoseconds : Z
}.

(** Floats are carried as their IEEE bit patterns; nothing here computes
    with them. *)
Inductive float : Set := float_of_bits (bits : Z).
Inductive double : Set := double_of_bits (bits : Z).

(** [Decimal128], [UUID] and [ObjectId] are built from their text only. *)
Inductive Decimal128 : Set :=
| Decimal128_of_string (text : string)
| Decimal128_nan (text : string).
Inductive UUID : Set := UUID_of_string (text : string).
Inductive ObjectId : Set := ObjectId_of_string (text : string).
Inductive ObjKey : Set := ObjKey_make (value : Z).

#[global] Instance Timestamp_eq_dec : EqDecision Timestamp.
Proof. solve_decision. Defined.

(** Modelled from the spec: [class Mixed] of the absent [realm/mixed.hpp],
    a tagged value that may be null. *)
Inductive Mixed : Set :=
| Mixed_null
| Mixed_Int (i : Z)
| Mixed_Bool (b : bool)
| Mixed_String (s : string)
| Mixed_Binary (b : list byte)
| Mixed_Timestamp (t : Timestamp)
| Mixed_Float (f : float)
| Mixed_Double (d : double)
| Mixed_Decimal (d : Decimal128)
| Mixed_ObjectId (o : ObjectId)
| Mixed_UUID (u : UUID)
| Mixed_Link (k : ObjKey).

Definition Mixed_is_null (m : Mixed) : bool :=
  match m with
  | Mixed_null => true
  | _ => false
  end.

Definition Mixed_get_type (m : Mixed) : DataType :=
  match m with
  | Mixed_null => DataType_minus1
  | Mixed_Int _ => type_Int
  | Mixed_Bool _ => type_Bool
  | Mixed_String _ => type_String
  | Mixed_Binary _ => type_Binary
  | Mixed_Timestamp _ => type_Timestamp
  | Mixed_Float _ => type_Float
  | Mixed_Double _ => type_Double
  | Mixed_Decimal _ => type_Decimal
  | Mixed_ObjectId _ => type_ObjectId
  | Mixed_UUID _ => type_UUID
  | Mixed_Link _ => type_Link
  end.

(** [Mixed(StringData)] and [Mixed(BinaryData)]: a null payload is the
    null [Mixed]. *)
Definition Mixed_of_StringData (s : StringData) : Mixed :=
  match s with
  | Some str => Mixed_String str
  | None => Mixed_null
  end.

Definition Mixed_of_BinaryData (b : BinaryData) : Mixed :=
  match b with
  | Some bytes => Mixed_Binary bytes
  | None => Mixed_null
  end.

(** Modelled from the spec: the typed getters [get_int], [get_bool],
    [get<T>]... of the absent [realm/mixed.hpp]: each asserts the stored
    type, so a mismatch terminates; the string and binary getters give the
    null value for a null [Mixed]. *)
Definition assert_some {A} (o : option A) : outcome exn A :=
  match o with
  | Some a => Returns a
  | None => Throws terminated
  end.

Definition Mixed_get_int (m : Mixed) : outcome exn Z :=
  assert_some (match m with Mixed_Int i => Some i | _ => None end).
Definition Mixed_get_bool (m : Mixed) : outcome exn bool :=
  assert_some (match m with Mixed_Bool b => Some b | _ => None end).
Definition Mixed_get_string (m : Mixed) : outcome exn StringData :=
  assert_some (match m with
               | Mixed_String s => Some (Some s)
               | Mixed_null => Some None
               | _ => None
               end).
Definition Mixed_get_binary (m : Mixed) : outcome exn BinaryData :=
  assert_some (match m with
               | Mixed_Binary b => Some (Some b)
               | Mixed_null => Some None
               | _ => None
               end).
Definition Mixed_get_timestamp (m : Mixed) : outcome exn Timestamp :=
  assert_some (match m with Mixed_Timestamp t => Some t | _ => None end).
Definition Mixed_get_float (m : Mixed) : outcome exn float :=
  assert_some (match m with Mixed_Float f => Some f | _ => None end).
Definition Mixed_get_double (m : Mixed) : outcome exn double :=
  assert_some (match m with Mixed_Double d => Some d | _ => None end).
Definition Mixed_get_decimal (m : Mixed) : outcome exn Decimal128 :=
  assert_some (match m with Mixed_Decimal d => Some d | _ => None end).
Definition Mixed_get_object_id (m : Mixed) : outcome exn ObjectId :=
  assert_some (match m with Mixed_ObjectId o => Some o | _ => None end).
Definition Mixed_get_uuid (m : Mixed) : outcome exn UUID :=
  assert_some (match m with Mixed_UUID u => Some u | _ => None end).
Definition Mixed_get_link (m : Mixed) : outcome exn ObjKey :=
  assert_some (match m with Mixed_Link k => Some k | _ => None end).

(** *** Argument binding *)

(** [class query_parser::Arguments], the interface the constant compiler
    calls for [$n]. *)
Record Arguments : Type := {
  bool_for_argument : nat -> outcome exn bool;
  long_for_argument : nat -> outcome exn Z;
  float_for_argument : nat -> outcome exn float;
  double_for_argument : nat -> outcome exn double;
  string_for_argument : nat -> outcome exn StringData;
  binary_for_argument : nat -> outcome exn BinaryData;
  timestamp_for_argument : nat -> outcome exn Timestamp;
  objectid_for_argument : nat -> outcome exn ObjectId;
  uuid_for_argument : nat -> outcome exn UUID;
  decimal128_for_argument : nat -> outcome exn Decimal128;
  object_index_for_argument : nat -> outcome exn ObjKey;
  is_argument_null : nat -> outcome exn bool;
  type_for_argument : nat -> outcome exn DataType
}.

(** [m_args.at(n)]: throws [std::out_of_range] past the end. *)
Definition at_ (args : list Mixed) (n : nat) : outcome exn Mixed :=
  match args !! n with
  | Some m => Returns m
  | None => Throws out_of_range
  end.

(** [class MixedArguments]. *)
Definition MixedArguments (m_args : list Mixed) : Arguments :=
  {| bool_for_argument n := obind (at_ m_args n) Mixed_get_bool;
     long_for_argument n := obind (at_ m_args n) Mixed_get_int;
     float_for_argument n := obind (at_ m_args n) Mixed_get_float;
     double_for_argument n := obind (at_ m_args n) Mixed_get_double;
     string_for_argument n := obind (at_ m_args n) Mixed_get_string;
     binary_for_argument n := obind (at_ m_args n) Mixed_get_binary;
     timestamp_for_argument n := obind (at_ m_args n) Mixed_get_timestamp;
     objectid_for_argument n := obind (at_ m_args n) Mixed_get_object_id;
     uuid_for_argument n := obind (at_ m_args n) Mixed_get_uuid;
     decimal128_for_argument n := obind (at_ m_args n) Mixed_get_decimal;
     object_index_for_argument n := obind (at_ m_args n) Mixed_get_link;
     is_argument_null n := obind (at_ m_args n) (fun m => Returns (Mixed_is_null m));
     type_for_argument n := obind (at_ m_args n) (fun m => Returns (Mixed_get_type m)) |}.


(** *** Subexpressions and queries *)

Inductive AggrType : Set := MAX | MIN | SUM | AVG.
Inductive PostOpType : Set := COUNT | SIZE.

(** Modelled from the spec: the subexpression classes of
    [realm/query_expression.hpp], which [driver.cpp] instantiates and does
    not declare.  Every column expression records the base table's name,
    its column key and the link columns traversed to reach it; an aggregate
    records the data type of its result. *)
Inductive Subexpr : Type :=
| Columns_Link (col_key : ColKey) (table : string) (link_cols : list ColKey)
    (comp : ExpressionComparisonType)                 (* Columns<Link> *)
| Columns_Lst (elem : ColumnType) (col_key : ColKey) (table : string)
    (link_cols : list ColKey) (comp : ExpressionComparisonType)
                                                      (* Columns<Lst<T>> *)
| Columns (elem : ColumnType) (col_key : ColKey) (table : string)
    (link_cols : list ColKey)                         (* Columns<T> *)
| Value_int64 (v : Z)
| Value_Bool (v : bool)
| Value_float (v : float)
| Value_double (v : double)
| Value_Decimal128 (v : Decimal128)
| Value_Timestamp (v : Timestamp)
| Value_ObjectId (v : ObjectId)
| Value_UUID (v : UUID)
| Value_BinaryData (v : BinaryData)
| Value_null
| ConstantStringValue (v : StringData)
| LinkCount (link : Subexpr)                          (* s->count() *)
| SizeOperator (arg : Subexpr)                         (* s->size() *)
| SubColumns (elem : ColumnType) (link : Subexpr) (col_key : ColKey)
                                                      (* link_prop->column<T>(col_key) *)
| ListColumnAggregate (op : AggrType) (result : DataType) (lst : Subexpr)
                                                      (* list_prop->max_of() ... *)
| SubColumnAggregate (op : AggrType) (result : DataType) (sub : Subexpr)
                                                      (* prop->max_of() ... *).

(** [dynamic_cast<Columns<Link>*>(subexpr)]. *)
Definition is_Columns_Link (s : Subexpr) : bool :=
  match s with
  | Columns_Link _ _ _ _ => true
  | _ => false
  end.

(** [dynamic_cast<ColumnListBase*>(subexpr)]. *)
Definition is_ColumnListBase (s : Subexpr) : bool :=
  match s with
  | Columns_Lst _ _ _ _ _ => true
  | _ => false
  end.

(** [dynamic_cast<Columns<StringData>*>] and [dynamic_cast<Columns<BinaryData>*>]. *)
Definition is_Columns_of (t : ColumnType) (s : Subexpr) : bool :=
  match s with
  | Columns elem _ _ _ => bool_decide (elem = t)
  | _ => false
  end.

(** [dynamic_cast<SubColumnBase*>(subexpr)]. *)
Definition is_SubColumnBase (s : Subexpr) : bool :=
  match s with
  | SubColumns _ _ _ => true
  | _ => false
  end.

(** Modelled from the spec: [dynamic_cast<const ObjPropertyBase*>(subexpr)]
    succeeds on the single-valued (scalar) column expressions, the
    properties; it gives [column_key()] and the link columns traversed. *)
Definition as_ObjPropertyBase (s : Subexpr) : option (ColKey * list ColKey) :=
  match s with
  | Columns _ col_key _ link_cols => Some (col_key, link_cols)
  | _ => None
  end.

(** [prop->links_exist()]: the property is reached through a link. *)
Definition links_exist (prop : ColKey * list ColKey) : bool :=
  match snd prop with
  | [] => false
  | _ :: _ => true
  end.

Definition column_key (prop : ColKey * list ColKey) : ColKey := fst prop.

(** Modelled from the spec: [Subexpr::has_constant_evaluation()], declared
    in the absent [realm/query_expression.hpp]: true of the constant value
    nodes only. *)
Definition has_constant_evaluation (s : Subexpr) : bool :=
  match s with
  | Value_int64 _ | Value_Bool _ | Value_float _ | Value_double _
  | Value_Decimal128 _ | Value_Timestamp _ | Value_ObjectId _ | Value_UUID _
  | Value_BinaryData _ | Value_null | ConstantStringValue _ => true
  | _ => false
  end.

(** Modelled from the spec: [Subexpr::get_mixed()], declared in the absent
    [realm/query_expression.hpp]: the constant a value node holds. *)
Definition get_mixed (s : Subexpr) : Mixed :=
  match s with
  | Value_int64 v => Mixed_Int v
  | Value_Bool v => Mixed_Bool v
  | Value_float v => Mixed_Float v
  | Value_double v => Mixed_Double v
  | Value_Decimal128 v => Mixed_Decimal v
  | Value_Timestamp v => Mixed_Timestamp v
  | Value_ObjectId v => Mixed_ObjectId v
  | Value_UUID v => Mixed_UUID v
  | Value_BinaryData v => Mixed_of_BinaryData v
  | ConstantStringValue v => Mixed_of_StringData v
  | _ => Mixed_null
  end.

(** Modelled from the spec: [Subexpr::get_type()], declared in the absent
    [realm/query_expression.hpp].  A column expression has the type of its
    column's elements, a value the type of its constant, a count or size
    is an integer, and the typed null value has an unknown type (<0). *)
Definition get_type (s : Subexpr) : DataType :=
  match s with
  | Columns_Link _ _ _ _ => type_Link
  | Columns_Lst elem _ _ _ _ => DataType_of elem
  | Columns elem _ _ _ => DataType_of elem
  | Value_int64 _ => type_Int
  | Value_Bool _ => type_Bool
  | Value_float _ => type_Float
  | Value_double _ => type_Double
  | Value_Decimal128 _ => type_Decimal
  | Value_Timestamp _ => type_Timestamp
  | Value_ObjectId _ => type_ObjectId
  | Value_UUID _ => type_UUID
  | Value_BinaryData _ => type_Binary
  | Value_null => DataType_minus1
  | ConstantStringValue _ => type_String
  | LinkCount _ => type_Int
  | SizeOperator _ => type_Int
  | SubColumns elem _ _ => DataType_of elem
  | ListColumnAggregate _ result _ => result
  | SubColumnAggregate _ result _ => result
  end.

(** [CompareNode]'s operator codes. *)
Inductive CompareOp : Set :=
| EQUAL | NOT_EQUAL | GREATER | LESS | GREATER_EQUAL | LESS_EQUAL
| BEGINSWITH | ENDSWITH | CONTAINS | LIKE.

(** The comparator classes a [Compare<Cond>] is instantiated with. *)
Inductive Cond : Set :=
| Equal | NotEqual | EqualIns | NotEqualIns
| Less | Greater | LessEqual | GreaterEqual.

(** [class Expression]: [Compare<Cond>(a, b)] keeps its two operands in
    constructor order. *)
Inductive Expression : Type :=
| Compare (cond : Cond) (first second : Subexpr)
| TrueExpression
| FalseExpression.

(** The queries the comparison nodes return: the empty [Query{}], the
    column-specialised predicates ([drv->simple_query(op, col_key, val
    [, case_sensitive])] and the column-against-null forms
    [where().equal(col_key, null())], [where().not_equal(col_key, null())]),
    or a generic expression tree. *)
Inductive Query : Type :=
| Query_empty
| simple_query (op : CompareOp) (col_key : ColKey) (val : Mixed)
    (case_sensitive : option bool)
| where_equal_null (col_key : ColKey)
| where_not_equal_null (col_key : ColKey)
| Query_of (e : Expression).

Definition is_column_specialized (q : Query) : bool :=
  match q with
  | simple_query _ _ _ _ | where_equal_null _ | where_not_equal_null _ => true
  | _ => false
  end.


(** *** What the driver takes from outside this file *)

(** The fields of [struct tm] the driver sets; [tm()] zeroes the rest. *)
Record tm : Set := {
  tm_year : Z; tm_mon : Z; tm_mday : Z;
  tm_hour : Z; tm_min : Z; tm_sec : Z
}.

(** The C library, the storage layer's helpers and the [LinkChain]
    members that [driver.cpp] calls and does not define.  [description]
    is [Subexpr::description] with a fresh serialisation state,
    [aggregate_result_type] the type of [max_of()], [min_of()], [sum_of()]
    or [avg_of()] over elements of a given type.  [sscanf]
    returns the values it converted, in order; their number is its return
    value.  [base64_decode] returns the decoded bytes, whose number is the
    decoded size. *)
Record Env : Type := {
  strtol : string -> Z -> Z;
  strtof : string -> float;
  strtod : string -> double;
  base64_decoded_size : Z -> Z;
  base64_decode : string -> Z -> option (list byte);
  sscanf : string -> string -> list Z;
  platform_timegm : tm -> Z;
  data_types_are_comparable : DataType -> DataType -> bool;
  get_data_type_name : DataType -> string;
  aggregate_result_type : AggrType -> DataType -> DataType;
  description : Subexpr -> string;
  LinkChain_link : Group -> LinkChain -> string -> outcome exn LinkChain;
  LinkChain_add : Group -> LinkChain -> ColKey -> outcome exn LinkChain;
  LinkChain_backlink_to :
    Group -> LinkChain -> Table -> ColKey -> outcome exn LinkChain
}.

(** Conversions to [int32_t], [int64_t] and [size_t]. *)
Definition to_int32 (z : Z) : Z := (z + 2 ^ 31) mod 2 ^ 32 - 2 ^ 31.
Definition to_int64 (z : Z) : Z := (z + 2 ^ 63) mod 2 ^ 64 - 2 ^ 63.
Definition to_size_t (z : Z) : Z := z mod 2 ^ 64.

(** *** The predicate AST *)

Inductive ConstantType : Set :=
| NUMBER | INFINITY_VAL | NAN_VAL | FLOAT | STRING | BASE64 | TIMESTAMP
| UUID_T | OID | NULL_VAL | TRUE | FALSE | ARG.

Record ConstantNode : Set := {
  ConstantNode_type : ConstantType;
  text : string
}.

(** [PropertyNode] and its three subclasses; a [PathNode] is its
    [path_elems]. *)
Inductive PropertyNode : Set :=
| PropNode (path : list string) (identifier : string)
    (post_op : option PostOpType) (comp_type : ExpressionComparisonType)
| LinkAggrNode (path : list string) (link : string) (aggr_op : AggrType)
    (prop : string)
| ListAggrNode (path : list string) (identifier : string) (aggr_op : AggrType).

(** [class ValueNode]: two pointers, one of which the parser sets. *)
Record ValueNode : Set := {
  constant : option ConstantNode;
  prop : option PropertyNode
}.

Definition ValueNode_of_constant (c : ConstantNode) : ValueNode :=
  {| constant := Some c; prop := None |}.
Definition ValueNode_of_prop (p : PropertyNode) : ValueNode :=
  {| constant := None; prop := Some p |}.

(** [class ParserDriver]: the base table, the group it belongs to
    ([m_base_table->get_parent_group()]) and the bound arguments.  The
    scratch buffers [m_args.buffer_space] are the state threaded below. *)
Record ParserDriver : Type := {
  drv_base_table : Table;
  get_parent_group : Group;
  m_args : Arguments
}.

(** *** Helpers in the anonymous namespace *)

Definition get_printable_table_name (name : string) : string :=
  let prefix := "class_" in
  if (String.length prefix <? String.length name)%nat && String.prefix prefix name
  then String.substring (String.length prefix)
         (String.length name - String.length prefix) name
  else name.

Definition post_op_type_to_str (type : PostOpType) : string :=
  match type with
  | COUNT => ".@count"
  | SIZE => ".@size"
  end.

Definition agg_op_type_to_str (type : AggrType) : string :=
  match type with
  | MAX => ".@max"
  | MIN => ".@min"
  | SUM => ".@sum"
  | AVG => ".@avg"
  end.

(** [static std::map<int, std::string> opstr]; [opstr[op]] of an absent
    key is the empty string. *)
Definition opstr (op : CompareOp) : string :=
  match op with
  | GREATER => ">"
  | LESS => "<"
  | GREATER_EQUAL => ">="
  | LESS_EQUAL => "<="
  | BEGINSWITH => "beginswith"
  | ENDSWITH => "endswith"
  | CONTAINS => "contains"
  | LIKE => "like"
  | EQUAL | NOT_EQUAL => ""
  end.

Definition get_timestamp_if_valid (seconds nanoseconds : Z) : outcome exn Timestamp :=
  let both_non_negative := (0 <=? seconds) && (0 <=? nanoseconds) in
  let both_non_positive := (seconds <=? 0) && (nanoseconds <=? 0) in
  if both_non_negative || both_non_positive
  then Returns (Timestamp_make seconds nanoseconds)
  else Throws (runtime_error "Invalid timestamp format").

(** *** Property subexpressions *)

Definition PostOpNode_visit (env : Env) (type : PostOpType)
    (subexpr : option Subexpr) : outcome exn Subexpr :=
  match subexpr with
  | Some s =>
      if is_Columns_Link s then Returns (LinkCount s)
      else if is_ColumnListBase s then Returns (SizeOperator s)
      else if is_Columns_of col_type_String s then Returns (SizeOperator s)
      else if is_Columns_of col_type_Binary s then Returns (SizeOperator s)
      else Throws (runtime_error
                     ("Operation '" +:+ post_op_type_to_str type
                      +:+ "' is not supported on property of type '"
                      +:+ get_data_type_name env (get_type s) +:+ "'"))
  | None => Throws terminated
  end.

Definition AggrNode_visit (env : Env) (type : AggrType) (subexpr : option Subexpr)
    : outcome exn Subexpr :=
  match subexpr with
  | Some s =>
      let result := aggregate_result_type env type (get_type s) in
      if is_ColumnListBase s then Returns (ListColumnAggregate type result s)
      else if is_SubColumnBase s then Returns (SubColumnAggregate type result s)
      else Throws (runtime_error "Cannot aggregate")
  | None => Throws (runtime_error "Cannot aggregate")
  end.

(** [LinkChain::backlink(const std::string&)]. *)
Definition LinkChain_backlink (env : Env) (g : Group) (lc : LinkChain)
    (path_elem : string) : outcome exn LinkChain :=
  obind (substr path_elem 7 npos) (fun table_column_pair =>
  let dot_pos := find table_column_pair "." in
  obind (substr table_column_pair 0 dot_pos) (fun table_name =>
  obind (substr table_column_pair (size_t_add dot_pos 1) npos) (fun column_name =>
  let origin_table := get_table g table_name in
  let origin_column :=
    match origin_table with
    | Some t => get_column_key t column_name
    | None => ColKey_null
    end in
  if ColKey_not origin_column then
    Throws (runtime_error
              ("No property '" +:+ column_name +:+ "' found in type '"
               +:+ get_printable_table_name table_name
               +:+ "' which links to type '"
               +:+ get_printable_table_name (get_name (m_current_table lc))
               +:+ "'"))
  else
    match origin_table with
    | Some t => LinkChain_backlink_to env g lc t origin_column
    | None => Throws terminated
    end))).

(** [LinkChain::column(std::string)]: the subexpression, and the chain as
    the call leaves it. *)
Definition LinkChain_column (env : Env) (g : Group) (lc : LinkChain)
    (col : string) : outcome exn (Subexpr * LinkChain) :=
  let base := get_name (m_base_table lc) in
  if starts_with col "@links." then
    obind (LinkChain_backlink env g lc col) (fun lc' =>
      Returns (Columns_Link ColKey_null base (m_link_cols lc')
                 (m_comparison_type lc'), lc'))
  else
    let col_key := get_column_key (m_current_table lc) col in
    if ColKey_not col_key then
      Throws (runtime_error
                ("'" +:+ get_name (m_current_table lc)
                 +:+ "' has no property: '" +:+ col +:+ "'"))
    else if ColKey_is_list col_key then
      match ColKey_get_type col_key with
      | (col_type_Int | col_type_Bool | col_type_String | col_type_Binary
        | col_type_Float | col_type_Double | col_type_Timestamp
        | col_type_Decimal | col_type_UUID | col_type_ObjectId
        | col_type_Mixed) as t =>
          Returns (Columns_Lst t col_key base (m_link_cols lc)
                     (m_comparison_type lc), lc)
      | col_type_LinkList =>
          obind (LinkChain_add env g lc col_key) (fun lc' =>
            Returns (Columns_Link col_key base (m_link_cols lc')
                       (m_comparison_type lc'), lc'))
      | _ => Throws terminated
      end
    else
      match ColKey_get_type col_key with
      | (col_type_Int | col_type_Bool | col_type_String | col_type_Binary
        | col_type_Float | col_type_Double | col_type_Timestamp
        | col_type_Decimal | col_type_UUID | col_type_ObjectId
        | col_type_Mixed) as t =>
          Returns (Columns t col_key base (m_link_cols lc), lc)
      | col_type_Link =>
          obind (LinkChain_add env g lc col_key) (fun lc' =>
            Returns (Columns_Link col_key base (m_link_cols lc') Any, lc'))
      | _ => Throws terminated
      end.

(** [PathNode::visit]. *)
Definition PathNode_visit (env : Env) (drv : ParserDriver)
    (path_elems : list string) (comp_type : ExpressionComparisonType)
    : outcome exn LinkChain :=
  foldl (fun acc path_elem =>
           obind acc (fun link_chain =>
             if starts_with path_elem "@links."
             then LinkChain_backlink env (get_parent_group drv) link_chain path_elem
             else LinkChain_link env (get_parent_group drv) link_chain path_elem))
        (Returns (LinkChain_new (drv_base_table drv) comp_type))
        path_elems.

(** [PropNode::visit], [LinkAggrNode::visit] and [ListAggrNode::visit],
    dispatched on the node's class. *)
Definition PropertyNode_visit (env : Env) (drv : ParserDriver)
    (node : PropertyNode) : outcome exn Subexpr :=
  let g := get_parent_group drv in
  match node with
  | PropNode path identifier post_op comp_type =>
      obind (PathNode_visit env drv path comp_type) (fun link_chain =>
      obind (LinkChain_column env g link_chain identifier) (fun '(subexpr, _) =>
        match post_op with
        | Some type => PostOpNode_visit env type (Some subexpr)
        | None => Returns subexpr
        end))
  | LinkAggrNode path link aggr_op prop =>
      obind (PathNode_visit env drv path Any) (fun link_chain =>
      obind (LinkChain_column env g link_chain link) (fun '(subexpr, link_chain) =>
        if negb (is_Columns_Link subexpr) then
          Throws (runtime_error
                    ("Operation '" +:+ agg_op_type_to_str aggr_op
                     +:+ "' cannot apply to property '" +:+ link
                     +:+ "' because it is not a list"))
        else
          let col_key := get_column_key (m_current_table link_chain) prop in
          match ColKey_get_type col_key with
          | (col_type_Int | col_type_Float | col_type_Double
            | col_type_Decimal) as t =>
              AggrNode_visit env aggr_op (Some (SubColumns t subexpr col_key))
          | t =>
              Throws (runtime_error
                        ("collection aggregate not supported for type '"
                         +:+ get_data_type_name env (DataType_of t) +:+ "'"))
          end))
  | ListAggrNode path identifier aggr_op =>
      obind (PathNode_visit env drv path Any) (fun link_chain =>
      obind (LinkChain_column env g link_chain identifier) (fun '(subexpr, _) =>
        AggrNode_visit env aggr_op (Some subexpr)))
  end.


(** *** Compilation with the driver's scratch buffers *)

(** A computation that may push onto [m_args.buffer_space] and may throw;
    the buffers are returned as the exception leaves them. *)
Definition buffers : Set := list (list byte).
Definition M (A : Type) : Type := buffers -> outcome exn A * buffers.

Definition ret {A} (a : A) : M A := fun st => (Returns a, st).
Definition throw {A} (e : exn) : M A := fun st => (Throws e, st).
Definition lift {A} (o : outcome exn A) : M A := fun st => (o, st).
Definition bind {A B} (m : M A) (k : A -> M B) : M B :=
  fun st =>
    match m st with
    | (Returns a, st') => k a st'
    | (Throws e, st') => (Throws e, st')
    end.

Notation "x <- m ;; k" := (bind m (fun x => k))
  (at level 62, m at next level, right associativity).

(** [buffer_space.push_back({}); back().resize(n)]. *)
Definition push_buffer (n : Z) : M unit :=
  fun st => (Returns tt, st ++ [replicate (Z.to_nat n) x00]).

(** Overwrite the buffer pushed last with the decoded bytes. *)
Definition set_last_buffer (b : list byte) : M unit :=
  fun st => (Returns tt, take (length st - 1) st ++ [b]).

(** The readable form [YYYY-MM-DD@HH:MM:SS[:NANOS]] (or with [T] for [@])
    of a timestamp constant: the [else] branch of [Type::TIMESTAMP],
    giving the seconds and nanoseconds handed to
    [get_timestamp_if_valid].  [scan_readable] is its [sscanf] call. *)
Definition scan_readable (env : Env) (s : string) : list Z :=
  let sep := if find s "@" <? size s then "@" else "T" in
  let fmt := "%d-%d-%d" +:+ sep +:+ "%d:%d:%d:%d" in
  sscanf env s fmt.

Definition readable_timestamp (env : Env) (s : string) : outcome exn (Z * Z) :=
  let scanned := scan_readable env s in
  let cnt := Z.of_nat (length scanned) in
  let field i := to_int32 (nth i scanned 0) in
  if cnt <? 6 then Throws terminated
  else
    let tmp := {| tm_year := field 0%nat - 1900; tm_mon := field 1%nat - 1;
                  tm_mday := field 2%nat; tm_hour := field 3%nat;
                  tm_min := field 4%nat; tm_sec := field 5%nat |} in
    if tm_year tmp <? 0 then
      Throws (logic_error "Conversion of dates before 1900 is not supported.")
    else
      let seconds := to_int64 (platform_timegm env tmp) in
      let nanoseconds := if cnt =? 6 then 0 else field 6%nat in
      if nanoseconds <? 0 then
        Throws (logic_error "The nanoseconds of a Timestamp cannot be negative.")
      else
        let nanoseconds :=
          if seconds <? 0 then to_int32 (nanoseconds * -1) else nanoseconds in
        Returns (seconds, nanoseconds).

(** The internal form [T<seconds>:<nanoseconds>]. *)
Definition internal_timestamp (env : Env) (s : string) : outcome exn (Z * Z) :=
  let colon_pos := find s ":" in
  obind (substr s 1 (size_t_sub colon_pos 1)) (fun s1 =>
  obind (substr s (size_t_add colon_pos 1) npos) (fun s2 =>
    Returns (to_int64 (strtol env s1 0), to_int32 (strtol env s2 0)))).

(** The [Type::ARG] branch once the argument is known not to be null:
    [None] leaves [ret] null. *)
Definition argument_value (args : Arguments) (arg_no : nat) (type : DataType)
    : outcome exn (option Subexpr) :=
  match type with
  | type_Int => obind (long_for_argument args arg_no) (fun v => Returns (Some (Value_int64 v)))
  | type_String =>
      obind (string_for_argument args arg_no) (fun v => Returns (Some (ConstantStringValue v)))
  | type_Binary =>
      obind (binary_for_argument args arg_no) (fun v => Returns (Some (Value_BinaryData v)))
  | type_Bool => obind (bool_for_argument args arg_no) (fun v => Returns (Some (Value_Bool v)))
  | type_Float => obind (float_for_argument args arg_no) (fun v => Returns (Some (Value_float v)))
  | type_Double =>
      obind (double_for_argument args arg_no) (fun v => Returns (Some (Value_double v)))
  | type_Timestamp =>
      match timestamp_for_argument args arg_no with
      | Returns v => Returns (Some (Value_Timestamp v))
      | Throws e =>
          if is_std_exception e
          then obind (objectid_for_argument args arg_no)
                 (fun v => Returns (Some (Value_ObjectId v)))
          else Throws e
      end
  | type_ObjectId =>
      match objectid_for_argument args arg_no with
      | Returns v => Returns (Some (Value_ObjectId v))
      | Throws e =>
          if is_std_exception e
          then obind (timestamp_for_argument args arg_no)
                 (fun v => Returns (Some (Value_Timestamp v)))
          else Throws e
      end
  | type_Decimal =>
      obind (decimal128_for_argument args arg_no) (fun v => Returns (Some (Value_Decimal128 v)))
  | type_UUID => obind (uuid_for_argument args arg_no) (fun v => Returns (Some (Value_UUID v)))
  | _ => Returns None
  end.

(** The [switch (type)] of [ConstantNode::visit]: the value of [ret] when
    the switch is left, [None] for a null pointer. *)
Definition ConstantNode_switch (env : Env) (drv : ParserDriver)
    (node : ConstantNode) (hint : DataType) : M (option Subexpr) :=
  let text := text node in
  match ConstantNode_type node with
  | NUMBER =>
      if bool_decide (hint = type_Decimal)
      then ret (Some (Value_Decimal128 (Decimal128_of_string text)))
      else ret (Some (Value_int64 (to_int64 (strtol env text 0))))
  | FLOAT =>
      match hint with
      | type_Float => ret (Some (Value_float (strtof env text)))
      | type_Decimal => ret (Some (Value_Decimal128 (Decimal128_of_string text)))
      | _ => ret (Some (Value_double (strtod env text)))
      end
  | INFINITY_VAL =>
      let negative := bool_decide (String.get 0 text = Some "-"%char) in
      match hint with
      | type_Float =>
          ret (Some (Value_float
                       (float_of_bits (if negative then 0xff800000 else 0x7f800000))))
      | type_Double =>
          ret (Some (Value_double
                       (double_of_bits (if negative then 0xfff0000000000000
                                        else 0x7ff0000000000000))))
      | type_Decimal => ret (Some (Value_Decimal128 (Decimal128_of_string text)))
      | _ => throw (runtime_error
                      ("Infinity not supported for " +:+ get_data_type_name env hint))
      end
  | NAN_VAL =>
      match hint with
      | type_Float => ret (Some (Value_float (float_of_bits 0x7fc00000)))
      | type_Double => ret (Some (Value_double (double_of_bits 0x7ff8000000000000)))
      | type_Decimal => ret (Some (Value_Decimal128 (Decimal128_nan "0")))
      | _ => throw terminated
      end
  | STRING =>
      str <- lift (substr text 1 (size_t_sub (size text) 2));;
      ret (Some (ConstantStringValue (Some str)))
  | BASE64 =>
      let encoded_size := size_t_sub (size text) 5 in
      let buffer_size := base64_decoded_size env encoded_size in
      _ <- push_buffer buffer_size;;
      let window := String.substring 4 (Z.to_nat encoded_size) text in
      match base64_decode env window buffer_size with
      | None => throw (runtime_error "Invalid base64 value")
      | Some decoded =>
          _ <- set_last_buffer decoded;;
          if bool_decide (hint = type_String)
          then ret (Some (ConstantStringValue (Some (string_of_list_byte decoded))))
          else if bool_decide (hint = type_Binary)
          then ret (Some (Value_BinaryData (Some decoded)))
          else ret None
      end
  | TIMESTAMP =>
      parsed <-
        lift (if bool_decide (String.get 0 text = Some "T"%char)
              then internal_timestamp env text
              else readable_timestamp env text);;
      let '(seconds, nanoseconds) := parsed in
      t <- lift (get_timestamp_if_valid seconds nanoseconds);;
      ret (Some (Value_Timestamp t))
  | UUID_T =>
      str <- lift (substr text 5 (size_t_sub (size text) 6));;
      ret (Some (Value_UUID (UUID_of_string str)))
  | OID =>
      str <- lift (substr text 4 (size_t_sub (size text) 5));;
      ret (Some (Value_ObjectId (ObjectId_of_string str)))
  | NULL_VAL =>
      if bool_decide (hint = type_String) then ret (Some (ConstantStringValue None))
      else if bool_decide (hint = type_Binary) then ret (Some (Value_BinaryData None))
      else if bool_decide (hint = type_LinkList)
      then throw (runtime_error "Cannot compare linklist with NULL")
      else ret (Some Value_null)
  | TRUE => ret (Some (Value_Bool true))
  | FALSE => ret (Some (Value_Bool false))
  | ARG =>
      rest <- lift (substr text 1 npos);;
      let arg_no := Z.to_nat (to_size_t (strtol env rest 10)) in
      is_null <- lift (is_argument_null (m_args drv) arg_no);;
      if is_null : bool then ret (Some Value_null)
      else
        type <- lift (type_for_argument (m_args drv) arg_no);;
        lift (argument_value (m_args drv) arg_no type)
  end.

(** [ConstantNode::visit]. *)
Definition ConstantNode_visit (env : Env) (drv : ParserDriver)
    (node : ConstantNode) (hint : DataType) : M Subexpr :=
  r <- ConstantNode_switch env drv node hint;;
  match r with
  | Some s => ret s
  | None =>
      throw (runtime_error
               ("Unsupported comparison between property of type '"
                +:+ get_data_type_name env hint +:+ "' and constant value '"
                +:+ text node +:+ "'"))
  end.

(** [values[i]] of the two-element vector the parser builds; reading past
    its end, or through a null node pointer, does not return. *)
Definition deref {A} (o : option A) : M A :=
  match o with
  | Some a => ret a
  | None => throw terminated
  end.

(** [ParserDriver::cmp]. *)
Definition cmp (env : Env) (drv : ParserDriver) (values : list ValueNode)
    : M (Subexpr * Subexpr) :=
  v0 <- deref (values !! 0%nat);;
  v1 <- deref (values !! 1%nat);;
  let left_constant := constant v0 in
  let right_constant := constant v1 in
  let left_prop := prop v0 in
  let right_prop := prop v1 in
  match left_constant, right_constant with
  | Some _, Some _ => throw (runtime_error "Cannot compare two constants")
  | _, _ =>
      operands <-
        match right_constant with
        | Some rc =>
            (* Take left first - it cannot be a constant *)
            lp <- deref left_prop;;
            lhs <- lift (PropertyNode_visit env drv lp);;
            rhs <- ConstantNode_visit env drv rc (get_type lhs);;
            ret (lhs, rhs)
        | None =>
            rp <- deref right_prop;;
            rhs <- lift (PropertyNode_visit env drv rp);;
            match left_constant with
            | Some lc =>
                lhs <- ConstantNode_visit env drv lc (get_type rhs);;
                ret (lhs, rhs)
            | None =>
                lp <- deref left_prop;;
                lhs <- lift (PropertyNode_visit env drv lp);;
                ret (lhs, rhs)
            end
        end;;
      let '(lhs, rhs) := operands in
      if is_ColumnListBase lhs && is_ColumnListBase rhs then
        throw (runtime_error
                 ("Ordered comparison between two primitive lists is not implemented yet ('"
                  +:+ description env lhs +:+ "' and '" +:+ description env rhs
                  +:+ "')"))
      else ret (lhs, rhs)
  end.


(** *** Comparison nodes *)

Definition unsupported_comparison (env : Env) (left_type right_type : DataType) : exn :=
  runtime_error ("Unsupported comparison between type '"
                 +:+ get_data_type_name env left_type +:+ "' and type '"
                 +:+ get_data_type_name env right_type +:+ "'").

(** The condition both comparison nodes test before they specialise:
    [prop && !prop->links_exist() && right->has_constant_evaluation() &&
    left_type == right_type]; it yields the property's column key. *)
Definition specializable (lhs rhs : Subexpr) : option ColKey :=
  match as_ObjPropertyBase lhs with
  | Some prop =>
      if negb (links_exist prop) && has_constant_evaluation rhs
         && bool_decide (get_type lhs = get_type rhs)
      then Some (column_key prop)
      else None
  | None => None
  end.

(** The column-specialised branch of [EqualitylNode::visit]: [None] when
    control leaves the [if] and falls through to the generic path. *)
Definition equality_fast_path (op : CompareOp) (case_sensitive : bool)
    (lhs rhs : Subexpr) : option (outcome exn Query) :=
  match specializable lhs rhs with
  | Some col_key =>
      let val := get_mixed rhs in
      let against_null :=
        if Mixed_is_null val then
          match op with
          | EQUAL => Some (where_equal_null col_key)
          | NOT_EQUAL => Some (where_not_equal_null col_key)
          | _ => None
          end
        else None in
      match against_null with
      | Some q => Some (Returns q)
      | None =>
          match get_type lhs with
          | type_Int =>
              Some (obind (Mixed_get_int val) (fun v =>
                      Returns (simple_query op col_key (Mixed_Int v) None)))
          | type_Bool =>
              Some (obind (Mixed_get_bool val) (fun v =>
                      Returns (simple_query op col_key (Mixed_Bool v) None)))
          | type_String =>
              Some (obind (Mixed_get_string val) (fun v =>
                      Returns (simple_query op col_key (Mixed_of_StringData v)
                                 (Some case_sensitive))))
          | type_Binary =>
              Some (obind (Mixed_get_binary val) (fun v =>
                      Returns (simple_query op col_key (Mixed_of_BinaryData v)
                                 (Some case_sensitive))))
          | type_Timestamp =>
              Some (obind (Mixed_get_timestamp val) (fun v =>
                      Returns (simple_query op col_key (Mixed_Timestamp v) None)))
          | type_Float =>
              Some (obind (Mixed_get_float val) (fun v =>
                      Returns (simple_query op col_key (Mixed_Float v) None)))
          | type_Double =>
              Some (obind (Mixed_get_double val) (fun v =>
                      Returns (simple_query op col_key (Mixed_Double v) None)))
          | type_Decimal =>
              Some (obind (Mixed_get_decimal val) (fun v =>
                      Returns (simple_query op col_key (Mixed_Decimal v) None)))
          | type_ObjectId => None
          | type_UUID =>
              Some (obind (Mixed_get_uuid val) (fun v =>
                      Returns (simple_query op col_key (Mixed_UUID v) None)))
          | _ => None
          end
      end
  | None => None
  end.

(** The generic tail of [EqualitylNode::visit]. *)
Definition equality_generic (op : CompareOp) (case_sensitive : bool)
    (lhs rhs : Subexpr) : Query :=
  if case_sensitive then
    match op with
    | EQUAL => Query_of (Compare Equal rhs lhs)
    | NOT_EQUAL => Query_of (Compare NotEqual rhs lhs)
    | _ => Query_empty
    end
  else
    match op with
    | EQUAL => Query_of (Compare EqualIns rhs lhs)
    | NOT_EQUAL => Query_of (Compare NotEqualIns rhs lhs)
    | _ => Query_empty
    end.

(** [EqualitylNode::visit]. *)
Definition EqualitylNode_visit (env : Env) (drv : ParserDriver)
    (values : list ValueNode) (op : CompareOp) (case_sensitive : bool) : M Query :=
  operands <- cmp env drv values;;
  let '(lhs, rhs) := operands in
  let left_type := get_type lhs in
  let right_type := get_type rhs in
  if nonneg left_type && nonneg right_type
     && negb (data_types_are_comparable env left_type right_type)
  then throw (unsupported_comparison env left_type right_type)
  else
    match equality_fast_path op case_sensitive lhs rhs with
    | Some q => lift q
    | None => ret (equality_generic op case_sensitive lhs rhs)
    end.

(** The column-specialised branch of [RelationalNode::visit]. *)
Definition relational_fast_path (op : CompareOp) (lhs rhs : Subexpr)
    : option (outcome exn Query) :=
  match specializable lhs rhs with
  | Some col_key =>
      let val := get_mixed rhs in
      match get_type lhs with
      | type_Int =>
          Some (obind (Mixed_get_int val) (fun v =>
                  Returns (simple_query op col_key (Mixed_Int v) None)))
      | type_Timestamp =>
          Some (obind (Mixed_get_timestamp val) (fun v =>
                  Returns (simple_query op col_key (Mixed_Timestamp v) None)))
      | type_Float =>
          Some (obind (Mixed_get_float val) (fun v =>
                  Returns (simple_query op col_key (Mixed_Float v) None)))
      | type_Double =>
          Some (obind (Mixed_get_double val) (fun v =>
                  Returns (simple_query op col_key (Mixed_Double v) None)))
      | type_Decimal =>
          Some (obind (Mixed_get_decimal val) (fun v =>
                  Returns (simple_query op col_key (Mixed_Decimal v) None)))
      | _ => None
      end
  | None => None
  end.

(** The generic tail of [RelationalNode::visit]. *)
Definition relational_generic (op : CompareOp) (lhs rhs : Subexpr) : Query :=
  match op with
  | GREATER => Query_of (Compare Less rhs lhs)
  | LESS => Query_of (Compare Greater rhs lhs)
  | GREATER_EQUAL => Query_of (Compare LessEqual rhs lhs)
  | LESS_EQUAL => Query_of (Compare GreaterEqual rhs lhs)
  | _ => Query_empty
  end.

Definition unsupported_operator (op : CompareOp) : exn :=
  logic_error ("Unsupported operator " +:+ opstr op
               +:+ " in query. Only equal (==) and not equal (!=) are supported for this type.").

(** [RelationalNode::visit]. *)
Definition RelationalNode_visit (env : Env) (drv : ParserDriver)
    (values : list ValueNode) (op : CompareOp) : M Query :=
  operands <- cmp env drv values;;
  let '(lhs, rhs) := operands in
  let left_type := get_type lhs in
  let right_type := get_type rhs in
  if bool_decide (left_type = type_UUID) then throw (unsupported_operator op)
  else if negb (nonneg left_type) || negb (nonneg right_type)
          || negb (data_types_are_comparable env left_type right_type)
  then throw (unsupported_comparison env left_type right_type)
  else
    match relational_fast_path op lhs rhs with
    | Some q => lift q
    | None => ret (relational_generic op lhs rhs)
    end.

(** *** What a comparison means *)

(** The operators a [RelationalNode] carries. *)
Definition is_relational (op : CompareOp) : bool :=
  match op with
  | GREATER | LESS | GREATER_EQUAL | LESS_EQUAL => true
  | _ => false
  end.

Definition is_equality (op : CompareOp) : bool :=
  match op with
  | EQUAL | NOT_EQUAL => true
  | _ => false
  end.

(** The source comparison [l op r] on ordered values. *)
Definition CompareOp_holds (op : CompareOp) (l r : Z) : bool :=
  match op with
  | EQUAL => l =? r
  | NOT_EQUAL => negb (l =? r)
  | GREATER => l >? r
  | LESS => l <? r
  | GREATER_EQUAL => l >=? r
  | LESS_EQUAL => l <=? r
  | _ => false
  end.

(** Modelled from the spec: the comparator classes [Equal], [Less], ...
    of the absent [realm/query_conditions.hpp], applied to the values of
    the first and of the second operand of a [Compare], in that order:
    [Less()(v1, v2)] is [v1 < v2], and so on; the case-insensitive variants
    agree with the plain ones on ordered values. *)
Definition Cond_holds (c : Cond) (v1 v2 : Z) : bool :=
  match c with
  | Equal | EqualIns => v1 =? v2
  | NotEqual | NotEqualIns => negb (v1 =? v2)
  | Less => v1 <? v2
  | Greater => v1 >? v2
  | LessEqual => v1 <=? v2
  | GreaterEqual => v1 >=? v2
  end.

(** An expression evaluated where [value_of] gives each operand's value. *)
Definition Expression_holds (value_of : Subexpr -> Z) (e : Expression) : bool :=
  match e with
  | Compare c first second => Cond_holds c (value_of first) (value_of second)
  | TrueExpression => true
  | FalseExpression => false
  end.


(** *** The specification's vocabulary *)

(** The types for which the specification announces a column-specialised
    equality or inequality: integer, bool, string, binary, timestamp,
    float, double, decimal, UUID. *)
Definition fast_path_types : list DataType :=
  [type_Int; type_Bool; type_String; type_Binary; type_Timestamp;
   type_Float; type_Double; type_Decimal; type_UUID].

(** A table name with any leading ["class_"] stripped. *)
Definition strip_class_prefix (name : string) : string :=
  if String.prefix "class_" name
  then String.substring 6 (String.length name - 6) name
  else name.

(** [sub] occurs in [s]. *)
Definition contains (s sub : string) : Prop :=
  exists before after, s = before +:+ sub +:+ after.

End Driver.

(** ** A small schema to run the driver on *)

Module Demo.
Import Driver.

(** Decimal digits of a [strtol] argument, after an optional sign. *)
Fixpoint digits (s : string) (acc : Z) : Z :=
  match s with
  | String c rest =>
      let n := Z.of_nat (nat_of_ascii c) - 48 in
      if (0 <=? n) && (n <=? 9) then digits rest (10 * acc + n) else acc
  | EmptyString => acc
  end.

Definition strtol (s : string) (base : Z) : Z :=
  match s with
  | String "-" rest => - digits rest 0
  | _ => digits s 0
  end.

Definition type_name (t : DataType) : string :=
  match t with
  | type_Int => "int" | type_Bool => "bool" | type_String => "string"
  | type_Binary => "binary" | type_Mixed => "mixed"
  | type_Timestamp => "timestamp" | type_Float => "float"
  | type_Double => "double" | type_Decimal => "decimal" | type_Link => "link"
  | type_LinkList => "linklist" | type_ObjectId => "objectId"
  | type_TypedLink => "typedLink" | type_UUID => "uuid"
  | DataType_raw _ => "unknown"
  end.

Definition is_numeric (t : DataType) : bool :=
  match t with
  | type_Int | type_Float | type_Double | type_Decimal => true
  | _ => false
  end.

Definition aggregate_type (op : AggrType) (t : DataType) : DataType :=
  match op with
  | MAX | MIN => t
  | SUM => match t with type_Float => type_Double | _ => t end
  | AVG => match t with type_Decimal => type_Decimal | _ => type_Double end
  end.

Definition comparable (l r : DataType) : bool :=
  bool_decide (l = r) || (is_numeric l && is_numeric r)
  || bool_decide (l = type_Mixed) || bool_decide (r = type_Mixed).

(** The tables: [class_Person] and [class_Account], whose [owner] links
    to a person. *)
Definition Person : Table :=
  {| get_name := "class_Person";
     columns := list_to_map
       [("age", ColKey_make 0 col_type_Int false);
        ("name", ColKey_make 1 col_type_String false);
        ("id", ColKey_make 2 col_type_ObjectId false);
        ("uid", ColKey_make 3 col_type_UUID false);
        ("born", ColKey_make 4 col_type_Timestamp false);
        ("scores", ColKey_make 5 col_type_Int true);
        ("uids", ColKey_make 6 col_type_UUID true);
        ("photo", ColKey_make 7 col_type_Binary false);
        ("friends", ColKey_make 8 col_type_LinkList true)] |}.

Definition Account : Table :=
  {| get_name := "class_Account";
     columns := list_to_map
       [("balance", ColKey_make 0 col_type_Int false);
        ("owner", ColKey_make 1 col_type_Link false)] |}.

Definition group : Group :=
  list_to_map [("class_Person", Person); ("class_Account", Account)].

(** Every link of the schema leads to a person. *)
Definition add (g : Group) (lc : LinkChain) (ck : ColKey) : outcome exn LinkChain :=
  match ColKey_get_type ck with
  | col_type_Link | col_type_LinkList | col_type_BackLink =>
      Returns {| m_link_cols := m_link_cols lc ++ [ck];
                 m_current_table := Person;
                 m_base_table := m_base_table lc;
                 m_comparison_type := m_comparison_type lc |}
  | _ => Throws (runtime_error "Property not a link")
  end.

Definition link (g : Group) (lc : LinkChain) (col_name : string) : outcome exn LinkChain :=
  let ck := get_column_key (m_current_table lc) col_name in
  if ColKey_not ck then Throws (runtime_error "no such property") else add g lc ck.

Definition backlink_to (g : Group) (lc : LinkChain) (origin : Table) (ck : ColKey)
    : outcome exn LinkChain :=
  Returns {| m_link_cols := m_link_cols lc ++ [ColKey_make 100 col_type_BackLink true];
             m_current_table := origin;
             m_base_table := m_base_table lc;
             m_comparison_type := m_comparison_type lc |}.

(** The last second of 1969, five nanoseconds in, is all the calendar this
    environment knows. *)
Definition sscanf (s fmt : string) : list Z :=
  if bool_decide (s = "1969-12-31@23:59:59:5") then [1969; 12; 31; 23; 59; 59; 5]
  else [].

Definition timegm (t : tm) : Z :=
  if bool_decide (tm_year t = 69) then -1 else 0.

Definition env : Env :=
  {| Driver.strtol := strtol;
     strtof := fun _ => float_of_bits 0;
     strtod := fun _ => double_of_bits 0;
     base64_decoded_size := fun n => (n * 3 + 3) / 4;
     base64_decode := fun _ _ => None;
     Driver.sscanf := sscanf;
     platform_timegm := timegm;
     data_types_are_comparable := comparable;
     get_data_type_name := type_name;
     aggregate_result_type := aggregate_type;
     description := fun _ => "";
     LinkChain_link := link;
     LinkChain_add := add;
     LinkChain_backlink_to := backlink_to |}.

Definition drv : ParserDriver :=
  {| drv_base_table := Person;
     get_parent_group := group;
     m_args := MixedArguments [Mixed_null; Mixed_Timestamp (Timestamp_make 100 0)] |}.

Definition property (name : string) : ValueNode :=
  ValueNode_of_prop (PropNode [] name None Any).

Definition literal (type : ConstantType) (text : string) : ValueNode :=
  ValueNode_of_constant {| ConstantNode_type := type; text := text |}.

End Demo.

(** ** Utilities ([src/tightdb/utilities.cpp]) *)

Module Utilities.
Import Bytes.

(** Arithmetic on [size_t] and [unsigned long long] wraps at 64 bits. *)
Definition uint64 (z : Z) : Z := z mod 2 ^ 64.

(** [size_t to_ref(int64_t v)] and [size_t to_size_t(int64_t v)]: the cast
    [size_t(v)].  The debug assertion compares [uint64_t(v)] with
    [size_t(-1)]. *)
Definition to_ref_assertion (v : Z) : bool := uint64 v <=? uint64 (-1).
Definition to_ref (v : Z) : Z := uint64 v.
Definition to_size_t (v : Z) : Z := uint64 v.

(** The cast back, [int64_t(r)]. *)
Definition to_int64 (z : Z) : Z := (z + 2 ^ 63) mod 2 ^ 64 - 2 ^ 63.

(** [size_t round_up(size_t p, size_t align)]; the remainder by a zero
    [align] does not return. *)
Definition round_up (p align : Z) : option Z :=
  if align =? 0 then None
  else
    let r := if p mod align =? 0 then 0 else uint64 (align - p mod align) in
    Some (uint64 (p + r)).

(** [size_t round_down(size_t p, size_t align)]. *)
Definition round_down (p align : Z) : Z :=
  let r := p in
  Z.land r (uint64 (Z.lnot (uint64 (align - 1)))).

(** [struct checksum_t]. *)
Record checksum_t : Set := {
  remainder : Z;
  remainder_len : Z;
  b_val : Z;
  a_val : Z;
  result : Z
}.

Definition checksum_init : checksum_t :=
  {| remainder := 0;
     remainder_len := 0;
     b_val := 0x794e80091e8f2bc7;
     a_val := 0xc20f9a8b761b7e4c;
     result := 0 |}.

(** [x = x >> 8; x = x | (unsigned long long)*data << (7*8)]. *)
Definition shift_in (x : Z) (b : byte) : Z :=
  Z.lor (Z.shiftr x 8) (uint64 (Z.shiftl (byte_to_Z b) (7 * 8))).

(** One turn of the byte loops: the byte enters the remainder. *)
Definition push (t : checksum_t) (b : byte) : checksum_t :=
  {| remainder := shift_in (remainder t) b;
     remainder_len := remainder_len t + 1;
     b_val := b_val t;
     a_val := a_val t;
     result := result t |}.

(** [while (t->remainder_len < 8 && len > 0)]: what is left of the data,
    and the state. *)
Fixpoint fill_remainder (data : list byte) (t : checksum_t) : list byte * checksum_t :=
  match data with
  | b :: rest =>
      if remainder_len t <? 8 then fill_remainder rest (push t b) else (data, t)
  | [] => (data, t)
  end.

(** [t->a_val += word * t->b_val; t->b_val++]. *)
Definition accumulate (t : checksum_t) (word : Z) : checksum_t :=
  {| remainder := remainder t;
     remainder_len := remainder_len t;
     b_val := uint64 (b_val t + 1);
     a_val := uint64 (a_val t + uint64 (word * b_val t));
     result := result t |}.

(** The remainder is full: it is accumulated and cleared. *)
Definition flush (t : checksum_t) : checksum_t :=
  let t' := accumulate t (remainder t) in
  {| remainder := 0;
     remainder_len := 0;
     b_val := b_val t';
     a_val := a_val t';
     result := result t' |}.

(** The portable word read: [l = 0; for (i < 8) { l = l >> 8;
    l = l | (unsigned long long)*(data + i) << (7*8); }]. *)
Definition read_word (bytes : list byte) : Z := foldl shift_in 0 bytes.

(** The word read under [TIGHTDB_X86_OR_X64]: one 64-bit load from [data]. *)
Definition read_word_x86 (bytes : list byte) : Z := le_decode bytes.

(** [while (len >= 8)]: whole words straight from the data. *)
Fixpoint sum_words (data : list byte) (t : checksum_t) : list byte * checksum_t :=
  match data with
  | b0 :: b1 :: b2 :: b3 :: b4 :: b5 :: b6 :: b7 :: rest =>
      sum_words rest (accumulate t (read_word [b0; b1; b2; b3; b4; b5; b6; b7]))
  | _ => (data, t)
  end.

(** The last [while (len > 0)]: the bytes left over enter the remainder. *)
Definition push_tail (data : list byte) (t : checksum_t) : checksum_t :=
  foldl push t data.

(** [t->result = t->a_val + t->b_val]. *)
Definition set_result (t : checksum_t) : checksum_t :=
  {| remainder := remainder t;
     remainder_len := remainder_len t;
     b_val := b_val t;
     a_val := a_val t;
     result := uint64 (a_val t + b_val t) |}.

(** [void checksum_rolling(unsigned char* data, size_t len, checksum_t* t)]. *)
Definition checksum_rolling (data : list byte) (t : checksum_t) : checksum_t :=
  let '(data, t) := fill_remainder data t in
  if remainder_len t <? 8 then set_result t
  else
    let t := flush t in
    let '(data, t) := sum_words data t in
    let t := push_tail data t in
    set_result t.

(** [unsigned long long checksum(unsigned char* data, size_t len)]. *)
Definition checksum (data : list byte) : Z :=
  result (checksum_rolling data checksum_init).

(** The checksum read as a machine that takes one byte at a time: the
    byte enters the remainder, and a full remainder is accumulated at
    once.  [checksum_rolling] is compared with it below. *)
Definition step (t : checksum_t) (b : byte) : checksum_t :=
  let t' := push t b in
  if remainder_len t' =? 8 then flush t' else t'.

Definition run (t : checksum_t) (data : list byte) : checksum_t :=
  foldl step t data.

(** The data cut into 8-byte little-endian words; the bytes left over,
    fewer than 8, are dropped. *)
Fixpoint words (data : list byte) : list Z :=
  match data with
  | b0 :: b1 :: b2 :: b3 :: b4 :: b5 :: b6 :: b7 :: rest =>
      le_decode [b0; b1; b2; b3; b4; b5; b6; b7] :: words rest
  | _ => []
  end.

(** The sum of the words, the i-th one weighted by [b + i]. *)
Fixpoint weighted_sum (ws : list Z) (b : Z) : Z :=
  match ws with
  | [] => 0
  | w :: rest => w * b + weighted_sum rest (b + 1)
  end.

(** The values of an [unsigned long long] and of the remainder counter
    between two calls. *)
Definition well_formed (t : checksum_t) : Prop :=
  0 <= remainder t < 2 ^ 64 /\ 0 <= remainder_len t < 8
  /\ 0 <= a_val t < 2 ^ 64 /\ 0 <= b_val t < 2 ^ 64.

End Utilities.

(** ** The thread-test shim ([test/pthread_test.hpp]) *)

Module PthreadTest.

Definition uint32 (z : Z) : Z := z mod 2 ^ 32.

(** The two [static unsigned int] of [ptf_fastrand]. *)
Record fastrand_state : Set := { u : Z; v : Z }.

Definition fastrand_init : fastrand_state := {| u := 1; v := 1 |}.

(** [ptf_fastrand]: the value returned and the statics it leaves. *)
Definition ptf_fastrand (s : fastrand_state) : Z * fastrand_state :=
  let v' := uint32 (uint32 (36969 * Z.land (v s) 65535) + Z.shiftr (v s) 16) in
  let u' := uint32 (uint32 (18000 * Z.land (u s) 65535) + Z.shiftr (u s) 16) in
  (uint32 (uint32 (Z.shiftl v' 16) + u'), {| u := u'; v := v' |}).

(** The statics after [n] calls. *)
Fixpoint fastrand_after (n : nat) (s : fastrand_state) : fastrand_state :=
  match n with
  | O => s
  | S n' => fastrand_after n' (snd (ptf_fastrand s))
  end.

End PthreadTest.

(** ** String operators ([StringOpsNode::visit] of [driver.cpp]) *)

Module StringOps.
Import Driver.

(** The comparator classes a string [Compare<Cond>] is instantiated with. *)
Inductive StringCond : Set :=
| BeginsWith | EndsWith | Contains | Like
| BeginsWithIns | EndsWithIns | ContainsIns | LikeIns.

(** The value handed to [where().begins_with] and its siblings, which are
    overloaded on [StringData] and [BinaryData]. *)
Inductive pattern : Set :=
| pattern_string (val : StringData)
| pattern_binary (val : BinaryData).

Definition pattern_mixed (p : pattern) : Mixed :=
  match p with
  | pattern_string val => Mixed_of_StringData val
  | pattern_binary val => Mixed_of_BinaryData val
  end.

(** The queries [StringOpsNode::visit] returns: the empty [Query{}], the
    column-specialised predicates of [drv->m_base_table->where()], or a
    generic [Compare<Cond>] over its two operands in constructor order. *)
Inductive StringQuery : Type :=
| StringQuery_empty
| where_begins_with (col_key : ColKey) (val : pattern) (case_sensitive : bool)
| where_ends_with (col_key : ColKey) (val : pattern) (case_sensitive : bool)
| where_contains (col_key : ColKey) (val : pattern) (case_sensitive : bool)
| where_like (col_key : ColKey) (val : pattern) (case_sensitive : bool)
| StringQuery_of (cond : StringCond) (first second : Subexpr).

(** The [switch (op)] of the specialised branch: [None] when no case
    matches and control leaves the [if]. *)
Definition where_op (op : CompareOp) (col_key : ColKey) (val : pattern)
    (case_sensitive : bool) : option StringQuery :=
  match op with
  | BEGINSWITH => Some (where_begins_with col_key val case_sensitive)
  | ENDSWITH => Some (where_ends_with col_key val case_sensitive)
  | CONTAINS => Some (where_contains col_key val case_sensitive)
  | LIKE => Some (where_like col_key val case_sensitive)
  | _ => None
  end.

(** The column-specialised branch: the getter is applied before the
    operator is looked at. *)
Definition string_fast_path (op : CompareOp) (case_sensitive : bool)
    (lhs rhs : Subexpr) : outcome exn (option StringQuery) :=
  match specializable lhs rhs with
  | Some col_key =>
      let right_type := get_type rhs in
      if bool_decide (right_type = type_String) then
        obind (Mixed_get_string (get_mixed rhs)) (fun val =>
          Returns (where_op op col_key (pattern_string val) case_sensitive))
      else if bool_decide (right_type = type_Binary) then
        obind (Mixed_get_binary (get_mixed rhs)) (fun val =>
          Returns (where_op op col_key (pattern_binary val) case_sensitive))
      else Returns None
  | None => Returns None
  end.

(** The generic tail. *)
Definition string_generic (op : CompareOp) (case_sensitive : bool)
    (lhs rhs : Subexpr) : StringQuery :=
  if case_sensitive then
    match op with
    | BEGINSWITH => StringQuery_of BeginsWith rhs lhs
    | ENDSWITH => StringQuery_of EndsWith rhs lhs
    | CONTAINS => StringQuery_of Contains rhs lhs
    | LIKE => StringQuery_of Like rhs lhs
    | _ => StringQuery_empty
    end
  else
    match op with
    | BEGINSWITH => StringQuery_of BeginsWithIns rhs lhs
    | ENDSWITH => StringQuery_of EndsWithIns rhs lhs
    | CONTAINS => StringQuery_of ContainsIns rhs lhs
    | LIKE => StringQuery_of LikeIns rhs lhs
    | _ => StringQuery_empty
    end.

Definition unsupported_string_operator (env : Env) (op : CompareOp)
    (right_type : DataType) : exn :=
  runtime_error ("Unsupported comparison operator '" +:+ opstr op
                 +:+ "' against type '" +:+ get_data_type_name env right_type
                 +:+ "', right side must be a string or binary type").

(** [StringOpsNode::visit]. *)
Definition StringOpsNode_visit (env : Env) (drv : ParserDriver)
    (values : list ValueNode) (op : CompareOp) (case_sensitive : bool)
    : M StringQuery :=
  operands <- cmp env drv values;;
  let '(lhs, rhs) := operands in
  let right_type := get_type rhs in
  if negb (bool_decide (right_type = type_String))
     && negb (bool_decide (right_type = type_Binary))
  then throw (unsupported_string_operator env op right_type)
  else
    specialised <- lift (string_fast_path op case_sensitive lhs rhs);;
    match specialised with
    | Some q => ret q
    | None => ret (string_generic op case_sensitive lhs rhs)
    end.

End StringOps.

(** ** Sort, distinct and limit ([DescriptorOrderingNode::visit] of [driver.cpp]) *)

Module Ordering.
Import Driver.

Inductive DescriptorType : Set := SORT | DISTINCT | LIMIT.

#[global] Instance DescriptorType_eq_dec : EqDecision DescriptorType.
Proof. solve_decision. Defined.

(** [class DescriptorNode]: what [DescriptorOrderingNode::visit] reads of
    it. *)
Record DescriptorNode : Set := {
  DescriptorNode_get_type : DescriptorType;
  DescriptorNode_columns : list (list string);
  ascending : list bool;
  limit : Z
}.

(** The descriptors appended to the ordering: [LimitDescriptor(limit)],
    [DistinctDescriptor(property_columns)] and
    [SortDescriptor(property_columns, ascending)], the last always with
    [SortDescriptor::MergeMode::prepend]. *)
Inductive Descriptor : Set :=
| LimitDescriptor (limit : Z)
| DistinctDescriptor (property_columns : list (list ColKey))
| SortDescriptor (property_columns : list (list ColKey)) (ascending : list bool).

(** A [DescriptorOrdering], as the sequence of [append_limit],
    [append_distinct] and [append_sort] calls made on it. *)
Definition DescriptorOrdering : Set := list Descriptor.

Section WithLinkTarget.

(** [Table::get_link_target(col_key)], which [driver.cpp] calls and does
    not define. *)
Variable get_link_target : Table -> ColKey -> outcome exn Table.

(** The loop over [ndx_in_path]: the keys of one dotted path, each name
    looked up on the table the previous link leads to. *)
Fixpoint resolve_path (is_distinct : bool) (cur_table : Table)
    (col_names : list string) : outcome exn (list ColKey) :=
  match col_names with
  | [] => Returns []
  | name :: rest =>
      let col_key := get_column_key cur_table name in
      if ColKey_not col_key then
        Throws (runtime_error
                  ("No property '" +:+ name +:+ "' found on object type '"
                   +:+ get_name cur_table +:+ "' specified in '"
                   +:+ (if is_distinct then "distinct" else "sort") +:+ "' clause"))
      else
        obind (match rest with
               | [] => Returns cur_table
               | _ :: _ => get_link_target cur_table col_key
               end) (fun cur_table =>
        obind (resolve_path is_distinct cur_table rest) (fun columns =>
          Returns (col_key :: columns)))
  end.

(** The loop over [cur_ordering->columns]: every path starts again at the
    base table. *)
Fixpoint resolve_columns (is_distinct : bool) (target : Table)
    (columns : list (list string)) : outcome exn (list (list ColKey)) :=
  match columns with
  | [] => Returns []
  | col_names :: rest =>
      obind (resolve_path is_distinct target col_names) (fun columns =>
      obind (resolve_columns is_distinct target rest) (fun property_columns =>
        Returns (columns :: property_columns)))
  end.

(** The body of the loop over [orderings]. *)
Definition append_ordering (drv : ParserDriver) (ordering : DescriptorOrdering)
    (cur_ordering : DescriptorNode) : outcome exn DescriptorOrdering :=
  match DescriptorNode_get_type cur_ordering with
  | LIMIT => Returns (ordering ++ [LimitDescriptor (limit cur_ordering)])
  | type =>
      let is_distinct := bool_decide (type = DISTINCT) in
      obind (resolve_columns is_distinct (drv_base_table drv)
               (DescriptorNode_columns cur_ordering)) (fun property_columns =>
        Returns (ordering ++
                 [if is_distinct then DistinctDescriptor property_columns
                  else SortDescriptor property_columns (ascending cur_ordering)]))
  end.

(** [DescriptorOrderingNode::visit]: [None] is the null pointer returned
    when there is no descriptor at all. *)
Definition DescriptorOrderingNode_visit (drv : ParserDriver)
    (orderings : list DescriptorNode) : outcome exn (option DescriptorOrdering) :=
  foldl (fun acc cur_ordering =>
           obind acc (fun ordering =>
           obind (append_ordering drv (default [] ordering) cur_ordering)
             (fun ordering => Returns (Some ordering))))
        (Returns None) orderings.

End WithLinkTarget.

(** A descriptor answers a node: same kind, same limit or directions, and
    one non-null key for every name of every path. *)
Definition keys_answer (col_names : list string) (columns : list ColKey) : Prop :=
  length columns = length col_names
  /\ Forall (fun col_key => ColKey_not col_key = false) columns.

Definition answers (node : DescriptorNode) (d : Descriptor) : Prop :=
  match DescriptorNode_get_type node, d with
  | LIMIT, LimitDescriptor l => l = limit node
  | DISTINCT, DistinctDescriptor property_columns =>
      Forall2 keys_answer (DescriptorNode_columns node) property_columns
  | SORT, SortDescriptor property_columns asc =>
      asc = ascending node
      /\ Forall2 keys_answer (DescriptorNode_columns node) property_columns
  | _, _ => False
  end.

(** The schema of [Demo] has links to persons only. *)
Definition person_link_target (t : Table) (col_key : ColKey) : outcome exn Table :=
  match ColKey_get_type col_key with
  | col_type_Link | col_type_LinkList => Returns Demo.Person
  | _ => Throws (logic_error "not a link column")
  end.

End Ordering.


(* ================================================================= *)
(** * Properties *)

Module BytesFacts.
Import Bytes.

Lemma byte_to_Z_range b : 0 <= byte_to_Z b < 256.
Proof.
  unfold byte_to_Z. pose proof (Byte.to_N_bounded b). lia.
Qed.

Lemma byte_to_of_Z z : byte_to_Z (byte_of_Z z) = z mod 256.
Proof.
  unfold byte_to_Z, byte_of_Z.
  pose proof (Z.mod_pos_bound z 256 ltac:(lia)) as Hr.
  destruct (Byte.of_N (Z.to_N (z mod 256))) as [b|] eqn:E.
  - apply Byte.to_of_N in E. rewrite E. lia.
  - apply Byte.of_N_None_iff in E. lia.
Qed.

Lemma le_decode_range bs : 0 <= le_decode bs < 256 ^ Z.of_nat (length bs).
Proof.
  induction bs as [|b bs IH].
  - simpl. lia.
  - cbn [le_decode length]. pose proof (byte_to_Z_range b).
    rewrite Nat2Z.inj_succ, Z.pow_succ_r by lia. lia.
Qed.

Lemma le_encode_length n z : length (le_encode n z) = n.
Proof. revert z. induction n; intros; simpl; auto. Qed.

Lemma le_decode_encode n z :
  0 <= z < 256 ^ Z.of_nat n -> le_decode (le_encode n z) = z.
Proof.
  revert z. induction n as [|n IH]; intros z Hz.
  - simpl in *. lia.
  - cbn [le_encode le_decode]. rewrite byte_to_of_Z.
    rewrite Nat2Z.inj_succ, Z.pow_succ_r in Hz by lia.
    rewrite IH.
    + pose proof (Z.div_mod z 256 ltac:(lia)). lia.
    + split.
      * apply Z.div_pos; lia.
      * apply Z.div_lt_upper_bound; lia.
Qed.

Lemma read_u64_range off data : 0 <= read_u64 off data < 2 ^ 64.
Proof.
  unfold read_u64.
  pose proof (le_decode_range (take 8 (drop off data))) as H.
  assert (Hlen : (length (take 8 (drop off data)) <= 8)%nat)
    by (rewrite length_take; lia).
  assert (256 ^ Z.of_nat (length (take 8 (drop off data))) <= 256 ^ 8)
    by (apply Z.pow_le_mono_r; lia).
  change (2 ^ 64) with (256 ^ 8). lia.
Qed.

Lemma read_write_u64 off v data :
  (off + 8 <= length data)%nat -> 0 <= v < 2 ^ 64 ->
  read_u64 off (write_u64 off v data) = v.
Proof.
  intros Hlen Hv. unfold read_u64, write_u64.
  rewrite drop_app_length' by (rewrite length_take; lia).
  rewrite take_app_length' by (symmetry; apply le_encode_length).
  apply le_decode_encode. exact Hv.
Qed.

Lemma write_u64_length off v data :
  (off + 8 <= length data)%nat -> length (write_u64 off v data) = length data.
Proof.
  intros H. unfold write_u64.
  rewrite !length_app, length_take, le_encode_length, length_drop. lia.
Qed.

Lemma zero_fill_length off n data :
  (off + n <= length data)%nat -> length (zero_fill off n data) = length data.
Proof.
  intros H. unfold zero_fill.
  rewrite !length_app, length_take, length_replicate, length_drop. lia.
Qed.

(** Zeroing a region leaves every word that ends before it untouched. *)
Lemma read_u64_zero_fill_before off n o data :
  (o + 8 <= off)%nat -> (off <= length data)%nat ->
  read_u64 o (zero_fill off n data) = read_u64 o data.
Proof.
  intros Ho Hoff. unfold read_u64, zero_fill. f_equal.
  rewrite drop_app_le by (rewrite length_take; lia).
  rewrite take_app_le by (rewrite length_drop, length_take; lia).
  rewrite take_drop_commute, take_take.
  replace ((o + 8) `min` off)%nat with (o + 8)%nat by lia.
  rewrite <- take_drop_commute. reflexivity.
Qed.

(** The zeroed region reads back as zero bytes. *)
Lemma zero_fill_region off n data :
  (off <= length data)%nat ->
  take n (drop off (zero_fill off n data)) = replicate n x00.
Proof.
  intros Hoff. unfold zero_fill.
  rewrite drop_app_length' by (rewrite length_take; lia).
  rewrite take_app_length' by (symmetry; apply length_replicate).
  reflexivity.
Qed.


End BytesFacts.

(** ** Header validation and streaming-form promotion *)

Module SlabAllocFacts.
Import Bytes BytesFacts SlabAlloc.

Lemma footer_cookie_offset data :
  (sizeof_Header + sizeof_StreamingFooter <= length data)%nat ->
  m_magic_cookie (read_StreamingFooter data) = read_u64 (length data - 8) data.
Proof.
  intros H. unfold read_StreamingFooter, sizeof_Header, sizeof_StreamingFooter in *.
  cbn [m_magic_cookie]. f_equal. lia.
Qed.

(** A header whose selected top-ref is not 0 is taken as it is: the file
    is not on streaming form and no footer is looked at. *)
Lemma validate_buffer_in_place nulls sync data h :
  check_header nulls sync data = Returns h ->
  selected_top_ref h <> 0 ->
  validate_buffer nulls sync data = Returns (selected_top_ref h, false).
Proof.
  intros Hh Hsel. unfold validate_buffer. rewrite Hh. cbn [obind].
  destruct (selected_top_ref h =? 0) eqn:E; [apply Z.eqb_eq in E; lia | reflexivity].
Qed.

(** C4: when the header passes validation and flags bit 0 selects a top-ref
    of 0, the buffer is treated as streaming form: a buffer shorter than
    24+16 bytes, or whose last 8 bytes are not the magic cookie
    0x3034125237E526C8, is rejected with InvalidDatabase, by validation and
    so by attachment; otherwise validation succeeds, attachment succeeds
    with the file flagged as streaming form, and the top-ref returned is
    the 64-bit value in the first 8 bytes of the 16-byte footer. *)
Theorem validate_buffer_streaming_form nulls sync data h :
  check_header nulls sync data = Returns h ->
  selected_top_ref h = 0 ->
  ((length data < 24 + 16)%nat
   \/ read_u64 (length data - 8) data <> 0x3034125237E526C8 ->
   validate_buffer nulls sync data = Throws InvalidDatabase
   /\ attach_buffer nulls sync data = Throws InvalidDatabase)
  /\ ((24 + 16 <= length data)%nat ->
      read_u64 (length data - 8) data = 0x3034125237E526C8 ->
      validate_buffer nulls sync data
      = Returns (read_u64 (length data - 16) data, true)
      /\ exists a,
           attach_buffer nulls sync data
           = Returns (read_u64 (length data - 16) data, a)
           /\ m_file_on_streaming_form a = true
           /\ m_baseline a = length data).
Proof.
  intros Hh Hsel. unfold attach_buffer, validate_buffer. rewrite Hh. cbn [obind].
  rewrite Hsel. cbn [Z.eqb].
  change (sizeof_Header + sizeof_StreamingFooter)%nat with (24 + 16)%nat.
  destruct (length data <? 24 + 16)%nat eqn:Elen.
  - apply Nat.ltb_lt in Elen. split; [split; reflexivity | lia].
  - apply Nat.ltb_ge in Elen.
    rewrite footer_cookie_offset by exact Elen.
    change footer_magic_cookie with 0x3034125237E526C8.
    split.
    + intros [Hshort | Hcookie]; [lia |].
      apply Z.eqb_neq in Hcookie. rewrite Hcookie. split; reflexivity.
    + intros _ Hcookie. rewrite Hcookie, Z.eqb_refl. cbn [negb obind].
      split; [reflexivity |]. eexists. split; [reflexivity |]. split; reflexivity.
Qed.

Lemma validate_buffer_streaming_form_witness :
  attach_buffer true false streaming_header_bytes = Throws InvalidDatabase
  /\ validate_buffer true false streaming_file = Returns (1024, true).
Proof.
  split.
  - refine (proj2 (proj1 (validate_buffer_streaming_form
                            true false streaming_header_bytes
                            (read_Header streaming_header_bytes) _ _) _)).
    + vm_compute. reflexivity.
    + vm_compute. reflexivity.
    + left. vm_compute. lia.
  - refine (proj1 (proj2 (validate_buffer_streaming_form
                            true false streaming_file
                            (read_Header streaming_file) _ _) _ _)).
    + vm_compute. reflexivity.
    + vm_compute. reflexivity.
    + vm_compute. lia.
    + vm_compute. reflexivity.
Defined.

(** What one promotion does to a streaming-form file of at least 24+16
    bytes: the header's first top-ref slot receives the footer's top-ref,
    the footer region reads as zero, the flag is cleared. *)
Lemma do_prepare_for_update_effect a d :
  (sizeof_Header + sizeof_StreamingFooter <= m_baseline a <= length d)%nat ->
  let '(a1, d1) := do_prepare_for_update a d in
  fst (m_top_ref (read_Header d1)) = read_u64 (m_baseline a - 16) d
  /\ take 16 (drop (m_baseline a - 16) d1) = replicate 16 x00
  /\ length d1 = length d
  /\ m_file_on_streaming_form a1 = false.
Proof.
  unfold sizeof_Header, sizeof_StreamingFooter. intros Hb.
  unfold do_prepare_for_update, sizeof_StreamingFooter.
  cbn [read_Header m_top_ref fst m_file_on_streaming_form].
  set (v := read_u64 (m_baseline a - 16) d).
  assert (Hv : 0 <= v < 2 ^ 64) by apply read_u64_range.
  assert (Hlen : length (write_u64 0 v d) = length d)
    by (apply write_u64_length; lia).
  repeat split.
  - rewrite read_u64_zero_fill_before by lia.
    apply read_write_u64; [lia | exact Hv].
  - apply zero_fill_region. lia.
  - rewrite zero_fill_length by lia. exact Hlen.
Qed.

(** C9: [prepare_for_update] is idempotent.  On an allocator attached to a
    file the call returns; if the file is not on streaming form it changes
    nothing; and a second call leaves the allocator and the mapped bytes
    exactly as the first call left them.  On a streaming-form file of at
    least 24+16 bytes the first call moves the footer's top-ref into the
    header's first slot, zeroes the footer region and clears the flag. *)
Theorem prepare_for_update_idempotent a d :
  attached_to_file a = true ->
  (m_file_on_streaming_form a = false -> prepare_for_update a d = Returns (a, d))
  /\ exists a1 d1,
       prepare_for_update a d = Returns (a1, d1)
       /\ prepare_for_update a1 d1 = Returns (a1, d1)
       /\ (m_file_on_streaming_form a = true ->
           (24 + 16 <= m_baseline a <= length d)%nat ->
           fst (m_top_ref (read_Header d1)) = read_u64 (m_baseline a - 16) d
           /\ take 16 (drop (m_baseline a - 16) d1) = replicate 16 x00
           /\ m_file_on_streaming_form a1 = false).
Proof.
  intros Hfile. split.
  - intros Hs. unfold prepare_for_update. rewrite Hfile, Hs. reflexivity.
  - unfold prepare_for_update at 1. rewrite Hfile. cbn [negb].
    destruct (m_file_on_streaming_form a) eqn:Hs; cbn [negb].
    + pose proof (do_prepare_for_update_effect a d) as Heff.
      destruct (do_prepare_for_update a d) as [a1 d1] eqn:Hdo.
      exists a1, d1. split; [reflexivity |]. split.
      * unfold do_prepare_for_update in Hdo. inversion Hdo; subst a1.
        unfold prepare_for_update, attached_to_file in *. cbn in *.
        rewrite Hfile. reflexivity.
      * intros _ Hb. destruct (Heff Hb) as (H1 & H2 & _ & H4). auto.
    + exists a, d. split; [reflexivity |]. split.
      * unfold prepare_for_update. rewrite Hfile, Hs. reflexivity.
      * intros Hcontra. discriminate.
Qed.

Lemma prepare_for_update_idempotent_witness :
  attached_to_file streaming_alloc = true
  /\ exists a1 d1,
       prepare_for_update streaming_alloc streaming_file = Returns (a1, d1)
       /\ prepare_for_update a1 d1 = Returns (a1, d1)
       /\ fst (m_top_ref (read_Header d1)) = 1024
       /\ m_file_on_streaming_form a1 = false.
Proof.
  split; [reflexivity |].
  destruct (prepare_for_update_idempotent streaming_alloc streaming_file eq_refl)
    as [_ (a1 & d1 & H1 & H2 & H3)].
  exists a1, d1.
  destruct (H3 eq_refl ltac:(vm_compute; lia)) as (Htop & _ & Hflag).
  repeat split; [exact H1 | exact H2 | | exact Hflag].
  rewrite Htop. vm_compute. reflexivity.
Defined.

End SlabAllocFacts.

(** ** The query-language driver *)

Module DriverFacts.
Import Driver.

(** *** The monad of the driver *)

Lemma bind_returns {A B} (m : M A) (k : A -> M B) st a st' :
  m st = (Returns a, st') -> bind m k st = k a st'.
Proof. intros H. unfold bind. rewrite H. reflexivity. Qed.

Lemma bind_throws {A B} (m : M A) (k : A -> M B) st e st' :
  m st = (Throws e, st') -> bind m k st = (Throws e, st').
Proof. intros H. unfold bind. rewrite H. reflexivity. Qed.

Lemma bind_inv {A B} (m : M A) (k : A -> M B) st b st2 :
  bind m k st = (Returns b, st2) ->
  exists a st1, m st = (Returns a, st1) /\ k a st1 = (Returns b, st2).
Proof.
  unfold bind. destruct (m st) as [[a|e] st1]; intros H.
  - exists a, st1. auto.
  - discriminate.
Qed.

(** *** Post-operators *)

(** The kinds of column a post-operator accepts. *)
Lemma PostOpNode_visit_link env type s :
  is_Columns_Link s = true ->
  PostOpNode_visit env type (Some s) = Returns (LinkCount s).
Proof. intros H. unfold PostOpNode_visit. rewrite H. reflexivity. Qed.

Lemma PostOpNode_visit_sized env type s :
  is_Columns_Link s = false ->
  is_ColumnListBase s || is_Columns_of col_type_String s
  || is_Columns_of col_type_Binary s = true ->
  PostOpNode_visit env type (Some s) = Returns (SizeOperator s).
Proof.
  intros Hl H. unfold PostOpNode_visit. rewrite Hl.
  destruct (is_ColumnListBase s); [reflexivity |].
  destruct (is_Columns_of col_type_String s); [reflexivity |].
  destruct (is_Columns_of col_type_Binary s); [reflexivity | discriminate].
Qed.

Lemma PostOpNode_visit_other env type s :
  is_Columns_Link s = false ->
  is_ColumnListBase s || is_Columns_of col_type_String s
  || is_Columns_of col_type_Binary s = false ->
  PostOpNode_visit env type (Some s)
  = Throws (runtime_error
              ("Operation '" +:+ post_op_type_to_str type
               +:+ "' is not supported on property of type '"
               +:+ get_data_type_name env (get_type s) +:+ "'")).
Proof.
  intros Hl H. unfold PostOpNode_visit. rewrite Hl.
  destruct (is_ColumnListBase s); [discriminate |].
  destruct (is_Columns_of col_type_String s); [discriminate |].
  destruct (is_Columns_of col_type_Binary s); [discriminate | reflexivity].
Qed.

(** C10: [.@count] and [.@size] compile identically.  The result of the
    post-operator is chosen by the kind of the column alone: a link column
    gives its count, a list, string or binary column its size, anything
    else the error, and a null pointer terminates; the operator token
    appears only in the text of the error message.  So whenever one of the
    two operators yields a subexpression, on a bare subexpression or
    through a whole property node, the other yields the same one. *)
Theorem PostOpNode_visit_count_size env :
  (forall subexpr r,
     PostOpNode_visit env COUNT subexpr = Returns r
     <-> PostOpNode_visit env SIZE subexpr = Returns r)
  /\ (forall type subexpr,
        PostOpNode_visit env type subexpr
        = match subexpr with
          | None => Throws terminated
          | Some s =>
              if is_Columns_Link s then Returns (LinkCount s)
              else if is_ColumnListBase s || is_Columns_of col_type_String s
                      || is_Columns_of col_type_Binary s
                   then Returns (SizeOperator s)
                   else Throws (runtime_error
                                  ("Operation '" +:+ post_op_type_to_str type
                                   +:+ "' is not supported on property of type '"
                                   +:+ get_data_type_name env (get_type s) +:+ "'"))
          end)
  /\ (forall drv path identifier comp_type r,
        PropertyNode_visit env drv (PropNode path identifier (Some COUNT) comp_type)
        = Returns r
        <-> PropertyNode_visit env drv (PropNode path identifier (Some SIZE) comp_type)
            = Returns r).
Proof.
  assert (Hkind : forall type subexpr,
        PostOpNode_visit env type subexpr
        = match subexpr with
          | None => Throws terminated
          | Some s =>
              if is_Columns_Link s then Returns (LinkCount s)
              else if is_ColumnListBase s || is_Columns_of col_type_String s
                      || is_Columns_of col_type_Binary s
                   then Returns (SizeOperator s)
                   else Throws (runtime_error
                                  ("Operation '" +:+ post_op_type_to_str type
                                   +:+ "' is not supported on property of type '"
                                   +:+ get_data_type_name env (get_type s) +:+ "'"))
          end).
  { intros type [s|]; [| reflexivity].
    destruct (is_Columns_Link s) eqn:Hl.
    - apply PostOpNode_visit_link; exact Hl.
    - destruct (is_ColumnListBase s || is_Columns_of col_type_String s
                || is_Columns_of col_type_Binary s) eqn:Hs.
      + apply PostOpNode_visit_sized; assumption.
      + apply PostOpNode_visit_other; assumption. }
  assert (Hsame : forall subexpr r,
     PostOpNode_visit env COUNT subexpr = Returns r
     <-> PostOpNode_visit env SIZE subexpr = Returns r).
  { intros subexpr r. rewrite (Hkind COUNT), (Hkind SIZE).
    destruct subexpr as [s|]; [| tauto].
    destruct (is_Columns_Link s); [tauto |].
    destruct (is_ColumnListBase s || is_Columns_of col_type_String s
              || is_Columns_of col_type_Binary s); [tauto |].
    split; discriminate. }
  split; [exact Hsame |]. split; [exact Hkind |].
  intros drv path identifier comp_type r. cbn [PropertyNode_visit].
  destruct (PathNode_visit env drv path comp_type) as [link_chain|e];
    cbn [obind]; [| tauto].
  destruct (LinkChain_column env (get_parent_group drv) link_chain identifier)
    as [[subexpr lc']|e]; cbn [obind]; [| tauto].
  apply Hsame.
Qed.

(** *** Constants *)

(** Compiling a base64 constant always pushes a scratch buffer first, so
    compiling a constant can leave a trace in the driver's state. *)
Lemma ConstantNode_visit_BASE64_pushes env drv text hint st :
  exists r b,
    ConstantNode_visit env drv {| ConstantNode_type := BASE64; text := text |} hint st
    = (r, st ++ [b]).
Proof.
  unfold ConstantNode_visit, ConstantNode_switch, bind, push_buffer, set_last_buffer;
    cbn [ConstantNode_type Driver.text].
  destruct (base64_decode env _ _) as [decoded|]; cbn.
  - rewrite length_app, Nat.add_sub, take_app_length.
    destruct (bool_decide (hint = type_String));
      [| destruct (bool_decide (hint = type_Binary))]; cbn; eauto.
  - eauto.
Qed.

(** C8: a comparison whose two operands are both constants fails in
    [cmp] with "Cannot compare two constants".  The scratch buffers are
    left as they were and the outcome depends neither on the constants nor
    on the environment, so neither constant has been compiled; both
    comparison nodes report the same error. *)
Theorem cmp_two_constants env drv c1 c2 p1 p2 rest st :
  let values := {| constant := Some c1; prop := p1 |}
                :: {| constant := Some c2; prop := p2 |} :: rest in
  cmp env drv values st = (Throws (runtime_error "Cannot compare two constants"), st)
  /\ (forall op case_sensitive,
        EqualitylNode_visit env drv values op case_sensitive st
        = (Throws (runtime_error "Cannot compare two constants"), st))
  /\ (forall op,
        RelationalNode_visit env drv values op st
        = (Throws (runtime_error "Cannot compare two constants"), st)).
Proof.
  intros values.
  assert (H : cmp env drv values st
              = (Throws (runtime_error "Cannot compare two constants"), st))
    by reflexivity.
  split; [exact H |]. split; intros.
  - unfold EqualitylNode_visit. apply bind_throws. exact H.
  - unfold RelationalNode_visit. apply bind_throws. exact H.
Qed.

(** C6: the compilation of a NULL constant is determined by the type
    hint alone: hint String gives the null-string sentinel, hint Binary the
    null-binary sentinel, hint LinkList fails with "Cannot compare linklist
    with NULL", and every other hint gives the typed null value; the text,
    the driver and the scratch buffers play no part.  Both sentinels carry
    the hinted type and a null constant. *)
Theorem ConstantNode_visit_NULL env drv text hint st :
  ConstantNode_visit env drv {| ConstantNode_type := NULL_VAL; text := text |} hint st
  = (match hint with
     | type_String => Returns (ConstantStringValue None)
     | type_Binary => Returns (Value_BinaryData None)
     | type_LinkList => Throws (runtime_error "Cannot compare linklist with NULL")
     | _ => Returns Value_null
     end, st)
  /\ get_type (ConstantStringValue None) = type_String
  /\ get_type (Value_BinaryData None) = type_Binary
  /\ Mixed_is_null (get_mixed (ConstantStringValue None)) = true
  /\ Mixed_is_null (get_mixed (Value_BinaryData None)) = true
  /\ Mixed_is_null (get_mixed Value_null) = true.
Proof.
  split; [| repeat split].
  unfold ConstantNode_visit, ConstantNode_switch, bind;
    cbn [ConstantNode_type Driver.text].
  destruct hint; reflexivity.
Qed.

(** *** Timestamps *)

Lemma to_int32_range z : - 2 ^ 31 <= to_int32 z < 2 ^ 31.
Proof.
  unfold to_int32. pose proof (Z.mod_pos_bound (z + 2 ^ 31) (2 ^ 32) ltac:(lia)). lia.
Qed.

Lemma to_int32_id z : - 2 ^ 31 <= z < 2 ^ 31 -> to_int32 z = z.
Proof.
  intros H. unfold to_int32. rewrite Z.mod_small by lia. lia.
Qed.

Lemma get_timestamp_if_valid_spec seconds nanoseconds :
  get_timestamp_if_valid seconds nanoseconds
  = if bool_decide ((seconds >= 0 /\ nanoseconds >= 0)
                    \/ (seconds <= 0 /\ nanoseconds <= 0))
    then Returns (Timestamp_make seconds nanoseconds)
    else Throws (runtime_error "Invalid timestamp format").
Proof.
  unfold get_timestamp_if_valid.
  destruct (0 <=? seconds) eqn:E1, (0 <=? nanoseconds) eqn:E2,
           (seconds <=? 0) eqn:E3, (nanoseconds <=? 0) eqn:E4; cbn;
    case_bool_decide; try reflexivity; exfalso; lia.
Qed.

(** The readable form never hands opposite signs on. *)
Lemma readable_timestamp_signs env s seconds nanoseconds :
  readable_timestamp env s = Returns (seconds, nanoseconds) ->
  let scanned := scan_readable env s in
  let parsed := if Z.of_nat (length scanned) =? 6 then 0
                else to_int32 (nth 6 scanned 0) in
  0 <= parsed
  /\ seconds = to_int64 (platform_timegm env
                 {| tm_year := to_int32 (nth 0 scanned 0) - 1900;
                    tm_mon := to_int32 (nth 1 scanned 0) - 1;
                    tm_mday := to_int32 (nth 2 scanned 0);
                    tm_hour := to_int32 (nth 3 scanned 0);
                    tm_min := to_int32 (nth 4 scanned 0);
                    tm_sec := to_int32 (nth 5 scanned 0) |})
  /\ nanoseconds = (if seconds <? 0 then - parsed else parsed).
Proof.
  unfold readable_timestamp. cbv zeta.
  set (scanned := scan_readable env s).
  set (parsed := if Z.of_nat (length scanned) =? 6 then 0
                 else to_int32 (nth 6 scanned 0)).
  destruct (Z.of_nat (length scanned) <? 6); [discriminate |].
  cbn [tm_year].
  destruct (to_int32 (nth 0 scanned 0) - 1900 <? 0); [discriminate |].
  destruct (parsed <? 0) eqn:Eneg; [discriminate |].
  apply Z.ltb_ge in Eneg.
  intros H. injection H as Hs Hn.
  split; [exact Eneg |]. split; [symmetry; exact Hs |].
  rewrite Hs in Hn. rewrite <- Hn.
  destruct (seconds <? 0); [| reflexivity].
  assert (Hp : parsed < 2 ^ 31).
  { subst parsed. destruct (Z.of_nat (length scanned) =? 6); [lia |].
    apply to_int32_range. }
  rewrite to_int32_id by lia. lia.
Qed.

(** C5: [get_timestamp_if_valid] returns [Timestamp(seconds, nanoseconds)]
    exactly when the two components do not carry opposite signs, that is
    when both are non-negative or both are non-positive, and otherwise
    throws "Invalid timestamp format".  In the readable date form the
    parsed nanoseconds must be non-negative (a negative value throws), they
    are negated when the seconds are negative, and so the two components
    that reach [get_timestamp_if_valid] always pass it. *)
Theorem timestamp_sign_rule :
  (forall seconds nanoseconds,
     (get_timestamp_if_valid seconds nanoseconds
      = Returns (Timestamp_make seconds nanoseconds)
      <-> (seconds >= 0 /\ nanoseconds >= 0) \/ (seconds <= 0 /\ nanoseconds <= 0))
     /\ (~ ((seconds >= 0 /\ nanoseconds >= 0) \/ (seconds <= 0 /\ nanoseconds <= 0))
         <-> get_timestamp_if_valid seconds nanoseconds
             = Throws (runtime_error "Invalid timestamp format")))
  /\ (forall env s,
        let scanned := scan_readable env s in
        6 < Z.of_nat (length scanned) ->
        1900 <= to_int32 (nth 0 scanned 0) ->
        to_int32 (nth 6 scanned 0) < 0 ->
        readable_timestamp env s
        = Throws (logic_error "The nanoseconds of a Timestamp cannot be negative."))
  /\ (forall env s seconds nanoseconds,
        readable_timestamp env s = Returns (seconds, nanoseconds) ->
        let scanned := scan_readable env s in
        let parsed := if Z.of_nat (length scanned) =? 6 then 0
                      else to_int32 (nth 6 scanned 0) in
        0 <= parsed
        /\ nanoseconds = (if seconds <? 0 then - parsed else parsed)
        /\ get_timestamp_if_valid seconds nanoseconds
           = Returns (Timestamp_make seconds nanoseconds))
  /\ (forall env drv text hint st seconds nanoseconds,
        String.get 0 text <> Some "T"%char ->
        readable_timestamp env text = Returns (seconds, nanoseconds) ->
        ConstantNode_visit env drv {| ConstantNode_type := TIMESTAMP; text := text |} hint st
        = (Returns (Value_Timestamp (Timestamp_make seconds nanoseconds)), st)).
Proof.
  assert (Hreadable : forall env s seconds nanoseconds,
        readable_timestamp env s = Returns (seconds, nanoseconds) ->
        let scanned := scan_readable env s in
        let parsed := if Z.of_nat (length scanned) =? 6 then 0
                      else to_int32 (nth 6 scanned 0) in
        0 <= parsed
        /\ nanoseconds = (if seconds <? 0 then - parsed else parsed)
        /\ get_timestamp_if_valid seconds nanoseconds
           = Returns (Timestamp_make seconds nanoseconds)).
  { intros env s seconds nanoseconds H.
    destruct (readable_timestamp_signs env s seconds nanoseconds H) as (Hp & _ & Hn).
    cbv zeta in *. split; [exact Hp |]. split; [exact Hn |].
    rewrite get_timestamp_if_valid_spec. case_bool_decide as Hd; [reflexivity |].
    exfalso. apply Hd. destruct (seconds <? 0) eqn:E.
    - apply Z.ltb_lt in E. lia.
    - apply Z.ltb_ge in E. lia. }
  split; [| split; [| split; [exact Hreadable |]]].
  - intros seconds nanoseconds. rewrite get_timestamp_if_valid_spec.
    case_bool_decide as Hd; split; split; intros H;
      try reflexivity; try discriminate; try tauto.
  - intros env s scanned Hcnt Hyear Hneg. unfold readable_timestamp. cbv zeta.
    fold scanned.
    destruct (Z.of_nat (length scanned) <? 6) eqn:E1;
      [apply Z.ltb_lt in E1; lia |].
    cbn [tm_year].
    destruct (to_int32 (nth 0 scanned 0) - 1900 <? 0) eqn:E2;
      [apply Z.ltb_lt in E2; lia |].
    destruct (Z.of_nat (length scanned) =? 6) eqn:E3;
      [apply Z.eqb_eq in E3; lia |].
    destruct (to_int32 (nth 6 scanned 0) <? 0) eqn:E4;
      [reflexivity | apply Z.ltb_ge in E4; lia].
  - intros env drv text hint st seconds nanoseconds HT Hr.
    destruct (Hreadable env text seconds nanoseconds Hr) as (_ & _ & Hvalid).
    unfold ConstantNode_visit, ConstantNode_switch, bind, lift, ret;
      cbn [ConstantNode_type Driver.text].
    case_bool_decide; [contradiction |].
    rewrite Hr, Hvalid. reflexivity.
Qed.

(** *** Equality *)

(** A constant of type ObjectId is never null. *)
Lemma constant_ObjectId_not_null rhs :
  has_constant_evaluation rhs = true ->
  get_type rhs = type_ObjectId ->
  Mixed_is_null (get_mixed rhs) = false.
Proof. destruct rhs; cbn; intros; try discriminate; reflexivity. Qed.

(** Only a single-valued column on the left can be specialised. *)
Lemma specializable_needs_property lhs rhs :
  as_ObjPropertyBase lhs = None -> specializable lhs rhs = None.
Proof. intros H. unfold specializable. rewrite H. reflexivity. Qed.

Lemma equality_fast_path_types op case_sensitive lhs rhs col_key :
  specializable lhs rhs = Some col_key ->
  Mixed_is_null (get_mixed rhs) = false ->
  is_Some (equality_fast_path op case_sensitive lhs rhs)
  <-> get_type lhs ∈ fast_path_types.
Proof.
  intros Hs Hn. unfold equality_fast_path, fast_path_types.
  rewrite Hs, Hn. rewrite !elem_of_cons, elem_of_nil.
  destruct (get_type lhs); split; intros H;
    try (eexists; reflexivity);
    try (destruct H as [? H]; discriminate H);
    try tauto;
    try (repeat destruct H as [H|H]; try discriminate H; contradiction).
Qed.

(** With the operands the other way round, the constant on the left and
    the property on the right, nothing is specialised either. *)
Lemma EqualitylNode_visit_constant_on_left
    env drv values op case_sensitive st lhs rhs st' :
  cmp env drv values st = (Returns (lhs, rhs), st') ->
  as_ObjPropertyBase lhs = None ->
  data_types_are_comparable env (get_type lhs) (get_type rhs) = true ->
  EqualitylNode_visit env drv values op case_sensitive st
  = (Returns (equality_generic op case_sensitive lhs rhs), st').
Proof.
  intros Hcmp Hprop Hcomparable.
  unfold EqualitylNode_visit. rewrite (bind_returns _ _ _ _ _ Hcmp).
  rewrite Hcomparable, andb_false_r.
  unfold equality_fast_path. rewrite specializable_needs_property by exact Hprop.
  reflexivity.
Qed.

(** C1: an equality comparison (EQ or NEQ) between a property of type
    ObjectId without link traversal and a constant-evaluable operand of the
    same type is not specialised: the column-specialised branch falls
    through and the node returns the generic [Compare<Equal>],
    [Compare<NotEqual>], [Compare<EqualIns>] or [Compare<NotEqualIns>]
    over (right, left).  Among the operands that qualify for
    specialisation with a constant that is not null, exactly those of type
    integer, bool, string, binary, timestamp, float, double, decimal or
    UUID are specialised, and ObjectId is not one of them. *)
Theorem EqualitylNode_visit_ObjectId
    env drv values op case_sensitive st lhs rhs st' prop :
  is_equality op = true ->
  cmp env drv values st = (Returns (lhs, rhs), st') ->
  as_ObjPropertyBase lhs = Some prop ->
  links_exist prop = false ->
  has_constant_evaluation rhs = true ->
  get_type lhs = type_ObjectId ->
  get_type rhs = type_ObjectId ->
  data_types_are_comparable env type_ObjectId type_ObjectId = true ->
  equality_fast_path op case_sensitive lhs rhs = None
  /\ EqualitylNode_visit env drv values op case_sensitive st
     = (Returns (Query_of (Compare
                             (match op, case_sensitive with
                              | EQUAL, true => Equal
                              | EQUAL, false => EqualIns
                              | _, true => NotEqual
                              | _, false => NotEqualIns
                              end) rhs lhs)), st')
  /\ (forall q st'',
        EqualitylNode_visit env drv values op case_sensitive st = (Returns q, st'') ->
        is_column_specialized q = false)
  /\ (type_ObjectId ∉ fast_path_types)
  /\ (forall op' cs' lhs' rhs' col_key,
        specializable lhs' rhs' = Some col_key ->
        Mixed_is_null (get_mixed rhs') = false ->
        is_Some (equality_fast_path op' cs' lhs' rhs')
        <-> get_type lhs' ∈ fast_path_types).
Proof.
  intros Hop Hcmp Hprop Hlinks Hconst Hl Hr Hcomparable.
  assert (Hnull : Mixed_is_null (get_mixed rhs) = false)
    by (apply constant_ObjectId_not_null; assumption).
  assert (Hfast : equality_fast_path op case_sensitive lhs rhs = None).
  { unfold equality_fast_path, specializable.
    rewrite Hprop, Hlinks, Hconst, Hl, Hr, Hnull. reflexivity. }
  assert (Hvisit : EqualitylNode_visit env drv values op case_sensitive st
     = (Returns (Query_of (Compare
                             (match op, case_sensitive with
                              | EQUAL, true => Equal
                              | EQUAL, false => EqualIns
                              | _, true => NotEqual
                              | _, false => NotEqualIns
                              end) rhs lhs)), st')).
  { unfold EqualitylNode_visit. rewrite (bind_returns _ _ _ _ _ Hcmp).
    rewrite Hl, Hr, Hcomparable, Hfast. cbn [nonneg andb negb].
    unfold ret, equality_generic.
    destruct op; try discriminate Hop; destruct case_sensitive; reflexivity. }
  split; [exact Hfast |]. split; [exact Hvisit |]. split; [| split].
  - intros q st'' Hq. rewrite Hvisit in Hq. inversion Hq. reflexivity.
  - unfold fast_path_types. rewrite !elem_of_cons, elem_of_nil.
    intros H. repeat destruct H as [H|H]; try discriminate H. exact H.
  - intros. eapply equality_fast_path_types; eassumption.
Qed.

(** *** Relational comparisons *)

(** A relational node that returns a query had operands of which the left
    one is not a UUID. *)
Lemma RelationalNode_visit_returns env drv values op st q st' :
  RelationalNode_visit env drv values op st = (Returns q, st') ->
  exists lhs rhs,
    cmp env drv values st = (Returns (lhs, rhs), st')
    /\ get_type lhs <> type_UUID.
Proof.
  unfold RelationalNode_visit. intros H.
  apply bind_inv in H. destruct H as ([lhs rhs] & st1 & Hcmp & H).
  case_bool_decide as Hu; [discriminate H |].
  destruct (negb (nonneg (get_type lhs)) || negb (nonneg (get_type rhs))
            || negb (data_types_are_comparable env (get_type lhs) (get_type rhs)));
    [discriminate H |].
  exists lhs, rhs. split; [| exact Hu].
  destruct (relational_fast_path op lhs rhs) as [o|];
    unfold lift, ret in H; inversion H; subst; exact Hcmp.
Qed.

(** C2, as the code has it: once [cmp] has returned both operands of a
    relational comparison and the left one has type UUID, the node throws
    the "unsupported operator" error, whatever the type of the right
    operand, UUID included; such a comparison never returns a query. *)
Theorem RelationalNode_visit_UUID env drv values op st lhs rhs st' :
  cmp env drv values st = (Returns (lhs, rhs), st') ->
  get_type lhs = type_UUID ->
  RelationalNode_visit env drv values op st = (Throws (unsupported_operator op), st')
  /\ forall q st'', RelationalNode_visit env drv values op st <> (Returns q, st'').
Proof.
  intros Hcmp Hu.
  assert (H : RelationalNode_visit env drv values op st
              = (Throws (unsupported_operator op), st')).
  { unfold RelationalNode_visit. rewrite (bind_returns _ _ _ _ _ Hcmp).
    rewrite Hu. reflexivity. }
  split; [exact H |]. intros q st''. rewrite H. discriminate.
Qed.

(** The relational operators are specialised for integers, timestamps,
    floats, doubles and decimals only; bool, string, binary, ObjectId and
    every other type fall through to the generic path. *)
Lemma relational_fast_path_types op lhs rhs col_key :
  specializable lhs rhs = Some col_key ->
  is_Some (relational_fast_path op lhs rhs)
  <-> get_type lhs ∈ [type_Int; type_Timestamp; type_Float; type_Double; type_Decimal].
Proof.
  intros Hs. unfold relational_fast_path. rewrite Hs.
  rewrite !elem_of_cons, elem_of_nil.
  destruct (get_type lhs); split; intros H;
    try (eexists; reflexivity);
    try (destruct H as [? H]; discriminate H);
    try tauto;
    try (repeat destruct H as [H|H]; try discriminate H; contradiction).
Qed.

(** Mirroring a comparison and swapping its operands keeps its meaning. *)
Lemma relational_generic_holds op lhs rhs value_of e :
  is_relational op = true ->
  relational_generic op lhs rhs = Query_of e ->
  Expression_holds value_of e = CompareOp_holds op (value_of lhs) (value_of rhs).
Proof.
  intros Hop He.
  destruct op; try discriminate Hop; cbn in He; inversion He; subst; cbn.
  - symmetry. apply Z.gtb_ltb.
  - apply Z.gtb_ltb.
  - symmetry. apply Z.geb_leb.
  - apply Z.geb_leb.
Qed.

(** C3: on the generic path, that is when the operands pass the type
    checks and the column-specialised branch falls through, a relational
    comparison is emitted with its operands swapped and its operator
    mirrored: left > right as Compare<Less>(right, left), left < right as
    Compare<Greater>(right, left), left >= right as
    Compare<LessEqual>(right, left) and left <= right as
    Compare<GreaterEqual>(right, left); whatever values the operands take,
    the emitted comparison holds exactly when the source comparison does. *)
Theorem RelationalNode_visit_generic env drv values op st lhs rhs st' :
  is_relational op = true ->
  cmp env drv values st = (Returns (lhs, rhs), st') ->
  get_type lhs <> type_UUID ->
  nonneg (get_type lhs) = true ->
  nonneg (get_type rhs) = true ->
  data_types_are_comparable env (get_type lhs) (get_type rhs) = true ->
  relational_fast_path op lhs rhs = None ->
  let cond := match op with
              | GREATER => Less
              | LESS => Greater
              | GREATER_EQUAL => LessEqual
              | LESS_EQUAL => GreaterEqual
              | _ => Equal (* not a relational operator *)
              end in
  RelationalNode_visit env drv values op st
  = (Returns (Query_of (Compare cond rhs lhs)), st')
  /\ forall value_of,
       Expression_holds value_of (Compare cond rhs lhs)
       = CompareOp_holds op (value_of lhs) (value_of rhs).
Proof.
  intros Hop Hcmp Hu Hl Hr Hcomparable Hfast cond.
  assert (Hgen : relational_generic op lhs rhs = Query_of (Compare cond rhs lhs))
    by (subst cond; destruct op; try discriminate Hop; reflexivity).
  split.
  - unfold RelationalNode_visit. rewrite (bind_returns _ _ _ _ _ Hcmp).
    case_bool_decide; [contradiction |].
    rewrite Hl, Hr, Hcomparable, Hfast, Hgen. reflexivity.
  - intros value_of. eapply relational_generic_holds; eassumption.
Qed.

(** *** Strings *)

Lemma append_nil_l b : "" +:+ b = b.
Proof. reflexivity. Qed.

Lemma append_cons c a b : String c a +:+ b = String c (a +:+ b).
Proof. reflexivity. Qed.

Lemma length_append a b :
  String.length (a +:+ b) = (String.length a + String.length b)%nat.
Proof.
  induction a as [|c a IH]; [reflexivity |].
  rewrite append_cons. cbn [String.length Nat.add]. rewrite IH. reflexivity.
Qed.

Lemma size_append a b : size (a +:+ b) = size a + size b.
Proof. unfold size. rewrite length_append. lia. Qed.

Lemma size_nonneg s : 0 <= size s.
Proof. unfold size. lia. Qed.

Lemma append_assoc a b c : (a +:+ b) +:+ c = a +:+ (b +:+ c).
Proof.
  induction a as [|x a IH]; [reflexivity |].
  rewrite !append_cons, IH. reflexivity.
Qed.

Lemma substring_all s : String.substring 0 (String.length s) s = s.
Proof. induction s as [|c s IH]; cbn; [reflexivity | rewrite IH; reflexivity]. Qed.

Lemma substring_take a b : String.substring 0 (String.length a) (a +:+ b) = a.
Proof.
  induction a as [|c a IH].
  - rewrite append_nil_l. destruct b; reflexivity.
  - rewrite append_cons. cbn [String.length String.substring]. rewrite IH. reflexivity.
Qed.

Lemma substring_drop a b :
  String.substring (String.length a) (String.length b) (a +:+ b) = b.
Proof.
  induction a as [|c a IH].
  - rewrite append_nil_l. apply substring_all.
  - rewrite append_cons. cbn [String.length String.substring]. exact IH.
Qed.

Lemma prefix_inv p s : String.prefix p s = true -> exists r, s = p +:+ r.
Proof.
  revert s. induction p as [|c p IH]; intros s H.
  - exists s. reflexivity.
  - destruct s as [|d s]; cbn in H; [discriminate |].
    destruct (ascii_dec c d) as [->|]; [| discriminate].
    destruct (IH s H) as [r ->]. exists r. reflexivity.
Qed.

Lemma prefix_append p r : String.prefix p (p +:+ r) = true.
Proof.
  induction p as [|c p IH].
  - rewrite append_nil_l. destruct r; reflexivity.
  - rewrite append_cons. cbn [String.prefix].
    destruct (ascii_dec c c); [exact IH | contradiction].
Qed.

(** [substr] of the front and of the rest of a concatenation. *)
Lemma substr_front a b : substr (a +:+ b) 0 (size a) = Returns a.
Proof.
  unfold substr. pose proof (size_nonneg (a +:+ b)) as Hs.
  destruct (size (a +:+ b) <? 0) eqn:E; [apply Z.ltb_lt in E; lia |].
  rewrite size_append in *. pose proof (size_nonneg b).
  rewrite Z.min_l by lia. unfold size. rewrite Nat2Z.id.
  change (Z.to_nat 0) with 0%nat. rewrite substring_take. reflexivity.
Qed.

Lemma substr_rest a b :
  size (a +:+ b) <= npos -> substr (a +:+ b) (size a) npos = Returns b.
Proof.
  intros Hmax. unfold substr. rewrite size_append in *.
  pose proof (size_nonneg a). pose proof (size_nonneg b). unfold npos in *.
  destruct (size a + size b <? size a) eqn:E; [apply Z.ltb_lt in E; lia |].
  rewrite Z.min_r by lia.
  replace (size a + size b - size a) with (size b) by lia.
  unfold size. rewrite !Nat2Z.id. rewrite substring_drop. reflexivity.
Qed.

(** The first occurrence of a character that the front does not hold. *)
Lemma find_from_first c a b i :
  find_from c a i = None ->
  find_from c (a +:+ String c b) i = Some (i + size a).
Proof.
  revert i. induction a as [|x a IH]; intros i H.
  - rewrite append_nil_l. cbn [find_from]. rewrite Ascii.eqb_refl.
    f_equal. unfold size. cbn. lia.
  - rewrite append_cons. cbn [find_from] in *.
    destruct (Ascii.eqb x c); [discriminate |].
    rewrite IH by exact H. f_equal. unfold size. cbn [String.length]. lia.
Qed.

Lemma find_first c a b :
  find_from c a 0 = None -> find (a +:+ String c b) c = size a.
Proof.
  intros H. unfold find. rewrite find_from_first by exact H. lia.
Qed.

(** *** Printable table names *)

Lemma get_printable_table_name_class rest :
  rest <> "" -> get_printable_table_name ("class_" +:+ rest) = rest.
Proof.
  intros Hne. unfold get_printable_table_name.
  rewrite prefix_append, length_append.
  destruct rest as [|c rest]; [contradiction |].
  cbn [String.length Nat.add Nat.ltb Nat.leb andb].
  replace (S (S (S (S (S (S (S (String.length rest))))))) - 6)%nat
    with (String.length (String c rest)) by (cbn; lia).
  apply (substring_drop "class_").
Qed.

Lemma get_printable_table_name_other name :
  String.prefix "class_" name = false -> get_printable_table_name name = name.
Proof.
  intros H. unfold get_printable_table_name. rewrite H, andb_false_r. reflexivity.
Qed.

(** The code strips the prefix unless nothing follows it. *)
Lemma get_printable_table_name_strip name :
  get_printable_table_name name = strip_class_prefix name
  \/ (name = "class_" /\ strip_class_prefix name = "").
Proof.
  unfold strip_class_prefix.
  destruct (String.prefix "class_" name) eqn:P.
  - destruct (prefix_inv _ _ P) as [rest ->].
    destruct rest as [|c rest]; [right; split; reflexivity |].
    left. rewrite get_printable_table_name_class by discriminate.
    rewrite length_append.
    replace (String.length "class_" + String.length (String c rest) - 6)%nat
      with (String.length (String c rest)) by (cbn; lia).
    symmetry. apply (substring_drop "class_").
  - left. apply get_printable_table_name_other. exact P.
Qed.

Lemma contains_empty s : contains s "".
Proof. exists "", s. reflexivity. Qed.

Lemma contains_middle a b c : contains (a +:+ b +:+ c) b.
Proof. exists a, c. reflexivity. Qed.

(** *** Backlinks *)

(** The split of a backlink segment at the first dot. *)
Lemma backlink_split table column :
  find_from "." table 0 = None ->
  size ("@links." +:+ table +:+ "." +:+ column) < 2 ^ 64 ->
  let path_elem := "@links." +:+ table +:+ "." +:+ column in
  exists table_column_pair,
    substr path_elem 7 npos = Returns table_column_pair
    /\ find table_column_pair "." = size table
    /\ substr table_column_pair 0 (find table_column_pair ".") = Returns table
    /\ substr table_column_pair (size_t_add (find table_column_pair ".") 1) npos
       = Returns column.
Proof.
  intros Hdot Hsize path_elem.
  exists (table +:+ "." +:+ column).
  assert (Hfind : find (table +:+ "." +:+ column) "." = size table)
    by (apply (find_first "."%char table column); exact Hdot).
  rewrite size_append in Hsize. change (size "@links.") with 7 in Hsize.
  pose proof (size_nonneg table) as Ht.
  pose proof (size_nonneg column) as Hc.
  assert (Hpair : size (table +:+ "." +:+ column) = size table + 1 + size column).
  { rewrite size_append. change ("." +:+ column) with (String "." column).
    unfold size. cbn [String.length]. lia. }
  rewrite Hpair in Hsize.
  repeat split.
  - apply (substr_rest "@links.").
    rewrite size_append, Hpair. change (size "@links.") with 7. unfold npos. lia.
  - exact Hfind.
  - rewrite Hfind. apply substr_front.
  - rewrite Hfind. unfold size_t_add. rewrite Z.mod_small by lia.
    replace (size table + 1) with (size (table +:+ "."))
      by (rewrite size_append; reflexivity).
    change (table +:+ "." +:+ column) with (table +:+ ("." +:+ column)).
    rewrite <- append_assoc. apply substr_rest.
    rewrite append_assoc. change ("." +:+ column) with (String "." column) in *.
    rewrite Hpair. unfold npos. lia.
Qed.

(** C7: for a backlink segment [@links.TABLE.COL], where TABLE holds no
    dot, the resolver splits the text after [@links.] at the first dot into
    the table name and the column name, looks the table up in the parent
    group and then the column up on that table; if either lookup fails it
    throws the "No property" error, whose message names the table through
    [get_printable_table_name] and so contains the table name with a
    leading "class_" stripped; if both succeed it follows the backlink from
    that table and column. *)
Theorem LinkChain_backlink_lookup env g lc table column :
  find_from "." table 0 = None ->
  size ("@links." +:+ table +:+ "." +:+ column) < 2 ^ 64 ->
  let path_elem := "@links." +:+ table +:+ "." +:+ column in
  let message :=
    "No property '" +:+ column +:+ "' found in type '"
    +:+ get_printable_table_name table +:+ "' which links to type '"
    +:+ get_printable_table_name (get_name (m_current_table lc)) +:+ "'" in
  LinkChain_backlink env g lc path_elem
  = match get_table g table with
    | None => Throws (runtime_error message)
    | Some origin_table =>
        match get_column_key origin_table column with
        | ColKey_null => Throws (runtime_error message)
        | origin_column => LinkChain_backlink_to env g lc origin_table origin_column
        end
    end
  /\ contains message (strip_class_prefix table)
  /\ (forall rest, rest <> "" -> table = "class_" +:+ rest ->
      get_printable_table_name table = rest).
Proof.
  intros Hdot Hsize path_elem message.
  destruct (backlink_split table column Hdot Hsize)
    as (pair & Hpair & Hfind & Htable & Hcolumn).
  split; [| split].
  - subst path_elem. unfold LinkChain_backlink. rewrite Hpair. cbn [obind].
    rewrite Htable. cbn [obind]. rewrite Hcolumn. cbn [obind].
    destruct (get_table g table) as [origin_table|]; [| reflexivity].
    destruct (get_column_key origin_table column); reflexivity.
  - destruct (get_printable_table_name_strip table) as [Heq | [_ Hempty]].
    + subst message. rewrite Heq.
      rewrite <- (append_assoc "No property '" column).
      rewrite <- (append_assoc ("No property '" +:+ column) "' found in type '").
      apply contains_middle.
    + rewrite Hempty. apply contains_empty.
  - intros rest Hne ->. apply get_printable_table_name_class. exact Hne.
Qed.

(** *** The driver on the small schema *)

(** [age == 30] is specialised to an integer equality on the column. *)
Example age_equals_30 :
  EqualitylNode_visit Demo.env Demo.drv
    [Demo.property "age"; Demo.literal NUMBER "30"] EQUAL true []
  = (Returns (simple_query EQUAL (ColKey_make 0 col_type_Int false) (Mixed_Int 30) None),
     []).
Proof. vm_compute. reflexivity. Qed.

(** [name != NULL] becomes the column-against-null form. *)
Example name_not_null :
  EqualitylNode_visit Demo.env Demo.drv
    [Demo.property "name"; Demo.literal NULL_VAL "NULL"] NOT_EQUAL true []
  = (Returns (where_not_equal_null (ColKey_make 1 col_type_String false)), []).
Proof. vm_compute. reflexivity. Qed.

(** [born == $1] takes the bound timestamp. *)
Example born_equals_argument :
  EqualitylNode_visit Demo.env Demo.drv
    [Demo.property "born"; Demo.literal ARG "$1"] EQUAL true []
  = (Returns (simple_query EQUAL (ColKey_make 4 col_type_Timestamp false)
                (Mixed_Timestamp (Timestamp_make 100 0)) None), []).
Proof. vm_compute. reflexivity. Qed.

(** [@links.class_Account.owner.balance > 100] goes through a backlink, so
    it is compiled on the generic path, swapped and mirrored. *)
Example backlink_balance_greater_100 :
  RelationalNode_visit Demo.env Demo.drv
    [ValueNode_of_prop (PropNode ["@links.class_Account.owner"] "balance" None Any);
     Demo.literal NUMBER "100"] GREATER []
  = (Returns (Query_of (Compare Less (Value_int64 100)
                          (Columns col_type_Int (ColKey_make 0 col_type_Int false)
                             "class_Person"
                             [ColKey_make 100 col_type_BackLink true]))), []).
Proof. vm_compute. reflexivity. Qed.

(** [age > 30] is specialised to an integer comparison on the column. *)
Example age_greater_30 :
  RelationalNode_visit Demo.env Demo.drv
    [Demo.property "age"; Demo.literal NUMBER "30"] GREATER []
  = (Returns (simple_query GREATER (ColKey_make 0 col_type_Int false) (Mixed_Int 30) None),
     []).
Proof. vm_compute. reflexivity. Qed.

(** [friends.@count] and [friends.@size] are the same link count. *)
Example friends_count_size :
  PropertyNode_visit Demo.env Demo.drv (PropNode [] "friends" (Some COUNT) Any)
  = PropertyNode_visit Demo.env Demo.drv (PropNode [] "friends" (Some SIZE) Any)
  /\ PropertyNode_visit Demo.env Demo.drv (PropNode [] "friends" (Some SIZE) Any)
     = Returns (LinkCount
                  (Columns_Link (ColKey_make 8 col_type_LinkList true) "class_Person"
                     [ColKey_make 8 col_type_LinkList true] Any)).
Proof. split; vm_compute; reflexivity. Qed.

Lemma EqualitylNode_visit_ObjectId_witness :
  EqualitylNode_visit Demo.env Demo.drv
    [Demo.property "id"; Demo.literal OID "oid(5f0f)"] NOT_EQUAL false []
  = (Returns (Query_of (Compare NotEqualIns
                          (Value_ObjectId (ObjectId_of_string "5f0f"))
                          (Columns col_type_ObjectId
                             (ColKey_make 2 col_type_ObjectId false)
                             "class_Person" []))), []).
Proof.
  refine (proj1 (proj2
    (EqualitylNode_visit_ObjectId Demo.env Demo.drv
       [Demo.property "id"; Demo.literal OID "oid(5f0f)"] NOT_EQUAL false []
       (Columns col_type_ObjectId (ColKey_make 2 col_type_ObjectId false)
          "class_Person" [])
       (Value_ObjectId (ObjectId_of_string "5f0f")) []
       (ColKey_make 2 col_type_ObjectId false, [])
       _ _ _ _ _ _ _ _)));
    vm_compute; reflexivity.
Defined.

Lemma RelationalNode_visit_UUID_witness :
  RelationalNode_visit Demo.env Demo.drv
    [Demo.property "uid"; Demo.literal UUID_T "uuid(3b24)"] GREATER []
  = (Throws (logic_error
       "Unsupported operator > in query. Only equal (==) and not equal (!=) are supported for this type."),
     []).
Proof.
  refine (proj1
    (RelationalNode_visit_UUID Demo.env Demo.drv
       [Demo.property "uid"; Demo.literal UUID_T "uuid(3b24)"] GREATER []
       (Columns col_type_UUID (ColKey_make 3 col_type_UUID false) "class_Person" [])
       (Value_UUID (UUID_of_string "3b24")) [] _ _));
    vm_compute; reflexivity.
Defined.

(** C2 as the specification words it does not hold: the left operand
    [uid] compiles to type UUID, but the infinity constant on the right is
    compiled with that type as its hint before the operator is looked at,
    and the error of that constant is the one reported. *)
Lemma RelationalNode_visit_UUID_counterexample :
  ~ (forall env drv left_node right_node op st lhs,
       is_relational op = true ->
       PropertyNode_visit env drv left_node = Returns lhs ->
       get_type lhs = type_UUID ->
       exists st',
         RelationalNode_visit env drv [ValueNode_of_prop left_node; right_node] op st
         = (Throws (unsupported_operator op), st')).
Proof.
  intros H.
  destruct (H Demo.env Demo.drv (PropNode [] "uid" None Any)
              (Demo.literal INFINITY_VAL "inf") GREATER []
              (Columns col_type_UUID (ColKey_make 3 col_type_UUID false)
                 "class_Person" [])
              eq_refl eq_refl eq_refl) as [st' Hst'].
  vm_compute in Hst'. discriminate Hst'.
Qed.

Lemma RelationalNode_visit_generic_witness :
  RelationalNode_visit Demo.env Demo.drv
    [Demo.literal NUMBER "3"; Demo.property "age"] GREATER_EQUAL []
  = (Returns (Query_of (Compare LessEqual
                          (Columns col_type_Int (ColKey_make 0 col_type_Int false)
                             "class_Person" [])
                          (Value_int64 3))), [])
  /\ forall value_of,
       Expression_holds value_of
         (Compare LessEqual
            (Columns col_type_Int (ColKey_make 0 col_type_Int false) "class_Person" [])
            (Value_int64 3))
       = (value_of (Value_int64 3)
          >=? value_of (Columns col_type_Int (ColKey_make 0 col_type_Int false)
                          "class_Person" [])).
Proof.
  refine (RelationalNode_visit_generic Demo.env Demo.drv
            [Demo.literal NUMBER "3"; Demo.property "age"] GREATER_EQUAL []
            (Value_int64 3)
            (Columns col_type_Int (ColKey_make 0 col_type_Int false) "class_Person" [])
            [] _ _ _ _ _ _ _);
    vm_compute; try reflexivity; discriminate.
Defined.

Lemma LinkChain_backlink_lookup_witness :
  LinkChain_backlink Demo.env Demo.group (LinkChain_new Demo.Person Any)
    "@links.class_Account.nope"
  = Throws (runtime_error
      "No property 'nope' found in type 'Account' which links to type 'Person'")
  /\ LinkChain_backlink Demo.env Demo.group (LinkChain_new Demo.Person Any)
       "@links.class_Bank.owner"
     = Throws (runtime_error
         "No property 'owner' found in type 'Bank' which links to type 'Person'").
Proof.
  split.
  - refine (eq_trans (proj1 (LinkChain_backlink_lookup Demo.env Demo.group
              (LinkChain_new Demo.Person Any) "class_Account" "nope" _ _)) _);
      vm_compute; reflexivity.
  - refine (eq_trans (proj1 (LinkChain_backlink_lookup Demo.env Demo.group
              (LinkChain_new Demo.Person Any) "class_Bank" "owner" _ _)) _);
      vm_compute; reflexivity.
Defined.

Lemma timestamp_sign_rule_witness :
  get_timestamp_if_valid (-1) 5 = Throws (runtime_error "Invalid timestamp format")
  /\ ConstantNode_visit Demo.env Demo.drv
       {| ConstantNode_type := TIMESTAMP; text := "1969-12-31@23:59:59:5" |}
       type_Timestamp []
     = (Returns (Value_Timestamp (Timestamp_make (-1) (-5))), []).
Proof.
  destruct timestamp_sign_rule as (Hvalid & _ & _ & Hvisit).
  split.
  - apply (proj1 (proj2 (Hvalid (-1) 5))). lia.
  - apply Hvisit; vm_compute; [discriminate | reflexivity].
Defined.

End DriverFacts.

(** ** Utilities *)

Module UtilitiesFacts.
Import Bytes BytesFacts Utilities.

Lemma uint64_small z : 0 <= z < 2 ^ 64 -> uint64 z = z.
Proof. intros H. unfold uint64. apply Z.mod_small. exact H. Qed.

Lemma uint64_range z : 0 <= uint64 z < 2 ^ 64.
Proof. unfold uint64. apply Z.mod_pos_bound. lia. Qed.

(** *** Casts *)

(** X1: [to_ref]/[to_size_t] on a 64-bit [size_t]: the debug assertion
    holds for every [int64_t], negative ones included; a non-negative value
    is returned unchanged, a negative one wraps to [v + 2^64]; the cast
    back to [int64_t] gives [v] again. *)
Theorem to_ref_round_trip v :
  - 2 ^ 63 <= v < 2 ^ 63 ->
  to_ref_assertion v = true
  /\ to_size_t v = to_ref v
  /\ (0 <= v -> to_ref v = v)
  /\ (v < 0 -> to_ref v = v + 2 ^ 64)
  /\ to_int64 (to_ref v) = v.
Proof.
  intros Hv. unfold to_ref_assertion, to_size_t, to_ref, to_int64.
  assert (Hneg : uint64 (-1) = 2 ^ 64 - 1) by reflexivity.
  pose proof (uint64_range v) as Hr.
  assert (Hpos : 0 <= v -> uint64 v = v) by (intros; apply uint64_small; lia).
  assert (Hwrap : v < 0 -> uint64 v = v + 2 ^ 64).
  { intros Hlt. unfold uint64.
    replace v with (v + 2 ^ 64 + (-1) * 2 ^ 64) at 1 by lia.
    rewrite Z.mod_add by lia. apply Z.mod_small. lia. }
  repeat split; auto.
  - rewrite Hneg. apply Z.leb_le. lia.
  - destruct (Z.lt_ge_cases v 0) as [Hlt | Hge].
    + rewrite (Hwrap Hlt).
      replace (v + 2 ^ 64 + 2 ^ 63) with (v + 2 ^ 63 + 1 * 2 ^ 64) by lia.
      rewrite Z.mod_add by lia. rewrite Z.mod_small by lia. lia.
    + rewrite (Hpos Hge). rewrite Z.mod_small by lia. lia.
Qed.

Lemma to_ref_round_trip_witness :
  to_ref (-8) = 2 ^ 64 - 8 /\ to_int64 (to_ref (-8)) = -8.
Proof.
  destruct (to_ref_round_trip (-8) ltac:(lia)) as (_ & _ & _ & Hneg & Hback).
  split; [rewrite Hneg by lia; reflexivity | exact Hback].
Defined.

(** *** Rounding *)

(** X2: [round_up(p, align)], for a non-zero alignment and as long as
    [p + align] does not pass [2^64], returns the least multiple of [align]
    that is not below [p]; it lies less than [align] above [p]. *)
Theorem round_up_least_multiple p align :
  0 < align -> 0 <= p -> p + align <= 2 ^ 64 ->
  exists r,
    round_up p align = Some r
    /\ r mod align = 0
    /\ p <= r < p + align
    /\ forall m, m mod align = 0 -> p <= m -> r <= m.
Proof.
  intros Ha Hp Hmax. unfold round_up.
  destruct (align =? 0) eqn:Ez; [apply Z.eqb_eq in Ez; lia |].
  pose proof (Z.mod_pos_bound p align Ha) as Hm.
  pose proof (Z.div_mod p align ltac:(lia)) as Hdiv.
  destruct (p mod align =? 0) eqn:E.
  - apply Z.eqb_eq in E. exists p. rewrite Z.add_0_r, uint64_small by lia.
    repeat split; try assumption; lia.
  - apply Z.eqb_neq in E.
    rewrite (uint64_small (align - p mod align)) by lia.
    rewrite uint64_small by lia.
    exists (p + (align - p mod align)). repeat split; try lia.
    + replace (p + (align - p mod align)) with ((p / align + 1) * align) by lia.
      apply Z.mod_mul. lia.
    + intros m Hmul Hle.
      pose proof (Z.div_mod m align ltac:(lia)) as Hm'. rewrite Hmul in Hm'.
      assert (p / align < m / align) by nia.
      nia.
Qed.

Lemma round_up_least_multiple_witness :
  round_up 13 8 = Some 16 /\ round_up 16 8 = Some 16.
Proof.
  split.
  - destruct (round_up_least_multiple 13 8 ltac:(lia) ltac:(lia) ltac:(lia))
      as (r & Hr & Hmod & Hrange & _).
    rewrite Hr. f_equal.
    assert (H8 : r = 8 * (r / 8) + r mod 8) by (apply Z.div_mod; lia). lia.
  - reflexivity.
Defined.

(** X3: [round_up] close to the top of the address space: when the next
    multiple of [align] above [p] would pass [2^64], the sum wraps and the
    value returned lies below [p]. *)
Theorem round_up_wraps p align :
  0 < align < 2 ^ 64 -> 0 <= p < 2 ^ 64 -> p mod align <> 0 ->
  2 ^ 64 <= p + (align - p mod align) ->
  round_up p align = Some (p + (align - p mod align) - 2 ^ 64)
  /\ 0 <= p + (align - p mod align) - 2 ^ 64 < p.
Proof.
  intros Ha Hp Hne Hwrap. unfold round_up.
  destruct (align =? 0) eqn:Ez; [apply Z.eqb_eq in Ez; lia |].
  apply Z.eqb_neq in Hne. rewrite Hne.
  pose proof (Z.mod_pos_bound p align ltac:(lia)) as Hm.
  rewrite (uint64_small (align - p mod align)) by lia.
  split; [| lia]. f_equal. unfold uint64.
  replace (p + (align - p mod align))
    with ((p + (align - p mod align) - 2 ^ 64) + 1 * 2 ^ 64) at 1 by lia.
  rewrite Z.mod_add by lia. apply Z.mod_small. lia.
Qed.

Lemma round_up_wraps_witness :
  round_up (2 ^ 64 - 1) 8 = Some 0.
Proof.
  exact (proj1 (round_up_wraps (2 ^ 64 - 1) 8 ltac:(lia) ltac:(lia)
                  ltac:(vm_compute; discriminate) ltac:(vm_compute; discriminate))).
Defined.

Lemma land_uint64 p x : 0 <= p < 2 ^ 64 -> Z.land p (uint64 x) = Z.land p x.
Proof.
  intros Hp. unfold uint64. rewrite <- (Z.land_ones x 64) by lia.
  rewrite (Z.land_comm x), Z.land_assoc, (Z.land_ones p 64) by lia.
  rewrite (Z.mod_small p) by lia. reflexivity.
Qed.

Lemma clear_low_bits p k :
  0 <= k -> Z.land p (Z.lnot (2 ^ k - 1)) = p - p mod 2 ^ k.
Proof.
  intros Hk.
  replace (2 ^ k - 1) with (Z.ones k) by (rewrite Z.ones_equiv; lia).
  rewrite <- Z.ldiff_land, Z.ldiff_ones_r by lia.
  rewrite Z.shiftl_mul_pow2, Z.shiftr_div_pow2 by lia.
  pose proof (Z.div_mod p (2 ^ k) ltac:(lia)). lia.
Qed.

Lemma round_down_value p k :
  0 <= k < 64 -> 0 <= p < 2 ^ 64 -> round_down p (2 ^ k) = p - p mod 2 ^ k.
Proof.
  intros Hk Hp.
  assert (Hpow : 0 < 2 ^ k <= 2 ^ 63).
  { split; [lia |]. apply Z.pow_le_mono_r; lia. }
  unfold round_down. rewrite (uint64_small (2 ^ k - 1)) by lia.
  rewrite land_uint64 by exact Hp. apply clear_low_bits. lia.
Qed.

(** X4: [round_down(p, align)] for an alignment that is a power of two
    clears the low bits: the result is [p - p % align], the greatest
    multiple of [align] that is not above [p]. *)
Theorem round_down_power_of_two p k :
  0 <= k < 64 -> 0 <= p < 2 ^ 64 ->
  round_down p (2 ^ k) = p - p mod 2 ^ k
  /\ round_down p (2 ^ k) mod 2 ^ k = 0
  /\ p - 2 ^ k < round_down p (2 ^ k) <= p
  /\ forall m, m mod 2 ^ k = 0 -> m <= p -> m <= round_down p (2 ^ k).
Proof.
  intros Hk Hp.
  assert (Hpow : 0 < 2 ^ k <= 2 ^ 63).
  { split; [lia |]. apply Z.pow_le_mono_r; lia. }
  assert (H : round_down p (2 ^ k) = p - p mod 2 ^ k)
    by (apply round_down_value; assumption).
  pose proof (Z.mod_pos_bound p (2 ^ k) ltac:(lia)) as Hm.
  pose proof (Z.div_mod p (2 ^ k) ltac:(lia)) as Hdiv.
  rewrite H. repeat split; try lia.
  - replace (p - p mod 2 ^ k) with (p / 2 ^ k * 2 ^ k) by lia.
    apply Z.mod_mul. lia.
  - intros m Hmul Hle.
    pose proof (Z.div_mod m (2 ^ k) ltac:(lia)) as Hm'. rewrite Hmul in Hm'.
    assert (m / 2 ^ k <= p / 2 ^ k) by (apply Z.div_le_mono; lia).
    nia.
Qed.

Lemma round_down_power_of_two_witness :
  round_down 13 8 = 8 /\ round_down 16 8 = 16.
Proof.
  split.
  - exact (proj1 (round_down_power_of_two 13 3 ltac:(lia) ltac:(lia))).
  - exact (proj1 (round_down_power_of_two 16 3 ltac:(lia) ltac:(lia))).
Defined.

(** X5: for a power-of-two alignment the two roundings compose:
    [round_up(p, align)] is [round_down(p + align - 1, align)], as long as
    [p + align] does not pass [2^64]. *)
Theorem round_up_is_round_down p k :
  0 <= k < 64 -> 0 <= p -> p + 2 ^ k <= 2 ^ 64 ->
  round_up p (2 ^ k) = Some (round_down (p + 2 ^ k - 1) (2 ^ k)).
Proof.
  intros Hk Hp Hmax.
  assert (Hpow : 0 < 2 ^ k <= 2 ^ 63).
  { split; [lia |]. apply Z.pow_le_mono_r; lia. }
  rewrite (round_down_value (p + 2 ^ k - 1) k Hk ltac:(lia)).
  unfold round_up.
  destruct (2 ^ k =? 0) eqn:Ez; [apply Z.eqb_eq in Ez; lia |].
  pose proof (Z.mod_pos_bound p (2 ^ k) ltac:(lia)) as Hm.
  pose proof (Z.div_mod p (2 ^ k) ltac:(lia)) as Hdiv.
  destruct (p mod 2 ^ k =? 0) eqn:E.
  - apply Z.eqb_eq in E.
    assert (Hr : (p + 2 ^ k - 1) mod 2 ^ k = 2 ^ k - 1).
    { symmetry. apply (Z.mod_unique _ _ (p / 2 ^ k)); lia. }
    rewrite Hr, Z.add_0_r, uint64_small by lia. f_equal. lia.
  - apply Z.eqb_neq in E.
    assert (Hr : (p + 2 ^ k - 1) mod 2 ^ k = p mod 2 ^ k - 1).
    { symmetry. apply (Z.mod_unique _ _ (p / 2 ^ k + 1)); lia. }
    rewrite Hr, (uint64_small (2 ^ k - p mod 2 ^ k)), uint64_small by lia.
    f_equal. lia.
Qed.

Lemma round_up_is_round_down_witness :
  round_up 1021 8 = Some (round_down 1028 8).
Proof.
  exact (round_up_is_round_down 1021 3 ltac:(lia) ltac:(lia) ltac:(vm_compute; discriminate)).
Defined.

(** *** The rolling checksum *)

Lemma run_app t d1 d2 : run t (d1 ++ d2) = run (run t d1) d2.
Proof. unfold run. apply foldl_app. Qed.

Lemma step_below t b :
  remainder_len t + 1 <> 8 -> step t b = push t b.
Proof.
  intros H. unfold step. cbn [push remainder_len].
  destruct (remainder_len t + 1 =? 8) eqn:E; [apply Z.eqb_eq in E; lia | reflexivity].
Qed.

Lemma step_full t b :
  remainder_len t + 1 = 8 -> step t b = flush (push t b).
Proof.
  intros H. unfold step. cbn [push remainder_len]. rewrite H. reflexivity.
Qed.

Lemma step_remainder_len t b :
  0 <= remainder_len t < 8 -> 0 <= remainder_len (step t b) < 8.
Proof.
  intros H. destruct (Z.eq_dec (remainder_len t + 1) 8) as [E|E].
  - rewrite step_full by exact E. cbn. lia.
  - rewrite step_below by exact E. cbn. lia.
Qed.

Lemma run_remainder_len data : forall t,
  0 <= remainder_len t < 8 -> 0 <= remainder_len (run t data) < 8.
Proof.
  induction data as [|b data IH]; intros t H; [exact H |].
  apply IH, step_remainder_len, H.
Qed.

(** The first loop stops either at the end of the data, or with a full
    remainder; the machine has then read the same bytes. *)
Lemma fill_remainder_run data : forall t rest t1,
  0 <= remainder_len t < 8 ->
  fill_remainder data t = (rest, t1) ->
  exists pre,
    data = pre ++ rest
    /\ ((remainder_len t1 < 8 /\ rest = [] /\ run t pre = t1)
        \/ (remainder_len t1 = 8 /\ run t pre = flush t1)).
Proof.
  induction data as [|b data IH]; intros t rest t1 Hlen Hfill.
  - cbn in Hfill. inversion Hfill; subst. exists []. split; [reflexivity |].
    left. repeat split. lia.
  - cbn [fill_remainder] in Hfill.
    destruct (remainder_len t <? 8) eqn:E; [| apply Z.ltb_ge in E; lia].
    destruct (Z.eq_dec (remainder_len t + 1) 8) as [Hfull | Hbelow].
    + assert (Hstop : fill_remainder data (push t b) = (data, push t b)).
      { destruct data; cbn [fill_remainder push remainder_len]; [reflexivity |].
        rewrite Hfull. reflexivity. }
      rewrite Hstop in Hfill. inversion Hfill; subst.
      exists [b]. split; [reflexivity |]. right. split; [exact Hfull |].
      cbn. apply step_full. exact Hfull.
    + destruct (IH (push t b) rest t1) as (pre & Hdata & Hcases);
        [cbn; lia | exact Hfill |].
      exists (b :: pre). split; [cbn; rewrite Hdata; reflexivity |].
      unfold run in *. cbn [foldl]. rewrite step_below by exact Hbelow.
      exact Hcases.
Qed.

(** Eight bytes read by the machine from an empty remainder are one word
    of the word loop. *)
Lemma run_word t b0 b1 b2 b3 b4 b5 b6 b7 :
  remainder_len t = 0 -> remainder t = 0 ->
  run t [b0; b1; b2; b3; b4; b5; b6; b7]
  = accumulate t (read_word [b0; b1; b2; b3; b4; b5; b6; b7]).
Proof.
  destruct t as [rem len b a res]. cbn [remainder_len remainder].
  intros -> ->. reflexivity.
Qed.

Lemma sum_words_run n : forall data t,
  (length data <= n)%nat ->
  remainder_len t = 0 -> remainder t = 0 ->
  exists pre rest t',
    sum_words data t = (rest, t')
    /\ data = pre ++ rest /\ (length rest < 8)%nat
    /\ run t pre = t'
    /\ remainder_len t' = 0 /\ remainder t' = 0.
Proof.
  induction n as [|n IH]; intros data t Hn Hlen Hrem.
  - destruct data; [| cbn in Hn; lia].
    exists [], [], t. cbn. repeat split; auto; lia.
  - destruct data as [|b0 [|b1 [|b2 [|b3 [|b4 [|b5 [|b6 [|b7 data]]]]]]]];
      try (eexists [], _, t; cbn; repeat split; auto; cbn; lia).
    cbn [sum_words].
    destruct (IH data (accumulate t (read_word [b0; b1; b2; b3; b4; b5; b6; b7])))
      as (pre & rest & t' & Hsum & Hdata & Hrest & Hrun & Hl & Hr);
      [cbn in Hn |- *; lia | exact Hlen | exact Hrem |].
    exists ([b0; b1; b2; b3; b4; b5; b6; b7] ++ pre), rest, t'.
    repeat split; auto.
    + rewrite Hdata. reflexivity.
    + rewrite run_app, run_word by assumption. exact Hrun.
Qed.

Lemma push_tail_run data : forall t,
  0 <= remainder_len t ->
  remainder_len t + Z.of_nat (length data) < 8 ->
  push_tail data t = run t data.
Proof.
  unfold push_tail, run.
  induction data as [|b data IH]; intros t H0 H; [reflexivity |].
  cbn [foldl length] in *. rewrite step_below by lia.
  apply IH; cbn; lia.
Qed.

(** [checksum_rolling] is the byte-at-a-time machine. *)
Lemma checksum_rolling_run data t :
  0 <= remainder_len t < 8 ->
  checksum_rolling data t = set_result (run t data).
Proof.
  intros Hlen. unfold checksum_rolling.
  destruct (fill_remainder data t) as [rest t1] eqn:Hfill.
  destruct (fill_remainder_run data t rest t1 Hlen Hfill)
    as (pre & Hdata & [(Hlt & Hrest & Hrun) | (Hfull & Hrun)]).
  - destruct (remainder_len t1 <? 8) eqn:E; [| apply Z.ltb_ge in E; lia].
    subst. rewrite app_nil_r. reflexivity.
  - rewrite Hfull. cbn [Z.ltb Z.compare Pos.compare Pos.compare_cont].
    destruct (sum_words_run (length rest) rest (flush t1) (le_n _) eq_refl eq_refl)
      as (pre2 & rest2 & t3 & Hsum & Hrest & Hshort & Hrun2 & Hl3 & Hr3).
    rewrite Hsum.
    rewrite push_tail_run by lia.
    rewrite Hdata, Hrest, !run_app, Hrun, Hrun2. reflexivity.
Qed.

(** The machine does not look at the result field. *)
Lemma step_result_irrelevant t t' b :
  set_result t = set_result t' -> set_result (step t b) = set_result (step t' b).
Proof.
  destruct t, t'. unfold set_result. cbn. intros H. inversion H; subst.
  unfold step. cbn [push remainder_len].
  destruct (_ =? 8); reflexivity.
Qed.

Lemma run_result_irrelevant data : forall t t',
  set_result t = set_result t' -> set_result (run t data) = set_result (run t' data).
Proof.
  induction data as [|b data IH]; intros t t' H; [exact H |].
  apply IH, step_result_irrelevant, H.
Qed.

Lemma set_result_idem t : set_result (set_result t) = set_result t.
Proof. reflexivity. Qed.

(** X6: the checksum can be fed in pieces: rolling over [d1] and then
    over [d2] leaves exactly the state, result included, that rolling over
    [d1 ++ d2] in one call leaves, wherever the cut falls with respect to
    the 8-byte words; the remainder counter stays below 8. *)
Theorem checksum_rolling_app d1 d2 t :
  0 <= remainder_len t < 8 ->
  checksum_rolling d2 (checksum_rolling d1 t) = checksum_rolling (d1 ++ d2) t
  /\ 0 <= remainder_len (checksum_rolling d1 t) < 8.
Proof.
  intros Hlen.
  assert (Hlen1 : 0 <= remainder_len (checksum_rolling d1 t) < 8).
  { rewrite checksum_rolling_run by exact Hlen. cbn [set_result remainder_len].
    apply run_remainder_len, Hlen. }
  split; [| exact Hlen1].
  rewrite (checksum_rolling_run d2) by exact Hlen1.
  rewrite !checksum_rolling_run by exact Hlen.
  rewrite run_app. apply run_result_irrelevant. apply set_result_idem.
Qed.

Lemma checksum_rolling_app_witness :
  checksum_rolling [x05; x06; x07; x08; x09; x0a; x0b; x0c; x0d]
    (checksum_rolling [x01; x02; x03; x04] checksum_init)
  = checksum_rolling
      [x01; x02; x03; x04; x05; x06; x07; x08; x09; x0a; x0b; x0c; x0d]
      checksum_init.
Proof.
  exact (proj1 (checksum_rolling_app [x01; x02; x03; x04]
                  [x05; x06; x07; x08; x09; x0a; x0b; x0c; x0d]
                  checksum_init ltac:(cbn; lia))).
Defined.

(** *** Words *)

Lemma lor_high_low A B :
  0 <= A < 2 ^ 56 -> Z.lor A (B * 2 ^ 56) = A + B * 2 ^ 56.
Proof.
  intros HA.
  assert (Hland : Z.land A (B * 2 ^ 56) = 0).
  { rewrite <- Z.shiftl_mul_pow2 by lia. apply Z.bits_inj'. intros n Hn.
    rewrite Z.land_spec, Z.bits_0.
    destruct (Z.lt_ge_cases n 56) as [Hlow | Hhigh].
    - rewrite Z.shiftl_spec_low by exact Hlow. apply andb_false_r.
    - destruct (Z.eq_dec A 0) as [-> | Hne]; [rewrite Z.bits_0; reflexivity |].
      rewrite (Z.bits_above_log2 A n); [reflexivity | lia |].
      assert (Z.log2 A < 56) by (apply Z.log2_lt_pow2; lia). lia. }
  rewrite <- Z.lxor_lor by exact Hland. symmetry.
  apply Z.add_nocarry_lxor. exact Hland.
Qed.

Lemma shift_in_add x b :
  0 <= x < 2 ^ 64 ->
  shift_in x b = x / 256 + byte_to_Z b * 2 ^ 56 /\ 0 <= shift_in x b < 2 ^ 64.
Proof.
  intros Hx. pose proof (byte_to_Z_range b) as Hb.
  assert (Hdiv : 0 <= x / 256 < 2 ^ 56).
  { split; [apply Z.div_pos; lia | apply Z.div_lt_upper_bound; lia]. }
  assert (H : shift_in x b = x / 256 + byte_to_Z b * 2 ^ 56).
  { unfold shift_in. rewrite Z.shiftr_div_pow2, Z.shiftl_mul_pow2 by lia.
    change (7 * 8) with 56. change (2 ^ 8) with 256.
    rewrite uint64_small by lia. apply lor_high_low. exact Hdiv. }
  split; [exact H | rewrite H; lia].
Qed.

(** Shifting bytes in from the top: after [n] bytes the old contents have
    moved down by [n] bytes and the new bytes stand above them, the first
    one lowest. *)
Lemma foldl_shift_in bs : forall x,
  0 <= x < 2 ^ 64 -> (length bs <= 8)%nat ->
  foldl shift_in x bs
  = x / 2 ^ (8 * Z.of_nat (length bs))
    + le_decode bs * 2 ^ (64 - 8 * Z.of_nat (length bs)).
Proof.
  induction bs as [|b bs IH]; intros x Hx Hlen.
  - cbn. rewrite Z.div_1_r. lia.
  - cbn [foldl]. destruct (shift_in_add x b Hx) as [Hs Hr].
    cbn [length] in Hlen. rewrite IH by (try exact Hr; lia). rewrite Hs.
    cbn [length le_decode]. rewrite Nat2Z.inj_succ.
    set (n := Z.of_nat (length bs)). assert (Hn : 0 <= n <= 7) by lia.
    replace (8 * Z.succ n) with (8 + 8 * n) by lia.
    replace (64 - (8 + 8 * n)) with (56 - 8 * n) by lia.
    replace (64 - 8 * n) with (8 + (56 - 8 * n)) by lia.
    rewrite !Z.pow_add_r by lia. change (2 ^ 8) with 256.
    assert (Hsplit : 2 ^ 56 = 2 ^ (56 - 8 * n) * 2 ^ (8 * n)).
    { rewrite <- Z.pow_add_r by lia. f_equal. lia. }
    set (P := 2 ^ (56 - 8 * n)) in *. set (Q := 2 ^ (8 * n)) in *.
    assert (HQ : 0 < Q) by (subst Q; lia).
    rewrite Hsplit.
    replace (x / 256 + byte_to_Z b * (P * Q)) with (x / 256 + byte_to_Z b * P * Q) by lia.
    rewrite Z.div_add by lia. rewrite Z.div_div by lia. lia.
Qed.

Lemma read_word_le bytes :
  length bytes = 8%nat ->
  read_word bytes = le_decode bytes /\ 0 <= read_word bytes < 2 ^ 64.
Proof.
  intros Hlen. unfold read_word.
  rewrite foldl_shift_in by lia. rewrite Hlen.
  change (0 / 2 ^ (8 * Z.of_nat 8)) with 0.
  change (2 ^ (64 - 8 * Z.of_nat 8)) with 1.
  pose proof (le_decode_range bytes) as Hr. rewrite Hlen in Hr.
  change (256 ^ Z.of_nat 8) with (2 ^ 64) in Hr. lia.
Qed.

(** X7: the two word reads of [checksum_rolling] agree: the portable
    loop that shifts eight bytes in from the top yields the little-endian
    value that the 64-bit load of the x86 branch reads. *)
Theorem read_word_portable_is_x86 bytes :
  length bytes = 8%nat ->
  read_word bytes = read_word_x86 bytes
  /\ 0 <= read_word bytes < 2 ^ 64.
Proof.
  intros Hlen. unfold read_word_x86. apply read_word_le. exact Hlen.
Qed.

Lemma read_word_portable_is_x86_witness :
  read_word [x01; x02; x03; x04; x05; x06; x07; x08] = 0x0807060504030201.
Proof.
  rewrite (proj1 (read_word_portable_is_x86
                    [x01; x02; x03; x04; x05; x06; x07; x08] eq_refl)).
  reflexivity.
Defined.

(** *** What the checksum depends on *)

Lemma foldl_push_values data : forall t,
  a_val (foldl push t data) = a_val t
  /\ b_val (foldl push t data) = b_val t
  /\ remainder_len (foldl push t data) = remainder_len t + Z.of_nat (length data).
Proof.
  induction data as [|b data IH]; intros t; [cbn; lia |].
  cbn [foldl length]. destruct (IH (push t b)) as (Ha & Hb & Hl).
  rewrite Ha, Hb, Hl. cbn [push a_val b_val remainder_len]. lia.
Qed.

(** Fewer bytes than the remainder still has room for change neither sum. *)
Lemma run_short data t :
  0 <= remainder_len t ->
  remainder_len t + Z.of_nat (length data) < 8 ->
  a_val (run t data) = a_val t /\ b_val (run t data) = b_val t.
Proof.
  intros H0 H. rewrite <- push_tail_run by assumption. unfold push_tail.
  destruct (foldl_push_values data t) as (Ha & Hb & _). auto.
Qed.

Lemma uint64_add_r a b : uint64 (a + uint64 b) = uint64 (a + b).
Proof. unfold uint64. apply Z.add_mod_idemp_r. lia. Qed.

Lemma uint64_add_l a b : uint64 (uint64 a + b) = uint64 (a + b).
Proof. unfold uint64. apply Z.add_mod_idemp_l. lia. Qed.

Lemma uint64_mul_r a b : uint64 (a * uint64 b) = uint64 (a * b).
Proof. unfold uint64. apply Z.mul_mod_idemp_r. lia. Qed.

Lemma weighted_sum_uint64 ws : forall b,
  uint64 (weighted_sum ws (uint64 b)) = uint64 (weighted_sum ws b).
Proof.
  induction ws as [|w ws IH]; intros b; [reflexivity |].
  cbn [weighted_sum].
  rewrite <- uint64_add_l, uint64_mul_r, uint64_add_l.
  rewrite <- uint64_add_r, <- (IH (uint64 b + 1)), uint64_add_l, IH, uint64_add_r.
  reflexivity.
Qed.

(** From an empty remainder the machine sums the whole words of the data,
    each weighted by the running [b_val]. *)
Lemma run_words n : forall data t,
  (length data <= n)%nat ->
  remainder_len t = 0 -> remainder t = 0 ->
  uint64 (a_val (run t data))
  = uint64 (a_val t + weighted_sum (words data) (b_val t))
  /\ uint64 (b_val (run t data))
     = uint64 (b_val t + Z.of_nat (length (words data))).
Proof.
  induction n as [|n IH]; intros data t Hn Hlen Hrem.
  - destruct data; [| cbn in Hn; lia]. cbn. rewrite !Z.add_0_r. auto.
  - destruct data as [|b0 [|b1 [|b2 [|b3 [|b4 [|b5 [|b6 [|b7 data]]]]]]]];
      try (cbn [words weighted_sum length Z.of_nat]; rewrite !Z.add_0_r;
           match goal with
           | |- context [run t ?d] =>
               destruct (run_short d t ltac:(lia) ltac:(rewrite Hlen; cbn; lia))
                 as [-> ->]
           end; split; reflexivity).
    change (b0 :: b1 :: b2 :: b3 :: b4 :: b5 :: b6 :: b7 :: data)
      with ([b0; b1; b2; b3; b4; b5; b6; b7] ++ data).
    rewrite run_app, run_word by assumption.
    rewrite (proj1 (read_word_le [b0; b1; b2; b3; b4; b5; b6; b7] eq_refl)).
    set (w := le_decode [b0; b1; b2; b3; b4; b5; b6; b7]).
    destruct (IH data (accumulate t w)) as [Ha Hb];
      [cbn in Hn |- *; lia | exact Hlen | exact Hrem |].
    rewrite Ha, Hb. cbn [accumulate a_val b_val].
    change (words ([b0; b1; b2; b3; b4; b5; b6; b7] ++ data)) with (w :: words data).
    cbn [weighted_sum length]. split.
    + rewrite uint64_add_l.
      rewrite <- uint64_add_r, weighted_sum_uint64, uint64_add_r.
      set (T := weighted_sum (words data) (b_val t + 1)).
      replace (a_val t + uint64 (w * b_val t) + T)
        with (a_val t + T + uint64 (w * b_val t)) by lia.
      rewrite uint64_add_r. f_equal. lia.
    + rewrite uint64_add_l. f_equal. lia.
Qed.

Lemma checksum_words data :
  checksum data
  = uint64 (a_val checksum_init + b_val checksum_init
            + Z.of_nat (length (words data))
            + weighted_sum (words data) (b_val checksum_init)).
Proof.
  unfold checksum. rewrite checksum_rolling_run by (cbn; lia).
  cbn [set_result result].
  destruct (run_words (length data) data checksum_init (le_n _) eq_refl eq_refl)
    as [Ha Hb].
  rewrite <- uint64_add_l, Ha, uint64_add_l.
  rewrite <- uint64_add_r, Hb, uint64_add_r.
  f_equal. lia.
Qed.

(** X8: the checksum in closed form: with [w_0 .. w_(n-1)] the whole
    little-endian 8-byte words of the data, the result is
    [a + b + n + sum of w_i * (b + i)] modulo [2^64] for the two initial
    constants [a] and [b]; the bytes left over after the last whole word do
    not enter it. *)
Theorem checksum_closed_form data :
  checksum data
  = uint64 (a_val checksum_init + b_val checksum_init
            + Z.of_nat (length (words data))
            + weighted_sum (words data) (b_val checksum_init)).
Proof. exact (checksum_words data). Qed.

Lemma words_app_tail n : forall d tail,
  (length d <= n)%nat ->
  Z.of_nat (length d) mod 8 = 0 -> (length tail < 8)%nat ->
  words (d ++ tail) = words d.
Proof.
  induction n as [|n IH]; intros d tail Hn Hd Htail.
  - destruct d; [| cbn in Hn; lia]. cbn [app].
    do 8 (destruct tail as [ | ? tail ]; [reflexivity | ]). cbn in Htail. lia.
  - destruct d as [|b0 [|b1 [|b2 [|b3 [|b4 [|b5 [|b6 [|b7 d]]]]]]]];
      try (cbn in Hd; discriminate Hd).
    + cbn [app].
      do 8 (destruct tail as [ | ? tail ]; [reflexivity | ]). cbn in Htail. lia.
    + cbn [app words]. f_equal. apply IH; [cbn in Hn; lia | | exact Htail].
      cbn [length] in Hd. rewrite !Nat2Z.inj_succ in Hd.
      match type of Hd with
      | ?x mod 8 = 0 => replace x with (Z.of_nat (length d) + 1 * 8) in Hd by lia
      end.
      rewrite Z.mod_add in Hd by lia. exact Hd.
Qed.

(** X9: the checksum sees whole words only: up to seven bytes after the
    last whole 8-byte word leave it unchanged, and so every input shorter
    than 8 bytes has the checksum of the empty input. *)
Theorem checksum_ignores_tail :
  (forall d tail,
     Z.of_nat (length d) mod 8 = 0 -> (length tail < 8)%nat ->
     checksum (d ++ tail) = checksum d)
  /\ (forall data, (length data < 8)%nat -> checksum data = checksum []).
Proof.
  assert (H : forall d tail,
     Z.of_nat (length d) mod 8 = 0 -> (length tail < 8)%nat ->
     checksum (d ++ tail) = checksum d).
  { intros d tail Hd Htail. rewrite !checksum_words.
    rewrite (words_app_tail (length d)) by (auto; lia). reflexivity. }
  split; [exact H |].
  intros data Hshort. apply (H [] data); [reflexivity | exact Hshort].
Qed.

Lemma checksum_ignores_tail_witness :
  checksum [x01; x02; x03] = checksum [xff; xfe; xfd; xfc; xfb; xfa; xf9].
Proof.
  rewrite (proj2 checksum_ignores_tail [x01; x02; x03] ltac:(cbn; lia)).
  rewrite (proj2 checksum_ignores_tail [xff; xfe; xfd; xfc; xfb; xfa; xf9]
             ltac:(cbn; lia)).
  reflexivity.
Defined.

End UtilitiesFacts.

(** ** The thread-test shim *)

Module PthreadTestFacts.
Import PthreadTest.

Lemma half_step a x :
  0 < a -> a * 65535 + 65535 < 2 ^ 32 -> 0 <= x < 2 ^ 32 ->
  uint32 (uint32 (a * Z.land x 65535) + Z.shiftr x 16)
  = a * (x mod 65536) + x / 65536
  /\ (0 < x -> 0 < a * (x mod 65536) + x / 65536 < 2 ^ 32)
  /\ (x = 0 -> a * (x mod 65536) + x / 65536 = 0).
Proof.
  intros Ha Hbound Hx.
  change 65535 with (Z.ones 16) at 1.
  rewrite Z.land_ones, Z.shiftr_div_pow2 by lia. change (2 ^ 16) with 65536.
  pose proof (Z.mod_pos_bound x 65536 ltac:(lia)) as Hm.
  pose proof (Z.div_mod x 65536 ltac:(lia)) as Hd.
  assert (Hq : 0 <= x / 65536 < 65536).
  { split; [apply Z.div_pos; lia | apply Z.div_lt_upper_bound; lia]. }
  unfold uint32. rewrite (Z.mod_small (a * (x mod 65536))) by nia.
  rewrite Z.mod_small by nia.
  split; [reflexivity |]. split; [nia |].
  intros Hz. rewrite Hz in *. change (0 mod 65536) with 0. change (0 / 65536) with 0. lia.
Qed.

(** X10: the two multiply-with-carry halves of [ptf_fastrand] never
    overflow their 32 bits, a half that is not zero never becomes zero, and
    a half that is zero stays zero; so from the initial statics [u = v = 1]
    neither half is ever zero, after any number of calls. *)
Theorem ptf_fastrand_never_zero :
  (forall s,
     0 <= u s < 2 ^ 32 -> 0 <= v s < 2 ^ 32 ->
     let s' := snd (ptf_fastrand s) in
     v s' = 36969 * (v s mod 65536) + v s / 65536
     /\ u s' = 18000 * (u s mod 65536) + u s / 65536
     /\ (0 < v s -> 0 < v s' < 2 ^ 32) /\ (0 < u s -> 0 < u s' < 2 ^ 32)
     /\ (v s = 0 -> v s' = 0) /\ (u s = 0 -> u s' = 0))
  /\ (forall n,
        let s := fastrand_after n fastrand_init in
        0 < u s < 2 ^ 32 /\ 0 < v s < 2 ^ 32).
Proof.
  assert (Hstep : forall s,
     0 <= u s < 2 ^ 32 -> 0 <= v s < 2 ^ 32 ->
     let s' := snd (ptf_fastrand s) in
     v s' = 36969 * (v s mod 65536) + v s / 65536
     /\ u s' = 18000 * (u s mod 65536) + u s / 65536
     /\ (0 < v s -> 0 < v s' < 2 ^ 32) /\ (0 < u s -> 0 < u s' < 2 ^ 32)
     /\ (v s = 0 -> v s' = 0) /\ (u s = 0 -> u s' = 0)).
  { intros s Hu Hv. cbn [ptf_fastrand snd u v].
    destruct (half_step 36969 (v s) ltac:(lia) ltac:(lia) Hv) as (Ev & Pv & Zv).
    destruct (half_step 18000 (u s) ltac:(lia) ltac:(lia) Hu) as (Eu & Pu & Zu).
    rewrite Ev, Eu. auto 10. }
  split; [exact Hstep |].
  assert (Hall : forall n s,
            0 < u s < 2 ^ 32 -> 0 < v s < 2 ^ 32 ->
            0 < u (fastrand_after n s) < 2 ^ 32
            /\ 0 < v (fastrand_after n s) < 2 ^ 32).
  { induction n as [|n IH]; intros s Hu Hv; [auto |].
    cbn [fastrand_after].
    destruct (Hstep s ltac:(lia) ltac:(lia)) as (_ & _ & Pv & Pu & _).
    apply IH; [apply Pu | apply Pv]; lia. }
  intros n. apply Hall; cbn; lia.
Qed.

Lemma ptf_fastrand_never_zero_witness :
  0 < u (fastrand_after 5 fastrand_init) /\ 0 < v (fastrand_after 5 fastrand_init).
Proof.
  destruct (proj2 ptf_fastrand_never_zero 5%nat) as [Hu Hv].
  split; [exact (proj1 Hu) | exact (proj1 Hv)].
Defined.

End PthreadTestFacts.

(** ** More of the query-language driver *)

Module DriverMoreFacts.
Import Driver DriverFacts.

(** *** Compiled constants *)

Lemma argument_value_constant args arg_no type s :
  argument_value args arg_no type = Returns (Some s) ->
  has_constant_evaluation s = true.
Proof.
  unfold argument_value, obind. intros H.
  destruct type; repeat case_match; simplify_eq; reflexivity.
Qed.

Lemma ConstantNode_switch_constant env drv node hint st s st' :
  ConstantNode_switch env drv node hint st = (Returns (Some s), st') ->
  has_constant_evaluation s = true.
Proof.
  unfold ConstantNode_switch, bind, ret, throw, lift, push_buffer, set_last_buffer.
  destruct node as [type text]; cbn [ConstantNode_type Driver.text].
  intros H.
  destruct type; try (repeat case_match; simplify_eq; reflexivity).
  repeat case_match; simplify_eq; try reflexivity.
  eapply argument_value_constant. eassumption.
Qed.

Lemma ConstantNode_visit_value env drv node hint st s st' :
  ConstantNode_visit env drv node hint st = (Returns s, st') ->
  has_constant_evaluation s = true.
Proof.
  unfold ConstantNode_visit. intros H.
  apply bind_inv in H. destruct H as (r & st1 & Hswitch & Hret).
  destruct r as [s0|]; [| discriminate Hret].
  unfold ret in Hret. inversion Hret; subst.
  exact (ConstantNode_switch_constant _ _ _ _ _ _ _ Hswitch).
Qed.

Lemma constant_not_list s : has_constant_evaluation s = true -> is_ColumnListBase s = false.
Proof. destruct s; cbn; intros H; try discriminate H; reflexivity. Qed.



(** X12: the scratch buffers are touched by base64 constants only: every
    other constant leaves them as they were, whether it compiles or fails,
    and a base64 constant appends exactly one buffer, which on success
    holds the very bytes the compiled constant carries. *)
Theorem ConstantNode_visit_buffers env drv node hint st r st' :
  ConstantNode_visit env drv node hint st = (r, st') ->
  (ConstantNode_type node <> BASE64 -> st' = st)
  /\ (ConstantNode_type node = BASE64 ->
      exists b,
        st' = st ++ [b]
        /\ forall s, r = Returns s ->
             s = Value_BinaryData (Some b)
             \/ s = ConstantStringValue (Some (string_of_list_byte b))).
Proof.
  unfold ConstantNode_visit, ConstantNode_switch, bind, ret, throw, lift,
    push_buffer, set_last_buffer.
  destruct node as [type text]; cbn [ConstantNode_type Driver.text].
  intros H. split.
  - intros Hne. destruct type; try contradiction;
      repeat case_match; simplify_eq; reflexivity.
  - intros ->.
    destruct (base64_decode env _ _) as [decoded|].
    + rewrite length_app, Nat.add_sub, take_app_length in H.
      exists decoded.
      repeat case_match; simplify_eq; (split; [reflexivity |]);
        intros s Hs; simplify_eq; auto.
    + simplify_eq. eexists. split; [reflexivity |]. intros s Hs. discriminate Hs.
Qed.

Lemma ConstantNode_visit_buffers_witness :
  snd (ConstantNode_visit Demo.env Demo.drv
         {| ConstantNode_type := INFINITY_VAL; text := "inf" |} type_Int [[x01]])
  = [[x01]].
Proof.
  destruct (ConstantNode_visit Demo.env Demo.drv
              {| ConstantNode_type := INFINITY_VAL; text := "inf" |} type_Int [[x01]])
    as [r st'] eqn:E.
  exact (proj1 (ConstantNode_visit_buffers _ _ _ _ _ _ _ E) ltac:(discriminate)).
Defined.

(** *** Bound arguments *)

(** X13: argument substitution over a vector of [Mixed] is faithful: for
    [$n] with [n] inside the vector, a null argument compiles to the typed
    null value, an object link is refused as an unsupported comparison, and
    every other argument compiles to a constant that carries exactly the
    bound value and its type; the hint plays no part and the typed getters
    never trip their assertion. *)
Theorem argument_substitution env table g args text rest n m hint st :
  substr text 1 npos = Returns rest ->
  Z.to_nat (to_size_t (strtol env rest 10)) = n ->
  args !! n = Some m ->
  let drv := {| drv_base_table := table; get_parent_group := g;
                m_args := MixedArguments args |} in
  let visit := ConstantNode_visit env drv
                 {| ConstantNode_type := ARG; text := text |} hint st in
  (m = Mixed_null -> visit = (Returns Value_null, st))
  /\ ((exists k, m = Mixed_Link k) ->
      visit = (Throws (runtime_error
                 ("Unsupported comparison between property of type '"
                  +:+ get_data_type_name env hint +:+ "' and constant value '"
                  +:+ text +:+ "'")), st))
  /\ (m <> Mixed_null -> (forall k, m <> Mixed_Link k) ->
      exists s,
        visit = (Returns s, st)
        /\ get_mixed s = m /\ get_type s = Mixed_get_type m).
Proof.
  intros Hrest Hn Hm drv visit. subst visit.
  unfold ConstantNode_visit, ConstantNode_switch, bind, ret, throw, lift;
    cbn [ConstantNode_type Driver.text].
  assert (Hat : at_ args n = Returns m) by (unfold at_; rewrite Hm; reflexivity).
  rewrite Hrest, Hn. subst drv. cbn [m_args MixedArguments is_argument_null
    type_for_argument]. rewrite Hat. cbn [obind].
  split; [intros ->; reflexivity |]. split.
  - intros [k ->]. reflexivity.
  - intros Hnull Hlink.
    destruct m; try contradiction; cbn [Mixed_is_null Mixed_get_type];
      unfold argument_value;
      cbn [MixedArguments long_for_argument string_for_argument
           binary_for_argument bool_for_argument float_for_argument
           double_for_argument timestamp_for_argument objectid_for_argument
           decimal128_for_argument uuid_for_argument];
      rewrite ?Hat; cbn;
      try (eexists; repeat split; reflexivity).
    exfalso. eapply Hlink. reflexivity.
Qed.

Lemma argument_substitution_witness :
  ConstantNode_visit Demo.env Demo.drv
    {| ConstantNode_type := ARG; text := "$1" |} type_Int []
  = (Returns (Value_Timestamp (Timestamp_make 100 0)), []).
Proof.
  destruct (proj2 (proj2 (argument_substitution Demo.env Demo.Person Demo.group
              [Mixed_null; Mixed_Timestamp (Timestamp_make 100 0)]
              "$1" "1" 1 (Mixed_Timestamp (Timestamp_make 100 0)) type_Int []
              ltac:(vm_compute; reflexivity) ltac:(vm_compute; reflexivity)
              ltac:(reflexivity)))
              ltac:(discriminate) ltac:(discriminate)) as (s & Hs & _).
  vm_compute. reflexivity.
Defined.

(** X14: an argument index past the end of the bound vector makes every
    accessor of [MixedArguments], and with them the [$n] constant, throw
    [std::out_of_range]; with no arguments bound every [$n] fails so. *)
Theorem argument_out_of_range env table g args text rest n hint st :
  substr text 1 npos = Returns rest ->
  Z.to_nat (to_size_t (strtol env rest 10)) = n ->
  (length args <= n)%nat ->
  let a := MixedArguments args in
  ConstantNode_visit env
    {| drv_base_table := table; get_parent_group := g; m_args := a |}
    {| ConstantNode_type := ARG; text := text |} hint st
  = (Throws out_of_range, st)
  /\ is_argument_null a n = Throws out_of_range
  /\ type_for_argument a n = Throws out_of_range
  /\ long_for_argument a n = Throws out_of_range
  /\ string_for_argument a n = Throws out_of_range
  /\ timestamp_for_argument a n = Throws out_of_range
  /\ objectid_for_argument a n = Throws out_of_range.
Proof.
  intros Hrest Hn Hlen a.
  assert (Hat : at_ args n = Throws out_of_range).
  { unfold at_. rewrite (lookup_ge_None_2 args n) by lia. reflexivity. }
  subst a. cbn [MixedArguments is_argument_null type_for_argument long_for_argument
    string_for_argument timestamp_for_argument objectid_for_argument].
  rewrite Hat. cbn [obind]. repeat split.
  unfold ConstantNode_visit, ConstantNode_switch, bind, ret, throw, lift;
    cbn [ConstantNode_type Driver.text m_args MixedArguments is_argument_null].
  rewrite Hrest, Hn, Hat. reflexivity.
Qed.

Lemma argument_out_of_range_witness :
  ConstantNode_visit Demo.env Demo.drv
    {| ConstantNode_type := ARG; text := "$7" |} type_Int []
  = (Throws out_of_range, []).
Proof.
  exact (proj1 (argument_out_of_range Demo.env Demo.Person Demo.group
                  [Mixed_null; Mixed_Timestamp (Timestamp_make 100 0)]
                  "$7" "7" 7 type_Int []
                  ltac:(vm_compute; reflexivity) ltac:(vm_compute; reflexivity)
                  ltac:(cbn; lia))).
Defined.

(** *** Delimited constants *)

Lemma substring_mid a b c :
  String.substring (String.length a) (String.length b) (a +:+ b +:+ c) = b.
Proof.
  induction a as [|x a IH].
  - rewrite append_nil_l. apply substring_take.
  - rewrite append_cons. cbn [String.length String.substring]. exact IH.
Qed.

Lemma substr_mid a b c : substr (a +:+ b +:+ c) (size a) (size b) = Returns b.
Proof.
  unfold substr. rewrite !size_append.
  pose proof (size_nonneg a). pose proof (size_nonneg b). pose proof (size_nonneg c).
  destruct (size a + (size b + size c) <? size a) eqn:E; [apply Z.ltb_lt in E; lia |].
  rewrite Z.min_l by lia. unfold size. rewrite !Nat2Z.id.
  rewrite substring_mid. reflexivity.
Qed.

Lemma size_t_sub_small a b : 0 <= b <= a -> a < 2 ^ 64 -> size_t_sub a b = a - b.
Proof. intros H1 H2. unfold size_t_sub. apply Z.mod_small. lia. Qed.

(** X15: the constants written between delimiters give up exactly what
    stands between them: a string literal its text without the two quote
    characters, [uuid(...)] and [oid(...)] the text between the five
    (four) opening characters and the closing one; nothing is pushed on the
    scratch buffers and the hint plays no part. *)
Theorem ConstantNode_visit_payload env drv hint st opening body closing :
  String.length closing = 1%nat ->
  size (opening +:+ body +:+ closing) < 2 ^ 64 ->
  let visit type :=
    ConstantNode_visit env drv
      {| ConstantNode_type := type; text := opening +:+ body +:+ closing |} hint st in
  (String.length opening = 1%nat ->
     visit STRING = (Returns (ConstantStringValue (Some body)), st))
  /\ (String.length opening = 5%nat ->
     visit UUID_T = (Returns (Value_UUID (UUID_of_string body)), st))
  /\ (String.length opening = 4%nat ->
     visit OID = (Returns (Value_ObjectId (ObjectId_of_string body)), st)).
Proof.
  intros Hc Hsize visit.
  assert (Hlen : forall n, String.length opening = n ->
            substr (opening +:+ body +:+ closing) (Z.of_nat n)
              (size_t_sub (size (opening +:+ body +:+ closing)) (Z.of_nat n + 1))
            = Returns body).
  { intros n Hn.
    pose proof (size_nonneg opening). pose proof (size_nonneg body).
    assert (Hcs : size closing = 1) by (unfold size; rewrite Hc; reflexivity).
    assert (Hos : size opening = Z.of_nat n) by (unfold size; rewrite Hn; reflexivity).
    rewrite !size_append in Hsize.
    rewrite size_t_sub_small by (rewrite ?size_append; lia).
    rewrite !size_append.
    replace (size opening + (size body + size closing) - (Z.of_nat n + 1))
      with (size body) by lia.
    rewrite <- Hos. apply substr_mid. }
  subst visit. unfold ConstantNode_visit, ConstantNode_switch, bind, ret, lift;
    cbn [ConstantNode_type Driver.text].
  repeat split; intros Ho.
  - pose proof (Hlen 1%nat Ho) as E.
    change (Z.of_nat 1 + 1) with 2 in E. change (Z.of_nat 1) with 1 in E.
    rewrite E. reflexivity.
  - pose proof (Hlen 5%nat Ho) as E.
    change (Z.of_nat 5 + 1) with 6 in E. change (Z.of_nat 5) with 5 in E.
    rewrite E. reflexivity.
  - pose proof (Hlen 4%nat Ho) as E.
    change (Z.of_nat 4 + 1) with 5 in E. change (Z.of_nat 4) with 4 in E.
    rewrite E. reflexivity.
Qed.

Lemma ConstantNode_visit_payload_witness :
  ConstantNode_visit Demo.env Demo.drv
    {| ConstantNode_type := UUID_T;
       text := "uuid(3b241101-e2bb-4255-8caf-4136c566a962)" |} type_UUID []
  = (Returns (Value_UUID (UUID_of_string "3b241101-e2bb-4255-8caf-4136c566a962")), []).
Proof.
  exact (proj1 (proj2 (ConstantNode_visit_payload Demo.env Demo.drv type_UUID []
                         "uuid(" "3b241101-e2bb-4255-8caf-4136c566a962" ")"
                         ltac:(reflexivity) ltac:(vm_compute; reflexivity)))
               ltac:(reflexivity)).
Defined.

(** *** Timestamps in the internal form *)

Lemma find_from_None_shift c s i j : find_from c s i = None -> find_from c s j = None.
Proof.
  revert i j. induction s as [|x s IH]; intros i j H; [reflexivity |].
  cbn [find_from] in *. destruct (Ascii.eqb x c); [discriminate H |].
  eapply IH. exact H.
Qed.

(** X16: a timestamp constant in the internal form [T<seconds>:<nanoseconds>]
    is split at its first colon: the seconds are read from what stands
    between the [T] and the colon, the nanoseconds from what follows it,
    and the pair then goes through the sign check of
    [get_timestamp_if_valid]. *)
Theorem internal_timestamp_fields env drv hint st s1 s2 :
  find_from ":" s1 0 = None ->
  size ("T" +:+ s1 +:+ ":" +:+ s2) < 2 ^ 64 ->
  internal_timestamp env ("T" +:+ s1 +:+ ":" +:+ s2)
  = Returns (to_int64 (strtol env s1 0), to_int32 (strtol env s2 0))
  /\ ConstantNode_visit env drv
       {| ConstantNode_type := TIMESTAMP; text := "T" +:+ s1 +:+ ":" +:+ s2 |} hint st
     = (obind (get_timestamp_if_valid (to_int64 (strtol env s1 0))
                 (to_int32 (strtol env s2 0)))
          (fun t => Returns (Value_Timestamp t)), st).
Proof.
  intros Hnone Hsize.
  assert (Hint : internal_timestamp env ("T" +:+ s1 +:+ ":" +:+ s2)
                 = Returns (to_int64 (strtol env s1 0), to_int32 (strtol env s2 0))).
  { unfold internal_timestamp.
    assert (Hfind : find ("T" +:+ s1 +:+ ":" +:+ s2) ":" = 1 + size s1).
    { rewrite <- append_assoc. change (":" +:+ s2) with (String ":" s2).
      rewrite find_first.
      - rewrite size_append. reflexivity.
      - rewrite append_cons, append_nil_l. cbn [find_from].
        change (Ascii.eqb "T" ":") with false. cbn iota.
        eapply find_from_None_shift. exact Hnone. }
    rewrite Hfind.
    pose proof (size_nonneg s1). pose proof (size_nonneg s2).
    rewrite !size_append in Hsize. change (size "T") with 1 in Hsize.
    change (size ":") with 1 in Hsize.
    rewrite size_t_sub_small by lia.
    replace (1 + size s1 - 1) with (size s1) by lia.
    change 1 with (size "T") at 1. rewrite substr_mid. cbn [obind].
    unfold size_t_add. rewrite Z.mod_small by lia.
    replace (1 + size s1 + 1) with (size ("T" +:+ s1 +:+ ":"))
      by (rewrite !size_append; change (size "T") with 1; change (size ":") with 1; lia).
    replace ("T" +:+ s1 +:+ ":" +:+ s2) with (("T" +:+ s1 +:+ ":") +:+ s2)
      by (rewrite !append_assoc; reflexivity).
    rewrite substr_rest.
    - reflexivity.
    - rewrite !size_append. change (size "T") with 1. change (size ":") with 1.
      unfold npos. lia. }
  split; [exact Hint |].
  unfold ConstantNode_visit, ConstantNode_switch, bind, ret, lift;
    cbn [ConstantNode_type Driver.text].
  rewrite append_cons. cbn [String.get].
  rewrite bool_decide_eq_true_2 by reflexivity.
  rewrite <- append_cons, Hint.
  destruct (get_timestamp_if_valid _ _); reflexivity.
Qed.

Lemma internal_timestamp_fields_witness :
  ConstantNode_visit Demo.env Demo.drv
    {| ConstantNode_type := TIMESTAMP; text := "T1577836800:30" |} type_Timestamp []
  = (Returns (Value_Timestamp (Timestamp_make 1577836800 30)), []).
Proof.
  exact (proj2 (internal_timestamp_fields Demo.env Demo.drv type_Timestamp []
                  "1577836800" "30"
                  ltac:(reflexivity) ltac:(vm_compute; reflexivity))).
Defined.

(** X17: without a colon the position found is [npos], and the two
    [size_t] computations on it wrap: the seconds are read from everything
    after the [T], and the nanoseconds from the whole text, [T] included. *)
Theorem internal_timestamp_no_colon env rest :
  find_from ":" rest 0 = None ->
  size rest < 2 ^ 64 - 2 ->
  internal_timestamp env ("T" +:+ rest)
  = Returns (to_int64 (strtol env rest 0), to_int32 (strtol env ("T" +:+ rest) 0)).
Proof.
  intros Hnone Hsize. unfold internal_timestamp.
  assert (Hfind : find ("T" +:+ rest) ":" = npos).
  { unfold find. rewrite append_cons, append_nil_l. cbn [find_from].
    change (Ascii.eqb "T" ":") with false. cbn iota.
    rewrite (find_from_None_shift _ _ _ (0 + 1) Hnone). reflexivity. }
  rewrite Hfind. pose proof (size_nonneg rest).
  assert (H1 : substr ("T" +:+ rest) 1 (size_t_sub npos 1) = Returns rest).
  { unfold substr. rewrite size_append. change (size "T") with 1.
    destruct (1 + size rest <? 1) eqn:E; [apply Z.ltb_lt in E; lia |].
    change (size_t_sub npos 1) with (2 ^ 64 - 2).
    rewrite Z.min_r by lia. replace (1 + size rest - 1) with (size rest) by lia.
    unfold size. rewrite Nat2Z.id. rewrite append_cons, append_nil_l.
    change (Z.to_nat 1) with 1%nat. cbn [String.substring].
    rewrite substring_all. reflexivity. }
  rewrite H1. cbn [obind].
  change (size_t_add npos 1) with (size "").
  rewrite <- (append_nil_l ("T" +:+ rest)) at 1.
  rewrite substr_rest.
  - reflexivity.
  - rewrite append_nil_l, size_append. change (size "T") with 1. unfold npos. lia.
Qed.

Lemma internal_timestamp_no_colon_witness :
  internal_timestamp Demo.env "T42" = Returns (42, 0).
Proof.
  exact (internal_timestamp_no_colon Demo.env "42"
           ltac:(reflexivity) ltac:(vm_compute; reflexivity)).
Defined.

(** *** The two operands of a comparison *)

Lemma obind_inv {A B} (o : outcome exn A) (k : A -> outcome exn B) b :
  obind o k = Returns b -> exists a, o = Returns a /\ k a = Returns b.
Proof. destruct o as [a|e]; cbn; intros H; [eauto | discriminate H]. Qed.

(** [LinkChain::column] builds a link column, a list column or a
    single-valued column, nothing else. *)
Lemma LinkChain_column_shape env g lc col s lc' :
  LinkChain_column env g lc col = Returns (s, lc') ->
  match s with
  | Columns_Link _ _ _ _ | Columns_Lst _ _ _ _ _ | Columns _ _ _ _ => True
  | _ => False
  end.
Proof.
  unfold LinkChain_column. intros H.
  repeat case_match; try discriminate H;
    try (apply obind_inv in H; destruct H as (? & _ & H));
    inversion H; subst; exact I.
Qed.

(** A compiled property is never a constant. *)
Lemma PropertyNode_visit_not_constant env drv node s :
  PropertyNode_visit env drv node = Returns s -> has_constant_evaluation s = false.
Proof.
  unfold PropertyNode_visit. intros H.
  destruct node as [path identifier post_op comp_type | path link aggr_op prop
                   | path identifier aggr_op];
    apply obind_inv in H; destruct H as (link_chain & _ & H);
    apply obind_inv in H; destruct H as ([subexpr lc'] & Hcol & H);
    pose proof (LinkChain_column_shape _ _ _ _ _ _ Hcol) as Hshape.
  - destruct post_op as [type|].
    + unfold PostOpNode_visit in H. repeat case_match; simplify_eq; reflexivity.
    + inversion H; subst. destruct s; try contradiction; reflexivity.
  - repeat case_match; try discriminate H;
      unfold AggrNode_visit in H; cbn in H; inversion H; reflexivity.
  - unfold AggrNode_visit in H. repeat case_match; simplify_eq; reflexivity.
Qed.

(** X18: [cmp] treats the two sides alike: with a property on one side and
    a constant on the other, the constant is compiled against the type of
    the property whichever side it stands on, and writing the operands the
    other way round gives the same two subexpressions the other way round,
    the same error, and the same scratch buffers. *)
Theorem cmp_swap env drv p c st :
  cmp env drv [ValueNode_of_constant c; ValueNode_of_prop p] st
  = (match fst (cmp env drv [ValueNode_of_prop p; ValueNode_of_constant c] st) with
     | Returns (l, r) => Returns (r, l)
     | Throws e => Throws e
     end,
     snd (cmp env drv [ValueNode_of_prop p; ValueNode_of_constant c] st)).
Proof.
  unfold cmp, bind, deref, ret, throw, lift; cbn.
  destruct (PropertyNode_visit env drv p) as [lhs|e]; cbn; [| reflexivity].
  destruct (ConstantNode_visit env drv c (get_type lhs) st) as [[rhs|e] st'] eqn:E;
    cbn; [| reflexivity].
  rewrite (constant_not_list rhs (ConstantNode_visit_value _ _ _ _ _ _ _ E)).
  rewrite andb_false_r. reflexivity.
Qed.

(** X19: what [cmp] hands to the comparison nodes: there were two operands,
    at most one of the two subexpressions is a constant, and they are not
    both primitive lists. *)
Theorem cmp_operands env drv values st lhs rhs st' :
  cmp env drv values st = (Returns (lhs, rhs), st') ->
  (2 <= length values)%nat
  /\ has_constant_evaluation lhs && has_constant_evaluation rhs = false
  /\ is_ColumnListBase lhs && is_ColumnListBase rhs = false.
Proof.
  unfold cmp, bind, deref, ret, throw, lift. intros H.
  destruct values as [|v0 [|v1 values]]; cbn in H; try discriminate H.
  split; [cbn; lia |].
  destruct v0 as [[lc|] lp], v1 as [[rc|] rp]; cbn in H; try discriminate H.
  - destruct rp as [rp|]; [| discriminate H].
    destruct (PropertyNode_visit env drv rp) as [r|] eqn:Er; [| discriminate H].
    destruct (ConstantNode_visit env drv lc (get_type r) st) as [[l|] st1] eqn:El;
      [| discriminate H].
    destruct (is_ColumnListBase l && is_ColumnListBase r) eqn:Elist; inversion H; subst.
    rewrite (PropertyNode_visit_not_constant _ _ _ _ Er), andb_false_r. auto.
  - destruct lp as [lp|]; [| discriminate H].
    destruct (PropertyNode_visit env drv lp) as [l|] eqn:Er; [| discriminate H].
    destruct (ConstantNode_visit env drv rc (get_type l) st) as [[r|] st1] eqn:El;
      [| discriminate H].
    destruct (is_ColumnListBase l && is_ColumnListBase r) eqn:Elist; inversion H; subst.
    rewrite (PropertyNode_visit_not_constant _ _ _ _ Er). auto.
  - destruct rp as [rp|]; [| discriminate H].
    destruct (PropertyNode_visit env drv rp) as [r|] eqn:Er; [| discriminate H].
    destruct lp as [lp|]; [| discriminate H].
    destruct (PropertyNode_visit env drv lp) as [l|] eqn:El; [| discriminate H].
    destruct (is_ColumnListBase l && is_ColumnListBase r) eqn:Elist; inversion H; subst.
    rewrite (PropertyNode_visit_not_constant _ _ _ _ Er), andb_false_r. auto.
Qed.

Lemma cmp_operands_witness :
  has_constant_evaluation
    (Columns col_type_Int (ColKey_make 0 col_type_Int false) "class_Person" [])
  && has_constant_evaluation (Value_int64 30) = false.
Proof.
  exact (proj1 (proj2 (cmp_operands Demo.env Demo.drv
           [Demo.property "age"; Demo.literal NUMBER "30"] []
           (Columns col_type_Int (ColKey_make 0 col_type_Int false) "class_Person" [])
           (Value_int64 30) [] ltac:(vm_compute; reflexivity)))).
Defined.

(** X20: with a property on both sides the right one is compiled first, so
    when it fails its error is the one reported, whatever the left one
    would have done; and when a property fails next to a constant, the
    constant is not compiled at all, so nothing is pushed on the scratch
    buffers. *)
Theorem cmp_property_error env drv p e st :
  PropertyNode_visit env drv p = Throws e ->
  (forall p', cmp env drv [ValueNode_of_prop p'; ValueNode_of_prop p] st = (Throws e, st))
  /\ (forall c, cmp env drv [ValueNode_of_prop p; ValueNode_of_constant c] st
                = (Throws e, st))
  /\ (forall c, cmp env drv [ValueNode_of_constant c; ValueNode_of_prop p] st
                = (Throws e, st)).
Proof.
  intros H. unfold cmp, bind, deref, ret, throw, lift; cbn. rewrite H.
  repeat split.
Qed.

Lemma cmp_property_error_witness :
  cmp Demo.env Demo.drv
    [ValueNode_of_prop (PropNode [] "age" None Any);
     ValueNode_of_prop (PropNode [] "height" None Any)] []
  = (Throws (runtime_error "'class_Person' has no property: 'height'"), []).
Proof.
  exact (proj1 (cmp_property_error Demo.env Demo.drv (PropNode [] "height" None Any)
                  (runtime_error "'class_Person' has no property: 'height'") []
                  ltac:(vm_compute; reflexivity))
           (PropNode [] "age" None Any)).
Defined.

(** *** Column-specialised comparisons *)

(** What [specializable] demands of the two operands. *)
Lemma specializable_inv lhs rhs col_key :
  specializable lhs rhs = Some col_key ->
  exists elem table,
    lhs = Columns elem col_key table []
    /\ has_constant_evaluation rhs = true
    /\ DataType_of elem = get_type rhs.
Proof.
  unfold specializable. intros H.
  destruct lhs; cbn in H; try discriminate H.
  destruct link_cols; cbn in H; [| discriminate H].
  destruct (has_constant_evaluation rhs) eqn:Hc; cbn in H; [| discriminate H].
  case_bool_decide as Ht; [| discriminate H].
  inversion H; subst. eauto.
Qed.

(** X21: when a comparison is specialised, the query built carries the
    property's column key and the very constant the right operand holds;
    the typed getters applied to that constant never trip their assertion,
    because the operand types were checked equal.  Equality does so for
    integers, bools, strings, binaries, timestamps, floats, doubles, decimals
    and UUIDs (strings and binaries keep the case-sensitivity flag, and a
    null of theirs takes the column-against-null form); the ordered
    comparisons for integers, timestamps, floats, doubles and decimals. *)
Theorem comparison_specialised env drv values st lhs rhs st' col_key :
  cmp env drv values st = (Returns (lhs, rhs), st') ->
  specializable lhs rhs = Some col_key ->
  data_types_are_comparable env (get_type lhs) (get_type lhs) = true ->
  (forall op case_sensitive,
     is_equality op = true ->
     get_type lhs ∈ [type_Int; type_Bool; type_String; type_Binary; type_Timestamp;
                     type_Float; type_Double; type_Decimal; type_UUID] ->
     EqualitylNode_visit env drv values op case_sensitive st
     = (Returns
          (if Mixed_is_null (get_mixed rhs)
           then match op with
                | EQUAL => where_equal_null col_key
                | _ => where_not_equal_null col_key
                end
           else simple_query op col_key (get_mixed rhs)
                  match get_type lhs with
                  | type_String | type_Binary => Some case_sensitive
                  | _ => None
                  end), st'))
  /\ (forall op,
        get_type lhs ∈ [type_Int; type_Timestamp; type_Float; type_Double; type_Decimal] ->
        RelationalNode_visit env drv values op st
        = (Returns (simple_query op col_key (get_mixed rhs) None), st')).
Proof.
  intros Hcmp Hs Hcomparable.
  destruct (specializable_inv _ _ _ Hs) as (elem & table & -> & Hc & Ht).
  cbn [get_type] in *. split.
  - intros op case_sensitive Hop Hin.
    unfold EqualitylNode_visit. rewrite (bind_returns _ _ _ _ _ Hcmp).
    unfold equality_fast_path. rewrite Hs. cbn [get_type].
    rewrite <- Ht, Hcomparable, andb_false_r.
    rewrite !elem_of_cons, elem_of_nil in Hin.
    destruct rhs; try discriminate Hc; cbn in Ht;
      destruct elem; try discriminate Ht;
      try (exfalso; repeat destruct Hin as [Hin|Hin]; solve [discriminate Hin | exact Hin]);
      try match goal with v : StringData |- _ => destruct v end;
      try match goal with v : BinaryData |- _ => destruct v end;
      destruct op; try discriminate Hop; reflexivity.
  - intros op Hin.
    unfold RelationalNode_visit. rewrite (bind_returns _ _ _ _ _ Hcmp).
    unfold relational_fast_path. rewrite Hs. cbn [get_type].
    rewrite <- Ht, Hcomparable.
    rewrite !elem_of_cons, elem_of_nil in Hin.
    destruct rhs; try discriminate Hc; cbn in Ht;
      destruct elem; try discriminate Ht;
      try (exfalso; repeat destruct Hin as [Hin|Hin]; solve [discriminate Hin | exact Hin]);
      reflexivity.
Qed.

Lemma comparison_specialised_witness :
  RelationalNode_visit Demo.env Demo.drv
    [Demo.property "age"; Demo.literal NUMBER "30"] GREATER []
  = (Returns (simple_query GREATER (ColKey_make 0 col_type_Int false) (Mixed_Int 30) None),
     []).
Proof.
  refine (proj2 (comparison_specialised Demo.env Demo.drv
            [Demo.property "age"; Demo.literal NUMBER "30"] []
            (Columns col_type_Int (ColKey_make 0 col_type_Int false) "class_Person" [])
            (Value_int64 30) [] (ColKey_make 0 col_type_Int false) _ _ _) GREATER _).
  - vm_compute; reflexivity.
  - vm_compute; reflexivity.
  - vm_compute; reflexivity.
  - cbn [get_type DataType_of]. constructor.
Defined.

(** *** Comparisons against NULL *)

Lemma property_against_null lhs : specializable lhs Value_null = None.
Proof.
  unfold specializable.
  destruct lhs; cbn; try reflexivity.
  destruct link_cols; cbn; [| reflexivity].
  case_bool_decide as Ht; [| reflexivity].
  destruct elem; discriminate Ht.
Qed.

(** X22: a property whose type is neither string nor binary (nor link list),
    compared with the NULL constant: the constant compiles to the typed
    null value, of unknown type; an equality or inequality then skips the
    comparability check and the specialised branch and returns the generic
    comparison over (null, property), while every ordered comparison is
    refused. *)
Theorem comparison_with_NULL env drv p text st lhs :
  PropertyNode_visit env drv p = Returns lhs ->
  get_type lhs <> type_String ->
  get_type lhs <> type_Binary ->
  get_type lhs <> type_LinkList ->
  let values := [ValueNode_of_prop p;
                 ValueNode_of_constant {| ConstantNode_type := NULL_VAL; text := text |}] in
  cmp env drv values st = (Returns (lhs, Value_null), st)
  /\ (forall op case_sensitive,
        EqualitylNode_visit env drv values op case_sensitive st
        = (Returns (equality_generic op case_sensitive lhs Value_null), st))
  /\ (forall op,
        RelationalNode_visit env drv values op st
        = (Throws (if bool_decide (get_type lhs = type_UUID)
                   then unsupported_operator op
                   else unsupported_comparison env (get_type lhs) DataType_minus1), st)).
Proof.
  intros Hp Hs Hb Hl values.
  assert (Hcmp : cmp env drv values st = (Returns (lhs, Value_null), st)).
  { subst values. unfold cmp, bind, deref, ret, throw, lift; cbn. rewrite Hp.
    unfold ConstantNode_visit, ConstantNode_switch, bind, ret, throw; cbn.
    rewrite !bool_decide_eq_false_2 by assumption. cbn.
    rewrite andb_false_r. reflexivity. }
  split; [exact Hcmp |]. split.
  - intros op case_sensitive. unfold EqualitylNode_visit.
    rewrite (bind_returns _ _ _ _ _ Hcmp). cbn [get_type].
    change (nonneg DataType_minus1) with false. rewrite andb_false_r. cbn [andb].
    unfold equality_fast_path. rewrite property_against_null. reflexivity.
  - intros op. unfold RelationalNode_visit.
    rewrite (bind_returns _ _ _ _ _ Hcmp). cbn [get_type].
    case_bool_decide; [reflexivity |].
    change (nonneg DataType_minus1) with false. cbn [negb]. rewrite orb_true_r.
    reflexivity.
Qed.

Lemma comparison_with_NULL_witness :
  RelationalNode_visit Demo.env Demo.drv
    [Demo.property "age"; Demo.literal NULL_VAL "NULL"] LESS []
  = (Throws (unsupported_comparison Demo.env type_Int DataType_minus1), []).
Proof.
  exact (proj2 (proj2 (comparison_with_NULL Demo.env Demo.drv
           (PropNode [] "age" None Any) "NULL" []
           (Columns col_type_Int (ColKey_make 0 col_type_Int false) "class_Person" [])
           ltac:(vm_compute; reflexivity) ltac:(discriminate) ltac:(discriminate)
           ltac:(discriminate))) LESS).
Defined.

(** *** Aggregates *)

(** X23: a list aggregate ([.@max], [.@min], [.@sum], [.@avg] on a
    property) compiles only over a primitive list column: what it returns is
    the list aggregate of that column with the operation asked for, never
    the aggregate over a link's sub-column, and on a link or single-valued
    column it throws "Cannot aggregate". *)
Theorem ListAggrNode_visit_result env drv path identifier aggr_op link_chain subexpr lc' :
  PathNode_visit env drv path Any = Returns link_chain ->
  LinkChain_column env (get_parent_group drv) link_chain identifier
  = Returns (subexpr, lc') ->
  PropertyNode_visit env drv (ListAggrNode path identifier aggr_op)
  = (if is_ColumnListBase subexpr
     then Returns (ListColumnAggregate aggr_op
                     (aggregate_result_type env aggr_op (get_type subexpr)) subexpr)
     else Throws (runtime_error "Cannot aggregate")).
Proof.
  intros Hpath Hcol. unfold PropertyNode_visit. rewrite Hpath. cbn [obind].
  rewrite Hcol. cbn [obind]. unfold AggrNode_visit.
  pose proof (LinkChain_column_shape _ _ _ _ _ _ Hcol) as Hshape.
  destruct subexpr; try contradiction; reflexivity.
Qed.

Lemma ListAggrNode_visit_result_witness :
  PropertyNode_visit Demo.env Demo.drv (ListAggrNode [] "scores" SUM)
  = Returns (ListColumnAggregate SUM type_Int
               (Columns_Lst col_type_Int (ColKey_make 5 col_type_Int true)
                  "class_Person" [] Any)).
Proof.
  exact (ListAggrNode_visit_result Demo.env Demo.drv [] "scores" SUM
           (LinkChain_new Demo.Person Any)
           (Columns_Lst col_type_Int (ColKey_make 5 col_type_Int true) "class_Person" [] Any)
           (LinkChain_new Demo.Person Any)
           ltac:(reflexivity) ltac:(vm_compute; reflexivity)).
Defined.

(** X24: an aggregate over the objects of a link ([link.@max.prop] and the
    like) returns, when it returns, the aggregate asked for over a
    sub-column of a link column, and that sub-column is an integer, float,
    double or decimal one: no other property type gets through, a missing
    property included. *)
Theorem LinkAggrNode_visit_result env drv path link aggr_op prop s :
  PropertyNode_visit env drv (LinkAggrNode path link aggr_op prop) = Returns s ->
  exists t link_prop col_key,
    s = SubColumnAggregate aggr_op
          (aggregate_result_type env aggr_op (DataType_of t))
          (SubColumns t link_prop col_key)
    /\ is_Columns_Link link_prop = true
    /\ ColKey_get_type col_key = t
    /\ t ∈ [col_type_Int; col_type_Float; col_type_Double; col_type_Decimal].
Proof.
  unfold PropertyNode_visit. intros H.
  apply obind_inv in H. destruct H as (link_chain & _ & H).
  apply obind_inv in H. destruct H as ([subexpr lc'] & _ & H).
  destruct (is_Columns_Link subexpr) eqn:Hlink; cbn [negb] in H; [| discriminate H].
  destruct (ColKey_get_type (get_column_key (m_current_table lc') prop)) eqn:Ht;
    try discriminate H;
    unfold AggrNode_visit in H; cbn in H; inversion H; subst;
    match type of Ht with
    | _ = ?t => exists t, subexpr, (get_column_key (m_current_table lc') prop)
    end; (split; [reflexivity |]); (split; [exact Hlink |]);
    (split; [exact Ht |]); rewrite !elem_of_cons; auto.
Qed.

Lemma LinkAggrNode_visit_result_witness :
  exists s, PropertyNode_visit Demo.env Demo.drv (LinkAggrNode [] "friends" MAX "age")
            = Returns s
            /\ get_type s = type_Int.
Proof.
  destruct (PropertyNode_visit Demo.env Demo.drv (LinkAggrNode [] "friends" MAX "age"))
    as [s|e] eqn:E; [| vm_compute in E; discriminate E].
  destruct (LinkAggrNode_visit_result _ _ _ _ _ _ _ E) as (t & lp & ck & -> & _ & _ & _).
  vm_compute in E. inversion E; subst. eexists. split; reflexivity.
Defined.

(** *** Paths *)

Lemma foldl_throws {A B E'} (f : outcome E' A -> B -> outcome E' A) l e :
  (forall b, f (Throws e) b = Throws e) -> foldl f (Throws e) l = Throws e.
Proof. intros Hf. induction l as [|b l IH]; cbn; [reflexivity | rewrite Hf; exact IH]. Qed.

(** X25: a path is followed element by element from the base table, and
    the first element that cannot be followed ends it: its error is the
    error of the whole path and of every property read through it; the
    elements after it are not looked at. *)
Theorem PathNode_visit_first_error env drv before elem after comp_type link_chain e :
  PathNode_visit env drv before comp_type = Returns link_chain ->
  (if starts_with elem "@links."
   then LinkChain_backlink env (get_parent_group drv) link_chain elem
   else LinkChain_link env (get_parent_group drv) link_chain elem) = Throws e ->
  PathNode_visit env drv (before ++ elem :: after) comp_type = Throws e
  /\ forall identifier post_op,
       PropertyNode_visit env drv
         (PropNode (before ++ elem :: after) identifier post_op comp_type) = Throws e.
Proof.
  intros Hbefore Helem.
  assert (H : PathNode_visit env drv (before ++ elem :: after) comp_type = Throws e).
  { unfold PathNode_visit in *. rewrite foldl_app, Hbefore. cbn [foldl obind].
    rewrite Helem. apply foldl_throws. reflexivity. }
  split; [exact H |]. intros identifier post_op.
  unfold PropertyNode_visit. rewrite H. reflexivity.
Qed.

Lemma PathNode_visit_first_error_witness :
  PathNode_visit Demo.env Demo.drv ["friends"; "pet"; "owner"] Any
  = Throws (runtime_error "no such property").
Proof.
  exact (proj1 (PathNode_visit_first_error Demo.env Demo.drv ["friends"] "pet" ["owner"] Any
                  {| m_link_cols := [ColKey_make 8 col_type_LinkList true];
                     m_current_table := Demo.Person;
                     m_base_table := Demo.Person;
                     m_comparison_type := Any |}
                  (runtime_error "no such property")
                  ltac:(vm_compute; reflexivity) ltac:(vm_compute; reflexivity))).
Defined.

End DriverMoreFacts.

(** ** String operators *)

Module StringOpsFacts.
Import Driver DriverFacts DriverMoreFacts StringOps.

(** X26: a string operator on a property without link traversal and a
    constant of its own type, string or binary, is specialised: the query
    is the [begins_with], [ends_with], [contains] or [like] predicate of the
    property's column, it carries the constant as its pattern and the
    case-sensitivity flag, and the typed getter never trips its assertion;
    an operator that is none of the four leaves the specialised branch and
    gets the empty query of the generic tail. *)
Theorem StringOpsNode_visit_specialised
    env drv values op case_sensitive st lhs rhs st' col_key :
  cmp env drv values st = (Returns (lhs, rhs), st') ->
  specializable lhs rhs = Some col_key ->
  get_type rhs = type_String \/ get_type rhs = type_Binary ->
  exists val,
    pattern_mixed val = get_mixed rhs
    /\ (get_type rhs = type_String <-> exists s, val = pattern_string s)
    /\ StringOpsNode_visit env drv values op case_sensitive st
       = (Returns (default StringQuery_empty (where_op op col_key val case_sensitive)),
          st').
Proof.
  intros Hcmp Hs Ht.
  destruct (specializable_inv _ _ _ Hs) as (elem & table & -> & Hc & _).
  unfold StringOpsNode_visit. rewrite (bind_returns _ _ _ _ _ Hcmp).
  unfold string_fast_path. rewrite Hs.
  destruct rhs; try discriminate Hc; cbn [get_type] in *;
    try (destruct Ht as [Ht|Ht]; discriminate Ht).
  - exists (pattern_binary v). split; [reflexivity |]. split.
    + split; [discriminate | intros [s Hv]; discriminate Hv].
    + destruct v; destruct op; destruct case_sensitive; reflexivity.
  - exists (pattern_string v). split; [reflexivity |]. split.
    + split; eauto.
    + destruct v; destruct op; destruct case_sensitive; reflexivity.
Qed.

Lemma StringOpsNode_visit_specialised_witness :
  exists val,
    StringOpsNode_visit Demo.env Demo.drv
      [Demo.property "name"; Demo.literal STRING "'Jo'"] BEGINSWITH true []
    = (Returns (where_begins_with (ColKey_make 1 col_type_String false) val true), []).
Proof.
  destruct (StringOpsNode_visit_specialised Demo.env Demo.drv
              [Demo.property "name"; Demo.literal STRING "'Jo'"] BEGINSWITH true []
              (Columns col_type_String (ColKey_make 1 col_type_String false)
                 "class_Person" [])
              (ConstantStringValue (Some "Jo")) [] (ColKey_make 1 col_type_String false)
              ltac:(vm_compute; reflexivity) ltac:(vm_compute; reflexivity)
              ltac:(left; reflexivity)) as (val & _ & _ & H).
  exists val. exact H.
Defined.

(** X27: a string operator refuses a right operand that is not of string or
    binary type: with a number or a boolean constant on the right of a
    property it throws "Unsupported comparison operator ... right side must
    be a string or binary type", whatever the property is, a string property
    included. *)
Theorem StringOpsNode_visit_right_side env drv p op case_sensitive st lhs :
  PropertyNode_visit env drv p = Returns lhs ->
  let visit c := StringOpsNode_visit env drv
                   [ValueNode_of_prop p; ValueNode_of_constant c] op case_sensitive st in
  (forall text,
     visit {| ConstantNode_type := NUMBER; text := text |}
     = (Throws (unsupported_string_operator env op
                  (if bool_decide (get_type lhs = type_Decimal)
                   then type_Decimal else type_Int)), st))
  /\ (forall text,
        visit {| ConstantNode_type := TRUE; text := text |}
        = (Throws (unsupported_string_operator env op type_Bool), st))
  /\ (forall text,
        visit {| ConstantNode_type := FALSE; text := text |}
        = (Throws (unsupported_string_operator env op type_Bool), st)).
Proof.
  intros Hp visit. subst visit.
  unfold StringOpsNode_visit, cmp, bind, deref, ret, throw, lift; cbn.
  rewrite Hp. unfold ConstantNode_visit, ConstantNode_switch, bind, ret; cbn.
  repeat split; intros text; try case_bool_decide; cbn;
    rewrite andb_false_r; reflexivity.
Qed.

Lemma StringOpsNode_visit_right_side_witness :
  StringOpsNode_visit Demo.env Demo.drv
    [Demo.property "name"; Demo.literal NUMBER "5"] CONTAINS true []
  = (Throws (unsupported_string_operator Demo.env CONTAINS type_Int), []).
Proof.
  exact (proj1 (StringOpsNode_visit_right_side Demo.env Demo.drv
                  (PropNode [] "name" None Any) CONTAINS true []
                  (Columns col_type_String (ColKey_make 1 col_type_String false)
                     "class_Person" [])
                  ltac:(vm_compute; reflexivity)) "5").
Defined.

End StringOpsFacts.

(** ** Sort, distinct and limit *)

Module OrderingFacts.
Import Driver DriverFacts DriverMoreFacts Ordering.

Lemma resolve_path_answer glt is_distinct cur_table col_names columns :
  resolve_path glt is_distinct cur_table col_names = Returns columns ->
  keys_answer col_names columns.
Proof.
  revert cur_table columns.
  induction col_names as [|name rest IH]; intros cur_table columns H; cbn in H.
  - inversion H. split; [reflexivity | constructor].
  - destruct (ColKey_not (get_column_key cur_table name)) eqn:Hkey; [discriminate H |].
    apply obind_inv in H. destruct H as (next & _ & H).
    apply obind_inv in H. destruct H as (keys & Hrest & H).
    inversion H; subst. destruct (IH _ _ Hrest) as [Hlen Hall].
    split; [cbn; rewrite Hlen; reflexivity | constructor; assumption].
Qed.

Lemma resolve_columns_answer glt is_distinct target columns property_columns :
  resolve_columns glt is_distinct target columns = Returns property_columns ->
  Forall2 keys_answer columns property_columns.
Proof.
  revert property_columns.
  induction columns as [|col_names rest IH]; intros property_columns H; cbn in H.
  - inversion H. constructor.
  - apply obind_inv in H. destruct H as (keys & Hpath & H).
    apply obind_inv in H. destruct H as (pcs & Hrest & H).
    inversion H; subst. constructor; [eapply resolve_path_answer; eassumption | auto].
Qed.

Lemma append_ordering_answer glt drv ordering node o :
  append_ordering glt drv ordering node = Returns o ->
  exists d, o = ordering ++ [d] /\ answers node d.
Proof.
  unfold append_ordering, answers. intros H.
  destruct (DescriptorNode_get_type node).
  - apply obind_inv in H. destruct H as (pcs & Hcols & H). inversion H; subst.
    eexists. split; [reflexivity |]. cbn.
    split; [reflexivity | eapply resolve_columns_answer; eassumption].
  - apply obind_inv in H. destruct H as (pcs & Hcols & H). inversion H; subst.
    eexists. split; [reflexivity |]. cbn.
    eapply resolve_columns_answer; eassumption.
  - inversion H; subst. eexists. split; reflexivity.
Qed.

Lemma visit_from glt drv orderings acc o :
  foldl (fun acc cur_ordering =>
           obind acc (fun ordering =>
           obind (append_ordering glt drv (default [] ordering) cur_ordering)
             (fun ordering => Returns (Some ordering))))
        (Returns acc) orderings = Returns o ->
  exists ds,
    Forall2 answers orderings ds
    /\ o = match orderings with
           | [] => acc
           | _ :: _ => Some (default [] acc ++ ds)
           end.
Proof.
  revert acc. induction orderings as [|node rest IH]; intros acc H; cbn in H.
  - inversion H. exists []. split; [constructor | reflexivity].
  - destruct (append_ordering glt drv (default [] acc) node) as [o1|e] eqn:Happ;
      cbn [obind] in H.
    + destruct (append_ordering_answer _ _ _ _ _ Happ) as (d & -> & Hd).
      destruct (IH _ H) as (ds & Hds & ->).
      exists (d :: ds). split; [constructor; assumption |].
      destruct rest.
      * inversion Hds; subst. reflexivity.
      * simpl. rewrite <- app_assoc. reflexivity.
    + rewrite foldl_throws in H by reflexivity. discriminate H.
Qed.

(** X28: the ordering compiled from the descriptors of a query: none gives
    the null pointer; otherwise, when every property is found, each node
    gets exactly one descriptor, in the order written and of its own kind,
    with the node's limit or sort directions and one non-null column key
    for every name of every dotted path. *)
Theorem DescriptorOrderingNode_visit_answers glt drv orderings o :
  DescriptorOrderingNode_visit glt drv orderings = Returns o ->
  match o with
  | None => orderings = []
  | Some ordering => orderings <> [] /\ Forall2 answers orderings ordering
  end.
Proof.
  unfold DescriptorOrderingNode_visit. intros H.
  destruct (visit_from _ _ _ _ _ H) as (ds & Hds & ->).
  destruct orderings; [reflexivity |].
  split; [discriminate | exact Hds].
Qed.

Lemma DescriptorOrderingNode_visit_answers_witness :
  Forall2 answers
    [ {| DescriptorNode_get_type := SORT;
         DescriptorNode_columns := [["friends"; "age"]; ["name"]];
         ascending := [true; false]; limit := 0 |};
      {| DescriptorNode_get_type := LIMIT;
         DescriptorNode_columns := []; ascending := []; limit := 5 |} ]
    [ SortDescriptor
        [[ColKey_make 8 col_type_LinkList true; ColKey_make 0 col_type_Int false];
         [ColKey_make 1 col_type_String false]] [true; false];
      LimitDescriptor 5 ].
Proof.
  exact (proj2 (DescriptorOrderingNode_visit_answers person_link_target Demo.drv
                  [ {| DescriptorNode_get_type := SORT;
                       DescriptorNode_columns := [["friends"; "age"]; ["name"]];
                       ascending := [true; false]; limit := 0 |};
                    {| DescriptorNode_get_type := LIMIT;
                       DescriptorNode_columns := []; ascending := []; limit := 5 |} ]
                  (Some [ SortDescriptor
                            [[ColKey_make 8 col_type_LinkList true;
                              ColKey_make 0 col_type_Int false];
                             [ColKey_make 1 col_type_String false]] [true; false];
                          LimitDescriptor 5 ])
                  ltac:(vm_compute; reflexivity))).
Defined.

Lemma resolve_path_single glt1 glt2 is_distinct cur_table col_names :
  (length col_names <= 1)%nat ->
  resolve_path glt1 is_distinct cur_table col_names
  = resolve_path glt2 is_distinct cur_table col_names.
Proof.
  destruct col_names as [|name [|name' rest]]; cbn; intros H;
    [reflexivity | reflexivity | lia].
Qed.

(** X29: the link target of a column is asked for only to step from one
    name of a dotted path to the next: when no path has more than one name,
    the ordering compiled, or the error thrown, does not depend on
    [get_link_target] at all. *)
Theorem DescriptorOrderingNode_visit_single_names glt1 glt2 drv orderings :
  Forall (fun node =>
            Forall (fun col_names => (length col_names <= 1)%nat)
              (DescriptorNode_columns node)) orderings ->
  DescriptorOrderingNode_visit glt1 drv orderings
  = DescriptorOrderingNode_visit glt2 drv orderings.
Proof.
  intros Hall. unfold DescriptorOrderingNode_visit.
  match goal with |- foldl _ ?a _ = _ => generalize a end.
  induction Hall as [|node rest Hnode _ IH]; intros acc; cbn [foldl]; [reflexivity |].
  rewrite IH. f_equal. destruct acc as [ordering|e]; [| reflexivity]. cbn [obind].
  f_equal. unfold append_ordering.
  assert (Hcols : forall is_distinct,
            resolve_columns glt1 is_distinct (drv_base_table drv) (DescriptorNode_columns node)
            = resolve_columns glt2 is_distinct (drv_base_table drv)
                (DescriptorNode_columns node)).
  { intros is_distinct.
    induction Hnode as [|col_names cols Hlen _ IHc]; cbn; [reflexivity |].
    rewrite (resolve_path_single glt1 glt2) by exact Hlen. rewrite IHc. reflexivity. }
  destruct (DescriptorNode_get_type node); rewrite ?Hcols; reflexivity.
Qed.

Lemma DescriptorOrderingNode_visit_single_names_witness :
  DescriptorOrderingNode_visit (fun _ _ => Throws terminated) Demo.drv
    [ {| DescriptorNode_get_type := DISTINCT;
         DescriptorNode_columns := [["age"]; ["name"]];
         ascending := []; limit := 0 |} ]
  = DescriptorOrderingNode_visit person_link_target Demo.drv
      [ {| DescriptorNode_get_type := DISTINCT;
           DescriptorNode_columns := [["age"]; ["name"]];
           ascending := []; limit := 0 |} ].
Proof.
  apply (DescriptorOrderingNode_visit_single_names
           (fun _ _ => Throws terminated) person_link_target Demo.drv).
  repeat constructor.
Defined.

End OrderingFacts.
